(** * Sphere mesh builder of the pendulum demo: model and verification

    The C++ class [geometry::Sphere] builds, in its constructor, a vertex
    buffer (position and normal per vertex) and a triangle index list for a
    UV sphere.  This development embeds the constructor and its three passes
    ([set_vertexes], [set_indices], [set_normals]) and proves the properties
    the specification states about them, then further properties of these
    passes and of the pendulum that [main] moves.

    Conventions.  [unsigned int] is a 32-bit integer: a [Z] in [0, 2^32) with
    the wrap-around of every operation written out.  [std::vector] is a list;
    [operator[]] outside the vector is undefined behaviour in C++ and is
    [None] here.  [insert] at the end of a vector is an append; where a
    property depends on it, [set_indices_within] adds the exception [insert]
    throws when the vector cannot grow.  [float] is kept behind an interface ([FloatOps]) with two
    instances: IEEE binary32, the arithmetic of the code, and exact real
    arithmetic, the arithmetic of the specification's formulas.

    The file has two parts: the model, then the proofs. *)

From Stdlib Require Import ZArith Lia Reals Lra.
From Stdlib Require Import Floats.SpecFloat.
From stdpp Require Import base list option.

Open Scope Z_scope.

(** * Part I: the model *)

(** ** 32-bit unsigned arithmetic *)

Definition wrap32 (z : Z) : Z := z mod 2 ^ 32.

Definition uadd (a b : Z) : Z := wrap32 (a + b).
Definition usub (a b : Z) : Z := wrap32 (a - b).
Definition umul (a b : Z) : Z := wrap32 (a * b).

(** The values an [unsigned int] can hold. *)
Definition uint (z : Z) : Prop := 0 <= z < 2 ^ 32.

(** ** Counted loops

    [for (i = lo; i < hi; i++) body] over a state [S].  The counters of the
    source never wrap before the test [i < hi] fails (the bound is itself an
    [unsigned int] or a [size_t]), so the loop runs [body] at
    [lo, lo + 1, ..., hi - 1], and not at all when [hi <= lo]. *)

Fixpoint for_iter {S : Type} (n : nat) (i : Z) (body : Z -> S -> S) (s : S) : S :=
  match n with
  | O => s
  | Datatypes.S n' => for_iter n' (i + 1) body (body i s)
  end.

Definition for_range {S : Type} (lo hi : Z) (body : Z -> S -> S) (s : S) : S :=
  for_iter (Z.to_nat (hi - lo)) lo body s.

(** The number of times the body of [for (i = lo; i < hi; i++)] runs. *)
Definition trip_count (lo hi : Z) : Z := Z.max 0 (hi - lo).

(** The same loop when the body may fail (an access outside a vector). *)
Fixpoint for_iterM {S : Type} (n : nat) (i : Z) (body : Z -> S -> option S) (s : S)
  : option S :=
  match n with
  | O => Some s
  | Datatypes.S n' =>
      match body i s with
      | Some s' => for_iterM n' (i + 1) body s'
      | None => None
      end
  end.

Definition for_rangeM {S : Type} (lo hi : Z) (body : Z -> S -> option S) (s : S)
  : option S :=
  for_iterM (Z.to_nat (hi - lo)) lo body s.

(** ** Vector accesses

    [v[i]] is defined only inside the vector. *)

Definition vec_get {A : Type} (v : list A) (i : Z) : option A :=
  if (0 <=? i) && (i <? Z.of_nat (length v)) then v !! Z.to_nat i else None.

Definition vec_set {A : Type} (v : list A) (i : Z) (x : A) : option (list A) :=
  if (0 <=? i) && (i <? Z.of_nat (length v)) then Some (<[Z.to_nat i := x]> v) else None.

(** Three stores [v[i0] = p.x; v[i1] = p.y; v[i2] = p.z], and three loads. *)
Definition vec_set3 {A : Type} (v : list A) (i0 i1 i2 : Z) (p : A * A * A)
  : option (list A) :=
  v ← vec_set v i0 p.1.1;
  v ← vec_set v i1 p.1.2;
  vec_set v i2 p.2.

Definition vec_get3 {A : Type} (v : list A) (i0 i1 i2 : Z) : option (A * A * A) :=
  x ← vec_get v i0;
  y ← vec_get v i1;
  z ← vec_get v i2;
  Some (x, y, z).

(** ** The index pass

    [Sphere::set_indices], on the members it reads and writes.
    [push3 a b c v] is [v.insert(v.end(), {a, b, c})]. *)

Definition push3 (a b c : Z) (v : list Z) : list Z := v ++ [a; b; c].

Definition set_indices (m_n_longitudes m_n_latitudes : Z) (m_indices : list Z) : list Z :=
  (* triangles from north-pole to horizontal circle just below it *)
  let v := for_range 1 m_n_longitudes
             (fun i_lon v => push3 0 (uadd i_lon 1) i_lon v) m_indices in
  (* close cycle at very top with last triangle *)
  let v := push3 0 1 m_n_longitudes v in
  let v := for_range 0 (usub m_n_latitudes 2)
             (fun i_lat v =>
                let v := for_range 1 m_n_longitudes
                  (fun i_lon v =>
                     let i_p0 := uadd i_lon (umul i_lat m_n_longitudes) in
                     let i_p1 := uadd i_p0 1 in
                     let i_p2 := uadd (uadd i_lon m_n_longitudes) (umul i_lat m_n_longitudes) in
                     let i_p3 := uadd i_p2 1 in
                     (* two triangles in same face *)
                     push3 i_p1 i_p3 i_p2 (push3 i_p0 i_p1 i_p2 v)) v in
                (* close cycle with last face *)
                let i_p0 := uadd 1 (umul i_lat m_n_longitudes) in
                let i_p1 := uadd m_n_longitudes (umul i_lat m_n_longitudes) in
                let i_p2 := uadd i_p0 m_n_longitudes in
                let i_p3 := uadd i_p1 m_n_longitudes in
                push3 i_p1 i_p2 i_p3 (push3 i_p0 i_p2 i_p1 v)) v in
  (* triangles from second-to-last horizontal circle to south-pole *)
  let indice_last := uadd (umul m_n_longitudes (usub m_n_latitudes 1)) 1 in
  let v := for_range 1 m_n_longitudes
             (fun i_lon v =>
                push3 indice_last (usub indice_last (uadd i_lon 1)) (usub indice_last i_lon) v)
             v in
  (* close cycle at very bottom with last triangle *)
  push3 indice_last (usub indice_last 1) (usub indice_last m_n_longitudes) v.

(** ** Floating-point interface

    What the constructor needs of [float]: IEEE arithmetic, the conversions
    it applies, and the [<cmath>] functions it calls. *)

Class FloatOps (F : Type) : Type := {
  f_zero : F;                  (* 0.0f *)
  f_one : F;                   (* 1.0f *)
  f_opp : F -> F;              (* -x *)
  f_add : F -> F -> F;
  f_mul : F -> F -> F;
  f_div : F -> F -> F;
  f_sqrt : F -> F;             (* std::sqrt *)
  f_cos : F -> F;              (* std::cos on float *)
  f_sin : F -> F;              (* std::sin on float *)
  f_of_size_t : Z -> F;        (* conversion of a size_t to float *)
  f_lon_step : Z -> F;         (* (float)(2*M_PI / n), the quotient taken in double *)
  f_lat_step : Z -> F;         (* (float)(M_PI / n), the quotient taken in double *)
}.

(** Modelled from the spec: the header [geometries/sphere.hpp], which
    declares the members of [Sphere], is not among the sources.  The stride
    [m_n_coords] is the 6 floats per vertex of the specification (position,
    then normal); it is an [unsigned int] like the counters it is combined
    with. *)
Definition m_n_coords : Z := 6.

(** ** The class [Sphere] *)

Section Sphere.
Context {F : Type} `{FloatOps F}.

Abbreviation vec3 := (F * F * F)%type.

(** *** [glm::normalize]

    GLM is a library outside the repository.  Its generic implementation is
    [normalize(v) = v * inversesqrt(dot(v, v))], with
    [inversesqrt(x) = 1 / sqrt(x)] and
    [dot(a, b) = a.x * b.x + a.y * b.y + a.z * b.z]. *)
Definition dot (a b : vec3) : F :=
  f_add (f_add (f_mul a.1.1 b.1.1) (f_mul a.1.2 b.1.2)) (f_mul a.2 b.2).

Definition inversesqrt (x : F) : F := f_div f_one (f_sqrt x).

Definition normalize (v : vec3) : vec3 :=
  let s := inversesqrt (dot v v) in
  (f_mul v.1.1 s, f_mul v.1.2 s, f_mul v.2 s).

(** *** The class *)
Record Sphere : Type := mkSphere {
  m_radius : F;
  m_n_longitudes : Z;
  m_n_latitudes : Z;
  m_n_vertexes : Z;
  m_vertexes : list F;
  m_indices : list Z;
}.

(** The position [set_vertexes] computes for longitude [i_lon] of the ring
    at latitude [i_lat]. *)
Definition ring_position (radius : F) (n_longitudes n_latitudes i_lat i_lon : Z) : vec3 :=
  let lon_step := f_lon_step n_longitudes in
  let lat_step := f_lat_step n_latitudes in
  let lat := f_mul (f_of_size_t i_lat) lat_step in
  let lon := f_mul (f_of_size_t i_lon) lon_step in
  (f_mul (f_mul radius (f_cos lon)) (f_sin lat),
   f_mul radius (f_cos lat),
   f_mul (f_mul radius (f_sin lon)) (f_sin lat)).

(** [Sphere::set_vertexes], on the members it reads and writes. *)
Definition set_vertexes (radius : F) (n_longitudes n_latitudes : Z) (vertexes : list F)
  : option (list F) :=
  (* north-pole *)
  v ← vec_set3 vertexes 0 1 2 (f_zero, radius, f_zero);
  (* vertexes belonging to horizontal circles between north & south poles *)
  st ← for_rangeM 1 n_latitudes
         (fun i_lat st =>
            for_rangeM 0 n_longitudes
              (fun i_lon st =>
                 let '(i_coord, v) := st in
                 v ← vec_set3 v i_coord (uadd i_coord 1) (uadd i_coord 2)
                       (ring_position radius n_longitudes n_latitudes i_lat i_lon);
                 Some (uadd i_coord m_n_coords, v))
              st)
         (m_n_coords, v);
  (* south-pole *)
  let '(i_coord, v) := st in
  vec_set3 v i_coord (uadd i_coord 1) (uadd i_coord 2) (f_zero, f_opp radius, f_zero).

(** [Sphere::set_normals], on the members it reads and writes. *)
Definition set_normals (n_vertexes : Z) (vertexes : list F) : option (list F) :=
  for_rangeM 0 n_vertexes
    (fun i_vertex v =>
       let i_coord := wrap32 (m_n_coords * i_vertex) in
       normal ← vec_get3 v i_coord (uadd i_coord 1) (uadd i_coord 2);
       let normal := normalize normal in
       vec_set3 v (uadd i_coord 3) (uadd i_coord 4) (uadd i_coord 5) normal)
    vertexes.

Definition Sphere_set_vertexes (s : Sphere) : option Sphere :=
  v ← set_vertexes (m_radius s) (m_n_longitudes s) (m_n_latitudes s) (m_vertexes s);
  Some (mkSphere (m_radius s) (m_n_longitudes s) (m_n_latitudes s) (m_n_vertexes s)
          v (m_indices s)).

Definition Sphere_set_indices (s : Sphere) : Sphere :=
  mkSphere (m_radius s) (m_n_longitudes s) (m_n_latitudes s) (m_n_vertexes s)
    (m_vertexes s) (set_indices (m_n_longitudes s) (m_n_latitudes s) (m_indices s)).

Definition Sphere_set_normals (s : Sphere) : option Sphere :=
  v ← set_normals (m_n_vertexes s) (m_vertexes s);
  Some (mkSphere (m_radius s) (m_n_longitudes s) (m_n_latitudes s) (m_n_vertexes s)
          v (m_indices s)).

(** The constructor [Sphere::Sphere].  [resize] on the empty vector fills
    it with [0.0f]. *)
Definition Sphere_new (radius : F) (n_longitudes n_latitudes : Z) : option Sphere :=
  let n_vertexes := uadd (uadd 1 (umul n_longitudes (usub n_latitudes 1))) 1 in
  let s := mkSphere radius n_longitudes n_latitudes n_vertexes
             (replicate (Z.to_nat (umul m_n_coords n_vertexes)) f_zero) [] in
  (* calculate vertexes (xyz & normals) & indices on creation *)
  s ← Sphere_set_vertexes s;
  Sphere_set_normals (Sphere_set_indices s).

Definition get_vertexes (s : Sphere) : list F := m_vertexes s.

(** [m_indices.size()] converted to [unsigned int]. *)
Definition get_n_elements (s : Sphere) : Z := wrap32 (Z.of_nat (length (m_indices s))).

(** Position and normal of vertex [n] in a buffer of 6 floats per vertex. *)
Definition position_at (v : list F) (n : Z) : option vec3 :=
  vec_get3 v (6 * n) (6 * n + 1) (6 * n + 2).

Definition normal_at (v : list F) (n : Z) : option vec3 :=
  vec_get3 v (6 * n + 3) (6 * n + 4) (6 * n + 5).
End Sphere.

Arguments Sphere F : clear implicits.

(** ** Two arithmetics *)

(** *** Exact real arithmetic *)

#[export] Instance real_ops : FloatOps R := {|
  f_zero := 0%R;
  f_one := 1%R;
  f_opp := Ropp;
  f_add := Rplus;
  f_mul := Rmult;
  f_div := Rdiv;
  f_sqrt := sqrt;
  f_cos := cos;
  f_sin := sin;
  f_of_size_t := IZR;
  f_lon_step := fun n => (2 * PI / IZR n)%R;
  f_lat_step := fun n => (PI / IZR n)%R;
|}.

(** *** IEEE binary32

    [float] is binary32, [double] is binary64; both round to nearest, ties
    to even.  [std::cos] and [std::sin] are the C library's: they are left
    to the caller. *)

Abbreviation binary32 := spec_float (only parsing).

Definition b32_of_Z (z : Z) : binary32 := binary_normalize 24 128 z 0 false.
Definition b64_of_Z (z : Z) : spec_float := binary_normalize 53 1024 z 0 false.

(** [M_PI], the binary64 number nearest to pi: 0x400921FB54442D18. *)
Definition M_PI : spec_float := S754_finite false 7074237752028440 (-51).

(** Conversion of a [double] to [float]. *)
Definition b32_of_b64 (x : spec_float) : binary32 :=
  match x with
  | S754_finite s m e => binary_normalize 24 128 (cond_Zopp s (Zpos m)) e s
  | _ => x
  end.

Definition binary32_ops (cosf sinf : binary32 -> binary32) : FloatOps binary32 := {|
  f_zero := S754_zero false;
  f_one := SFone 24 128;
  f_opp := SFopp;
  f_add := SFadd 24 128;
  f_mul := SFmul 24 128;
  f_div := SFdiv 24 128;
  f_sqrt := SFsqrt 24 128;
  f_cos := cosf;
  f_sin := sinf;
  f_of_size_t := b32_of_Z;
  f_lon_step := fun n =>
    b32_of_b64 (SFdiv 53 1024 (SFmul 53 1024 (b64_of_Z 2) M_PI) (b64_of_Z n));
  f_lat_step := fun n => b32_of_b64 (SFdiv 53 1024 M_PI (b64_of_Z n));
|}.

(** [2^e] as a binary32 number. *)
Definition b32_pow2 (e : Z) : binary32 := binary_normalize 24 128 1 e false.

Definition b32_zero : binary32 := S754_zero false.
Definition b32_one : binary32 := SFone 24 128.

(** [normalize] does not call the C library: any [cos] and [sin] will do. *)
Definition b32_normalize (v : binary32 * binary32 * binary32) :=
  normalize (H := binary32_ops (fun x => x) (fun x => x)) v.


#[export] Instance spec_float_eq_dec : EqDecision spec_float.
Proof. solve_decision. Defined.

(** ** The vocabulary of the specification *)

(** *** Triangles *)

Abbreviation triangle := (Z * Z * Z)%type.

(** The index list read three entries at a time. *)
Fixpoint triples (l : list Z) : list triangle :=
  match l with
  | a :: b :: c :: r => (a, b, c) :: triples r
  | _ => []
  end.

Definition flat3 (ts : list triangle) : list Z :=
  ts ≫= (fun t => [t.1.1; t.1.2; t.2]).

(** The three bands of [set_indices] in closed form: what each loop of the
    source appends, iteration by iteration. *)

Definition north_cap (L : Z) : list triangle :=
  ((fun i_lon => (0, uadd i_lon 1, i_lon)) <$> seqZ 1 (L - 1)) ++ [(0, 1, L)].

Definition quad (L i_lat i_lon : Z) : list triangle :=
  let i_p0 := uadd i_lon (umul i_lat L) in
  let i_p1 := uadd i_p0 1 in
  let i_p2 := uadd (uadd i_lon L) (umul i_lat L) in
  let i_p3 := uadd i_p2 1 in
  [(i_p0, i_p1, i_p2); (i_p1, i_p3, i_p2)].

Definition closing_quad (L i_lat : Z) : list triangle :=
  let i_p0 := uadd 1 (umul i_lat L) in
  let i_p1 := uadd L (umul i_lat L) in
  let i_p2 := uadd i_p0 L in
  let i_p3 := uadd i_p1 L in
  [(i_p0, i_p2, i_p1); (i_p1, i_p2, i_p3)].

Definition band (L i_lat : Z) : list triangle :=
  (seqZ 1 (L - 1) ≫= quad L i_lat) ++ closing_quad L i_lat.

Definition body_bands (L lat : Z) : list triangle :=
  seqZ 0 (usub lat 2) ≫= band L.

Definition south_cap (L lat : Z) : list triangle :=
  let indice_last := uadd (umul L (usub lat 1)) 1 in
  ((fun i_lon => (indice_last, usub indice_last (uadd i_lon 1), usub indice_last i_lon))
     <$> seqZ 1 (L - 1))
  ++ [(indice_last, usub indice_last 1, usub indice_last L)].

Definition triangles (L lat : Z) : list triangle :=
  north_cap L ++ body_bands L lat ++ south_cap L lat.

(** The triple [t] names vertices below [V]. *)
Definition below (V : Z) (t : triangle) : Prop :=
  (0 <= t.1.1 < V) /\ (0 <= t.1.2 < V) /\ (0 <= t.2 < V).

(** The quads of a body band, following the specification's words: every
    quad of a band, the wraparound quad included, has upper corners [p0],
    [p1] (the next longitude, modulo the ring) and lower corners [p2], [p3]
    below them, and is split into [(p0, p1, p2)] and [(p1, p3, p2)]. *)
Definition spec_quad (L i_lat j : Z) : list triangle :=
  let p0 := 1 + i_lat * L + j in
  let p1 := 1 + i_lat * L + (j + 1) mod L in
  let p2 := p0 + L in
  let p3 := p1 + L in
  [(p0, p1, p2); (p1, p3, p2)].

Definition spec_band (L i_lat : Z) : list triangle :=
  seqZ 0 L ≫= spec_quad L i_lat.

(** Two triples on the same three vertices, whatever their order. *)
Definition sort3 (t : triangle) : triangle :=
  let '(a, b, c) := t in
  let lo := Z.min a (Z.min b c) in
  let hi := Z.max a (Z.max b c) in
  (lo, a + b + c - lo - hi, hi).

Definition same_vertices (t t' : triangle) : bool :=
  let '(a, b, c) := sort3 t in
  let '(a', b', c') := sort3 t' in
  (a =? a') && (b =? b') && (c =? c').

(** The triangles band [i_lat] occupies in an index list. *)
Definition band_of (L : Z) (l : list Z) (i_lat : Z) : list triangle :=
  take (Z.to_nat (2 * L)) (drop (Z.to_nat (L + 2 * L * i_lat)) (triples l)).

(** *** References to a vertex *)

Definition has_vertex (v : Z) (t : triangle) : bool :=
  (t.1.1 =? v) || (t.1.2 =? v) || (t.2 =? v).

Definition ind (b : bool) : Z := if b then 1 else 0.

(** The number of triangles of [ts] that reference vertex [v]. *)
Definition references (v : Z) (ts : list triangle) : Z :=
  foldr (fun t n => ind (has_vertex v t) + n) 0 ts.

Definition sumZ (g : Z -> Z) (l : list Z) : Z := foldr (fun i a => g i + a) 0 l.

(** References to a vertex of the upper ring of a band ([j] is its place in
    the ring). *)
Definition upper_references (L j : Z) : Z :=
  if j =? 0 then 2 else if j =? L - 1 then 4 else 3.

(** References to a vertex of the lower ring of a band. *)
Definition lower_references (L j : Z) : Z :=
  if j =? 0 then 4 else if j =? L - 1 then 2 else 3.

(** *** The vertex buffer *)

(** The vertex count of the specification. *)
Definition vertex_count (L lat : Z) : Z := 2 + L * (lat - 1).

(** The buffer of a mesh fits when its size in floats, [6 * vertex_count],
    is representable on 32 bits. *)
Definition fits (L lat : Z) : Prop := m_n_coords * vertex_count L lat < 2 ^ 32.

(** The position of vertex [n], by its place in the emission order: north
    pole, rings from north to south, south pole. *)
Definition vertex_position {F : Type} `{FloatOps F} (radius : F) (L lat n : Z)
  : F * F * F :=
  if n =? 0 then (f_zero, radius, f_zero)
  else if n =? vertex_count L lat - 1 then (f_zero, f_opp radius, f_zero)
  else ring_position radius L lat ((n - 1) / L + 1) ((n - 1) mod L).

(** The state of [set_vertexes] once [n] vertices are stored. *)
Definition stored {F : Type} `{FloatOps F} (radius : F) (L lat n : Z)
    (st : Z * list F) : Prop :=
  st.1 = 6 * n /\
  Z.of_nat (length st.2) = 6 * vertex_count L lat /\
  forall m, 0 <= m < n -> position_at st.2 m = Some (vertex_position radius L lat m).

(** The state of [set_normals] once the normals of vertices [0..i-1] are
    stored: positions are untouched. *)
Definition normals_stored {F : Type} `{FloatOps F} (radius : F) (L lat i : Z)
    (v : list F) : Prop :=
  Z.of_nat (length v) = 6 * vertex_count L lat /\
  (forall n, 0 <= n < vertex_count L lat ->
     position_at v n = Some (vertex_position radius L lat n)) /\
  (forall n, 0 <= n < i ->
     normal_at v n = Some (normalize (vertex_position radius L lat n))).

(** What the constructor builds: the members of a finished [Sphere]. *)
Definition built {F : Type} `{FloatOps F} (radius : F) (L lat : Z) (s : Sphere F)
  : Prop :=
  m_radius s = radius /\
  m_n_longitudes s = L /\
  m_n_latitudes s = lat /\
  m_n_vertexes s = vertex_count L lat /\
  m_indices s = set_indices L lat [] /\
  Z.of_nat (length (m_vertexes s)) = 6 * vertex_count L lat /\
  (forall n, 0 <= n < vertex_count L lat ->
     position_at (m_vertexes s) n = Some (vertex_position radius L lat n)) /\
  (forall n, 0 <= n < vertex_count L lat ->
     normal_at (m_vertexes s) n = Some (normalize (vertex_position radius L lat n))).

(** The state of a run of [set_vertexes] that has stored [n] vertices in a
    buffer of [S] floats without leaving it. *)
Definition sound {F : Type} (S n : Z) (st : Z * list F) : Prop :=
  st.1 = 6 * n /\ Z.of_nat (length st.2) = S /\ 0 <= n /\ 6 * n <= 2 ^ 32 - 4.

(** *** Geometry, in exact arithmetic *)

Definition vsub (u v : R * R * R) : R * R * R :=
  (u.1.1 - v.1.1, u.1.2 - v.1.2, u.2 - v.2)%R.

Definition cross (u v : R * R * R) : R * R * R :=
  (u.1.2 * v.2 - u.2 * v.1.2, u.2 * v.1.1 - u.1.1 * v.2,
   u.1.1 * v.1.2 - u.1.2 * v.1.1)%R.

(** The triangle [a], [b], [c] of a surface around the origin is
    counter-clockwise when seen from outside: the normal
    [(b - a) x (c - a)], which points towards the viewer who sees [a], [b],
    [c] turn counter-clockwise, points away from the origin. *)
Definition outward (a b c : R * R * R) : Prop :=
  (0 < dot (cross (vsub b a) (vsub c a)) a)%R.

(** The point of azimuth [theta] and polar angle [phi]. *)
Definition sph (radius theta phi : R) : R * R * R :=
  (radius * cos theta * sin phi, radius * cos phi, radius * sin theta * sin phi)%R.

Definition azimuth (L j : Z) : R := (IZR j * (2 * PI / IZR L))%R.
Definition polar (lat k : Z) : R := (IZR k * (PI / IZR lat))%R.

(** The triple [t] names three vertices of the buffer [v] that turn
    counter-clockwise when seen from outside. *)
Definition wound_outward (v : list R) (t : triangle) : Prop :=
  exists a b c,
    position_at v t.1.1 = Some a /\
    position_at v t.1.2 = Some b /\
    position_at v t.2 = Some c /\
    outward a b c.

(** ** The index pass when the vector may refuse to grow

    [m_indices.insert(m_indices.end(), {a, b, c})] throws
    [std::length_error] when the vector would pass [max_size()], and
    [std::bad_alloc] when the allocator has no memory left for it.  The
    standard library is outside the repository: [max_size()] of a vector of
    [unsigned int] is taken as libstdc++'s on a 64-bit target,
    [PTRDIFF_MAX / sizeof(unsigned int) = 2^61 - 1], and [room] is the number
    of entries up to which the allocator lets the vector grow.  An exception
    leaves the constructor: [None]. *)

Definition vector_max_size : Z := 2 ^ 61 - 1.

Definition insert3 (room a b c : Z) (v : list Z) : option (list Z) :=
  if Z.of_nat (length v) + 3 <=? Z.min room vector_max_size
  then Some (push3 a b c v) else None.

(** [Sphere::set_indices], with [insert] as above. *)
Definition set_indices_within (room m_n_longitudes m_n_latitudes : Z) (m_indices : list Z)
  : option (list Z) :=
  (* triangles from north-pole to horizontal circle just below it *)
  v ← for_rangeM 1 m_n_longitudes
        (fun i_lon v => insert3 room 0 (uadd i_lon 1) i_lon v) m_indices;
  (* close cycle at very top with last triangle *)
  v ← insert3 room 0 1 m_n_longitudes v;
  v ← for_rangeM 0 (usub m_n_latitudes 2)
        (fun i_lat v =>
           v ← for_rangeM 1 m_n_longitudes
                 (fun i_lon v =>
                    let i_p0 := uadd i_lon (umul i_lat m_n_longitudes) in
                    let i_p1 := uadd i_p0 1 in
                    let i_p2 := uadd (uadd i_lon m_n_longitudes) (umul i_lat m_n_longitudes) in
                    let i_p3 := uadd i_p2 1 in
                    (* two triangles in same face *)
                    v ← insert3 room i_p0 i_p1 i_p2 v;
                    insert3 room i_p1 i_p3 i_p2 v) v;
           (* close cycle with last face *)
           let i_p0 := uadd 1 (umul i_lat m_n_longitudes) in
           let i_p1 := uadd m_n_longitudes (umul i_lat m_n_longitudes) in
           let i_p2 := uadd i_p0 m_n_longitudes in
           let i_p3 := uadd i_p1 m_n_longitudes in
           v ← insert3 room i_p0 i_p2 i_p1 v;
           insert3 room i_p1 i_p2 i_p3 v) v;
  (* triangles from second-to-last horizontal circle to south-pole *)
  let indice_last := uadd (umul m_n_longitudes (usub m_n_latitudes 1)) 1 in
  v ← for_rangeM 1 m_n_longitudes
        (fun i_lon v =>
           insert3 room indice_last (usub indice_last (uadd i_lon 1))
             (usub indice_last i_lon) v) v;
  (* close cycle at very bottom with last triangle *)
  insert3 room indice_last (usub indice_last 1) (usub indice_last m_n_longitudes) v.

(** The triangles [ts] inserted one after the other. *)
Fixpoint insert_all (room : Z) (ts : list triangle) (v : list Z) : option (list Z) :=
  match ts with
  | [] => Some v
  | t :: ts => v ← insert3 room t.1.1 t.1.2 t.2 v; insert_all room ts v
  end.

Section SphereWithin.
Context {F : Type} `{FloatOps F}.

Definition Sphere_set_indices_within (room : Z) (s : Sphere F) : option (Sphere F) :=
  v ← set_indices_within room (m_n_longitudes s) (m_n_latitudes s) (m_indices s);
  Some (mkSphere (m_radius s) (m_n_longitudes s) (m_n_latitudes s) (m_n_vertexes s)
          (m_vertexes s) v).

(** The constructor [Sphere::Sphere], with [insert] as above. *)
Definition Sphere_new_within (room : Z) (radius : F) (n_longitudes n_latitudes : Z)
  : option (Sphere F) :=
  let n_vertexes := uadd (uadd 1 (umul n_longitudes (usub n_latitudes 1))) 1 in
  let s := mkSphere radius n_longitudes n_latitudes n_vertexes
             (replicate (Z.to_nat (umul m_n_coords n_vertexes)) f_zero) [] in
  (* calculate vertexes (xyz & normals) & indices on creation *)
  s ← Sphere_set_vertexes s;
  s ← Sphere_set_indices_within room s;
  Sphere_set_normals s.
End SphereWithin.

(** ** Further vocabulary *)

(** *** Triangles and edges *)

(** The three indices of a triple are pairwise different. *)
Definition distinct3 (t : triangle) : Prop :=
  t.1.1 <> t.1.2 /\ t.1.1 <> t.2 /\ t.1.2 <> t.2.

(** The three directed edges of a triangle, in its winding order. *)
Definition edges (t : triangle) : list (Z * Z) :=
  [(t.1.1, t.1.2); (t.1.2, t.2); (t.2, t.1.1)].

(** *** The two passes on any buffer *)

(** Slot [m] of a vertex buffer holds a coordinate of a normal. *)
Definition normal_slot (m : Z) : Prop := 3 <= m mod 6.

(** The state of [set_vertexes] on any buffer [v0], once [n] vertices are
    stored: the slots it has not written are as in [v0]. *)
Definition positions_done {F : Type} `{FloatOps F} (radius : F) (L lat : Z)
    (v0 : list F) (n : Z) (st : Z * list F) : Prop :=
  st.1 = 6 * n /\
  length st.2 = length v0 /\
  (forall m, 0 <= m < n -> position_at st.2 m = Some (vertex_position radius L lat m)) /\
  (forall m, m < 0 \/ 6 * n <= m \/ normal_slot m -> vec_get st.2 m = vec_get v0 m).

(** The state of [set_normals] on any buffer [v], once the normals of
    vertices [0..i-1] are stored. *)
Definition normals_done {F : Type} `{FloatOps F} (v : list F) (i : Z) (w : list F)
  : Prop :=
  length w = length v /\
  (forall m, m < 0 \/ 6 * i <= m \/ ~ normal_slot m -> vec_get w m = vec_get v m) /\
  (forall k, 0 <= k < i ->
     exists p, position_at v k = Some p /\ normal_at w k = Some (normalize p)).

(** *** Geometry, in exact arithmetic *)

Definition vneg (u : R * R * R) : R * R * R := (- u.1.1, - u.1.2, - u.2)%R.

(** The triple [t] names three vertices of the buffer [v] that turn
    clockwise when seen from outside: the triangle faces the origin. *)
Definition wound_inward (v : list R) (t : triangle) : Prop :=
  exists a b c,
    position_at v t.1.1 = Some a /\
    position_at v t.1.2 = Some b /\
    position_at v t.2 = Some c /\
    (dot (cross (vsub b a) (vsub c a)) a < 0)%R.

(** ** The pendulum of [main]

    The statements of the game loop of [main] that move the bob, on the
    variables they read and write.  [a - b] is [a + (- b)], as in IEEE 754. *)

Section Pendulum.
Context {F : Type} `{FloatOps F}.

Definition f_sub (a b : F) : F := f_add a (f_opp b).

(** The variables the loop updates. *)
Record Pendulum : Type := mkPendulum {
  angle : F;
  velocity_ang : F;
}.

(** One frame: the update of [velocity_ang] and [angle]. *)
Definition pendulum_step (gravity length : F) (p : Pendulum) : Pendulum :=
  (* linear or tangential acceleration *)
  let acceleration_lin := f_mul (f_opp gravity) (f_sin (angle p)) in
  (* angular acceleration *)
  let acceleration_ang := f_div acceleration_lin length in
  (* update angular velocity using angular acceleration *)
  let velocity_ang := f_add (velocity_ang p) acceleration_ang in
  let angle := f_add (angle p) velocity_ang in
  mkPendulum angle velocity_ang.

(** The position the frame then gives to the bob. *)
Definition position_sphere (pivot : F * F * F) (length angle : F) : F * F * F :=
  (f_add pivot.1.1 (f_mul length (f_sin angle)),
   f_sub pivot.1.2 (f_mul length (f_cos angle)),
   f_zero).

(** The variables after [n] turns of the loop. *)
Fixpoint pendulum_frames (n : nat) (gravity length : F) (p : Pendulum) : Pendulum :=
  match n with
  | O => p
  | Datatypes.S n' => pendulum_frames n' gravity length (pendulum_step gravity length p)
  end.

(** The pendulum seen in a mirror through the vertical axis. *)
Definition mirror (p : Pendulum) : Pendulum :=
  mkPendulum (f_opp (angle p)) (f_opp (velocity_ang p)).
End Pendulum.

Arguments Pendulum F : clear implicits.

(** * Part II: the proofs *)

(** ** Loop lemmas *)

Lemma for_iter_foldl {S : Type} (body : Z -> S -> S) (n : nat) (i : Z) (s : S) :
  for_iter n i body s = foldl (fun s i => body i s) s (seqZ i (Z.of_nat n)).
Proof.
  revert i s. induction n as [|n IH]; intros i s.
  - reflexivity.
  - rewrite Nat2Z.inj_succ, seqZ_cons by lia. cbn [for_iter foldl].
    rewrite IH. do 2 f_equal. lia.
Qed.

Lemma for_range_foldl {S : Type} (body : Z -> S -> S) (lo hi : Z) (s : S) :
  for_range lo hi body s = foldl (fun s i => body i s) s (seqZ lo (hi - lo)).
Proof.
  unfold for_range. rewrite for_iter_foldl.
  destruct (Z_le_gt_dec 0 (hi - lo)).
  - rewrite Z2Nat.id by lia. reflexivity.
  - replace (Z.to_nat (hi - lo)) with O by lia.
    unfold seqZ. replace (Z.to_nat (hi - lo)) with O by lia. reflexivity.
Qed.

(** A loop that only appends to a vector appends the concatenation of what
    each iteration appends. *)
Lemma for_range_append {A : Type} (f : Z -> list A) (lo hi : Z) (v : list A) :
  for_range lo hi (fun i v => v ++ f i) v = v ++ (seqZ lo (hi - lo) ≫= f).
Proof.
  rewrite for_range_foldl. generalize (seqZ lo (hi - lo)) as l. intros l.
  revert v. induction l as [|i l IH]; intros v; cbn.
  - rewrite app_nil_r. reflexivity.
  - rewrite IH, <- app_assoc. reflexivity.
Qed.

Lemma for_range_ext {S : Type} (f g : Z -> S -> S) (lo hi : Z) (s : S) :
  (forall i s, lo <= i < hi -> f i s = g i s) ->
  for_range lo hi f s = for_range lo hi g s.
Proof.
  intros Hfg. rewrite !for_range_foldl.
  assert (Hin : forall i, i ∈ seqZ lo (hi - lo) -> lo <= i < hi).
  { intros i Hi. apply elem_of_seqZ in Hi. lia. }
  revert Hin s. generalize (seqZ lo (hi - lo)) as l.
  induction l as [|i l IH]; intros Hin s; cbn; [reflexivity|].
  rewrite Hfg by (apply Hin; left). apply IH. intros j Hj. apply Hin. right. exact Hj.
Qed.

(** ** [set_indices] emits exactly [triangles] *)

Lemma flat3_app (a b : list triangle) : flat3 (a ++ b) = flat3 a ++ flat3 b.
Proof. unfold flat3. apply bind_app. Qed.

Lemma flat3_bind {A : Type} (f : A -> list triangle) (l : list A) :
  flat3 (l ≫= f) = l ≫= (fun x => flat3 (f x)).
Proof.
  induction l as [|x l IH]; cbn; [reflexivity|].
  rewrite flat3_app. f_equal. exact IH.
Qed.

Lemma flat3_fmap {A : Type} (f : A -> triangle) (l : list A) :
  flat3 (f <$> l) = l ≫= (fun x => [(f x).1.1; (f x).1.2; (f x).2]).
Proof. induction l as [|x l IH]; cbn; [reflexivity|]. do 3 f_equal. exact IH. Qed.

Lemma triples_flat3_app (ts : list triangle) (r : list Z) :
  triples (flat3 ts ++ r) = ts ++ triples r.
Proof.
  induction ts as [|[[a b] c] ts IH]; cbn; [reflexivity|].
  f_equal. exact IH.
Qed.

Lemma triples_flat3 (ts : list triangle) : triples (flat3 ts) = ts.
Proof.
  rewrite <- (app_nil_r (flat3 ts)), triples_flat3_app. cbn. apply app_nil_r.
Qed.

Lemma set_indices_triangles (L lat : Z) (v : list Z) :
  set_indices L lat v = v ++ flat3 (triangles L lat).
Proof.
  unfold set_indices, triangles, north_cap, body_bands, south_cap, push3.
  rewrite !flat3_app, !flat3_fmap, flat3_bind. cbn [flat3 mbind list_bind app fst snd].
  rewrite !for_range_append.
  rewrite (for_range_ext _ (fun i_lat v => v ++ flat3 (band L i_lat))).
  2:{ intros i_lat w _. unfold band, quad, closing_quad.
      rewrite flat3_app, flat3_bind.
      rewrite (for_range_ext _
        (fun i_lon v => v ++ flat3 (quad L i_lat i_lon))).
      2:{ intros i_lon u _. unfold quad. cbn. rewrite <- app_assoc. reflexivity. }
      rewrite for_range_append. cbn. rewrite <- !app_assoc.
      replace (L - 1) with (L - 1 + 0) at 1 by lia.
      replace (L - 1 + 0) with (L - 1) by lia. reflexivity. }
  rewrite for_range_append.
  replace (usub lat 2 - 0) with (usub lat 2) by lia.
  rewrite <- !app_assoc. cbn. reflexivity.
Qed.

(** ** Facts on 32-bit arithmetic *)

Lemma wrap32_range (z : Z) : 0 <= wrap32 z < 2 ^ 32.
Proof. unfold wrap32. apply Z.mod_pos_bound. lia. Qed.

Lemma wrap32_small (z : Z) : 0 <= z < 2 ^ 32 -> wrap32 z = z.
Proof. intros H. unfold wrap32. apply Z.mod_small. exact H. Qed.

Lemma wrap32_le (z : Z) : 0 <= z -> wrap32 z <= z.
Proof. intros H. unfold wrap32. apply Z.mod_le; lia. Qed.

Lemma seqZ_bounds (lo n i : Z) : i ∈ seqZ lo n -> lo <= i < lo + n.
Proof. intros H. apply elem_of_seqZ in H. exact H. Qed.

(** ** Index bounds *)

Lemma flat3_below (V : Z) (ts : list triangle) :
  Forall (below V) ts -> Forall (fun i => 0 <= i < V) (flat3 ts).
Proof.
  induction 1 as [|[[a b] c] ts (Ha & Hb & Hc) _ IH]; [constructor|].
  cbn in Ha, Hb, Hc. change (flat3 ((a, b, c) :: ts)) with (a :: b :: c :: flat3 ts).
  repeat (constructor; [assumption|]). exact IH.
Qed.

(** A sum or product of non-negative values, wrapped, is at most the exact
    value: enough to bound the indices of the north cap and of the bands. *)
Ltac wrap_le :=
  repeat match goal with
    | |- context [wrap32 ?x] =>
        lazymatch goal with
        | _ : 0 <= wrap32 x <= x |- _ => fail
        | _ => idtac
        end;
        let H := fresh "Hw" in
        assert (H : 0 <= wrap32 x <= x)
          by (split; [apply wrap32_range | apply wrap32_le; nia]);
        generalize dependent (wrap32 x); intros
    end.

Lemma north_cap_below (L lat : Z) :
  uint L -> 3 <= L -> 2 <= lat ->
  Forall (below (2 + L * (lat - 1))) (north_cap L).
Proof.
  intros HL H3 H2. unfold north_cap, uint in *.
  apply Forall_app; split.
  - apply Forall_fmap, list.Forall_forall. intros i Hi%seqZ_bounds.
    unfold below, uadd; cbn. wrap_le. nia.
  - repeat constructor; cbn; nia.
Qed.

Lemma body_bands_below (L lat : Z) :
  uint L -> uint lat -> 3 <= L -> 2 <= lat ->
  Forall (below (2 + L * (lat - 1))) (body_bands L lat).
Proof.
  intros HL Hlat H3 H2. unfold body_bands, uint in *.
  assert (Hb : usub lat 2 = lat - 2) by (apply wrap32_small; lia).
  rewrite Hb. apply list.Forall_forall. intros t Ht.
  apply list_elem_of_bind in Ht as (i_lat & Ht & Hi%seqZ_bounds).
  assert (Hm : 0 <= i_lat * L <= (lat - 3) * L) by nia.
  unfold band in Ht. apply elem_of_app in Ht as [Ht|Ht].
  - apply list_elem_of_bind in Ht as (i_lon & Ht & Hj%seqZ_bounds).
    unfold quad, uadd, umul in Ht.
    repeat (apply elem_of_cons in Ht as [->|Ht]); [| |inversion Ht];
      unfold below; cbn; wrap_le; nia.
  - unfold closing_quad, uadd, umul in Ht.
    repeat (apply elem_of_cons in Ht as [->|Ht]); [| |inversion Ht];
      unfold below; cbn; wrap_le; nia.
Qed.

Lemma south_cap_below (L lat : Z) :
  uint L -> uint lat -> 3 <= L -> 2 <= lat ->
  Forall (below (2 + L * (lat - 1))) (south_cap L lat).
Proof.
  intros HL Hlat H3 H2. unfold uint in *.
  assert (Hl1 : usub lat 1 = lat - 1) by (apply wrap32_small; lia).
  assert (HV : 0 <= L * (lat - 1)) by nia.
  assert (HLV : L <= L * (lat - 1)) by nia.
  unfold south_cap. rewrite Hl1.
  destruct (Z_lt_ge_dec (L * (lat - 1) + 1) (2 ^ 32)) as [Hfit|Hbig].
  - (* no wrap: the exact indices *)
    assert (Hlast : uadd (umul L (lat - 1)) 1 = L * (lat - 1) + 1).
    { unfold uadd, umul. rewrite (wrap32_small (L * (lat - 1))) by lia.
      apply wrap32_small. lia. }
    rewrite Hlast. apply Forall_app; split.
    + apply Forall_fmap, list.Forall_forall. intros i Hi%seqZ_bounds.
      unfold below, usub, uadd; cbn.
      rewrite (wrap32_small (i + 1)) by lia.
      rewrite !wrap32_small by lia. lia.
    + repeat constructor; cbn; unfold usub; rewrite ?wrap32_small by lia; lia.
  - (* the pole index wrapped: every value is below 2^32 <= vertex count *)
    assert (Hany : forall z, 0 <= wrap32 z < 2 + L * (lat - 1)).
    { intros z. pose proof (wrap32_range z). lia. }
    apply Forall_app; split.
    + apply Forall_fmap, list.Forall_forall. intros i _.
      unfold below, usub, uadd; cbn. repeat split; apply Hany.
    + unfold usub, uadd. repeat constructor; cbn; apply Hany.
Qed.

Lemma triangles_below (L lat : Z) :
  uint L -> uint lat -> 3 <= L -> 2 <= lat ->
  Forall (below (2 + L * (lat - 1))) (triangles L lat).
Proof.
  intros. unfold triangles. rewrite !Forall_app.
  auto using north_cap_below, body_bands_below, south_cap_below.
Qed.

(** C5.  Every value of the index list generated for [longitudeCount >= 3]
    and [latitudeCount >= 2] is strictly below the vertex count
    [2 + longitudeCount * (latitudeCount - 1)]: north cap, every body band
    with its closing triangles, and south cap. *)
Theorem set_indices_in_bounds (L lat : Z) :
  uint L -> uint lat -> 3 <= L -> 2 <= lat ->
  Forall (fun i => 0 <= i < 2 + L * (lat - 1)) (set_indices L lat []).
Proof.
  intros HL Hlat H3 H2. rewrite set_indices_triangles. cbn [app].
  apply flat3_below, triangles_below; assumption.
Qed.

Lemma set_indices_in_bounds_witness :
  Forall (fun i => 0 <= i < 2 + 4 * (3 - 1)) (set_indices 4 3 []).
Proof.
  apply set_indices_in_bounds; unfold uint; lia.
Defined.

(** ** Where each triangle sits in the index list *)

Lemma lookup_bind_blocks {A B : Type} (f : A -> list B) (k : nat) (l : list A)
    (i j : nat) (x : A) :
  (forall y, length (f y) = k) -> l !! i = Some x -> (j < k)%nat ->
  (l ≫= f) !! (i * k + j)%nat = f x !! j.
Proof.
  intros Hk. revert i. induction l as [|y l IH]; intros i Hi Hj; [discriminate|].
  cbn [mbind list_bind]. change (foldr _ _ ?l) with (l ≫= f).
  destruct i as [|i]; cbn in Hi.
  - injection Hi as ->. apply lookup_app_l. rewrite Hk. lia.
  - rewrite lookup_app_r by (rewrite Hk; lia).
    rewrite Hk. replace (S i * k + j - k)%nat with (i * k + j)%nat by lia.
    apply IH; assumption.
Qed.

Lemma length_north_cap (L : Z) : 1 <= L -> length (north_cap L) = Z.to_nat L.
Proof.
  intros H. unfold north_cap. rewrite length_app, length_fmap, length_seqZ. cbn. lia.
Qed.

Lemma length_bind_blocks {A B : Type} (f : A -> list B) (k : nat) (l : list A) :
  (forall y, length (f y) = k) -> length (l ≫= f) = (length l * k)%nat.
Proof.
  intros Hk. induction l as [|y l IH]; [reflexivity|].
  cbn [mbind list_bind]. change (foldr _ _ ?l) with (l ≫= f).
  rewrite length_app, Hk, IH. cbn. lia.
Qed.

Lemma length_band (L i_lat : Z) : 1 <= L -> length (band L i_lat) = (2 * Z.to_nat L)%nat.
Proof.
  intros H. unfold band. rewrite length_app.
  rewrite (length_bind_blocks _ 2) by reflexivity.
  rewrite length_seqZ. cbn. lia.
Qed.

Lemma length_body_bands (L lat : Z) :
  1 <= L -> length (body_bands L lat) = (Z.to_nat (usub lat 2) * (2 * Z.to_nat L))%nat.
Proof.
  intros H. unfold body_bands.
  rewrite (length_bind_blocks _ (2 * Z.to_nat L)) by (intros; apply length_band; lia).
  rewrite length_seqZ. reflexivity.
Qed.

Lemma length_south_cap (L lat : Z) : 1 <= L -> length (south_cap L lat) = Z.to_nat L.
Proof.
  intros H. unfold south_cap. rewrite length_app, length_fmap, length_seqZ. cbn. lia.
Qed.

Lemma length_flat3 (ts : list triangle) : length (flat3 ts) = (3 * length ts)%nat.
Proof.
  unfold flat3. rewrite (length_bind_blocks _ 3) by reflexivity. lia.
Qed.

(** The [m]-th triangle of band [i_lat] is triangle [L + 2 L i_lat + m] of
    the whole list. *)
Lemma lookup_triangles_band (L lat i_lat : Z) (m : nat) :
  1 <= L -> 0 <= i_lat < usub lat 2 -> (m < 2 * Z.to_nat L)%nat ->
  triangles L lat !! (Z.to_nat (L + 2 * L * i_lat) + m)%nat = band L i_lat !! m.
Proof.
  intros HL Hi Hm. unfold triangles.
  assert (Hpos : Z.to_nat (L + 2 * L * i_lat)
                 = (Z.to_nat L + Z.to_nat i_lat * (2 * Z.to_nat L))%nat).
  { rewrite Z2Nat.inj_add, !Z2Nat.inj_mul by nia.
    change (Z.to_nat 2) with 2%nat. lia. }
  rewrite Hpos.
  rewrite lookup_app_r by (rewrite length_north_cap; lia).
  rewrite length_north_cap by lia.
  replace (Z.to_nat L + Z.to_nat i_lat * (2 * Z.to_nat L) + m - Z.to_nat L)%nat
    with (Z.to_nat i_lat * (2 * Z.to_nat L) + m)%nat by lia.
  rewrite lookup_app_l.
  2:{ rewrite length_body_bands by lia.
      assert (Hn : (S (Z.to_nat i_lat) <= Z.to_nat (usub lat 2))%nat) by lia.
      apply (Nat.mul_le_mono_r _ _ (2 * Z.to_nat L)) in Hn. lia. }
  unfold body_bands.
  apply lookup_bind_blocks.
  - intros. apply length_band. lia.
  - rewrite lookup_seqZ_lt by lia. f_equal. lia.
  - exact Hm.
Qed.

Lemma lookup_band_quad (L i_lat i_lon : Z) (c : nat) :
  1 <= i_lon < L -> (c < 2)%nat ->
  band L i_lat !! (Z.to_nat (2 * (i_lon - 1)) + c)%nat = quad L i_lat i_lon !! c.
Proof.
  intros Hi Hc. unfold band.
  rewrite lookup_app_l.
  2:{ rewrite (length_bind_blocks _ 2) by reflexivity. rewrite length_seqZ. lia. }
  replace (Z.to_nat (2 * (i_lon - 1)) + c)%nat with (Z.to_nat (i_lon - 1) * 2 + c)%nat by lia.
  apply lookup_bind_blocks; [reflexivity| |exact Hc].
  rewrite lookup_seqZ_lt by lia. f_equal. lia.
Qed.

Lemma lookup_band_closing (L i_lat : Z) (c : nat) :
  1 <= L ->
  band L i_lat !! (Z.to_nat (2 * (L - 1)) + c)%nat = closing_quad L i_lat !! c.
Proof.
  intros HL. unfold band.
  rewrite lookup_app_r.
  2:{ rewrite (length_bind_blocks _ 2) by reflexivity. rewrite length_seqZ. lia. }
  rewrite (length_bind_blocks _ 2) by reflexivity. rewrite length_seqZ.
  f_equal. lia.
Qed.

(** ** The quads of a body band *)

Example triangles_3_3 :
  triples (set_indices 3 3 []) =
    [ (0, 2, 1); (0, 3, 2); (0, 1, 3);
      (1, 2, 4); (2, 5, 4); (2, 3, 5); (3, 6, 5); (1, 4, 3); (3, 4, 6);
      (7, 5, 6); (7, 4, 5); (7, 6, 4) ].
Proof. vm_compute. reflexivity. Qed.

Example set_indices_4_2 :
  set_indices 4 2 [] =
    [ 0; 2; 1; 0; 3; 2; 0; 4; 3; 0; 1; 4;
      5; 3; 4; 5; 2; 3; 5; 1; 2; 5; 4; 1 ].
Proof. vm_compute. reflexivity. Qed.

(** C7, as stated, fails on the wraparound quad.  For 3 longitudes and 3
    latitudes the only body band is emitted as below; the specification's
    splitting puts [(3, 1, 6)] and [(1, 4, 6)] on the wraparound quad, the
    code emits [(1, 4, 3)] and [(3, 4, 6)]: the other diagonal.  No triangle
    of the specified splitting is on the vertices 1, 4, 3. *)
Lemma closing_quad_other_diagonal :
  band_of 3 (set_indices 3 3 []) 0
    = [(1, 2, 4); (2, 5, 4); (2, 3, 5); (3, 6, 5); (1, 4, 3); (3, 4, 6)]
  /\ spec_band 3 0
    = [(1, 2, 4); (2, 5, 4); (2, 3, 5); (3, 6, 5); (3, 1, 6); (1, 4, 6)]
  /\ band_of 3 (set_indices 3 3 []) 0 <> spec_band 3 0
  /\ (1, 4, 3) ∈ band_of 3 (set_indices 3 3 []) 0
  /\ forallb (fun t => negb (same_vertices (1, 4, 3) t)) (spec_band 3 0) = true.
Proof.
  assert (Hb : band_of 3 (set_indices 3 3 []) 0
    = [(1, 2, 4); (2, 5, 4); (2, 3, 5); (3, 6, 5); (1, 4, 3); (3, 4, 6)])
    by (vm_compute; reflexivity).
  assert (Hs : spec_band 3 0
    = [(1, 2, 4); (2, 5, 4); (2, 3, 5); (3, 6, 5); (3, 1, 6); (1, 4, 6)])
    by (vm_compute; reflexivity).
  rewrite Hb, Hs.
  split; [reflexivity|]. split; [reflexivity|]. split; [discriminate|].
  split; [|vm_compute; reflexivity].
  do 4 right. left.
Qed.

(** C7, amended.  In band [i_lat], the quad with upper corners
    [p0] (longitude [i_lon - 1]) and [p1 = p0 + 1] and lower corners [p2],
    [p3 = p2 + 1] below them is split into [(p0, p1, p2)] and
    [(p1, p3, p2)], for every quad but the wraparound one.  The wraparound
    quad has upper corners [q0] (last vertex of the ring) and [q1] (first
    vertex of the ring) and lower corners [q2], [q3] below them; it is split
    into [(q1, q3, q0)] and [(q0, q3, q2)], along the diagonal [q0]-[q3].
    Index arithmetic is the code's, on 32 bits. *)
Theorem band_quads (L lat i_lat : Z) :
  uint L -> uint lat -> 3 <= L -> 2 <= lat -> 0 <= i_lat < lat - 2 ->
  let ts := triples (set_indices L lat []) in
  let at_ (n : Z) := ts !! Z.to_nat n in
  let first := L + 2 * L * i_lat in
  (forall i_lon, 1 <= i_lon < L ->
     let p0 := uadd i_lon (umul i_lat L) in
     let p1 := uadd p0 1 in
     let p2 := uadd (uadd i_lon L) (umul i_lat L) in
     let p3 := uadd p2 1 in
     at_ (first + 2 * (i_lon - 1)) = Some (p0, p1, p2) /\
     at_ (first + 2 * (i_lon - 1) + 1) = Some (p1, p3, p2))
  /\
  (let q0 := uadd L (umul i_lat L) in
   let q1 := uadd 1 (umul i_lat L) in
   let q2 := uadd q0 L in
   let q3 := uadd q1 L in
   at_ (first + 2 * (L - 1)) = Some (q1, q3, q0) /\
   at_ (first + 2 * (L - 1) + 1) = Some (q0, q3, q2)).
Proof.
  intros HL Hlat H3 H2 Hi ts at_ first. unfold uint in *.
  assert (Hts : ts = triangles L lat).
  { unfold ts. rewrite set_indices_triangles. apply triples_flat3. }
  assert (Hb : usub lat 2 = lat - 2) by (apply wrap32_small; lia).
  assert (Hat : forall m : nat, (m < 2 * Z.to_nat L)%nat ->
            at_ (first + Z.of_nat m) = band L i_lat !! m).
  { intros m Hm. unfold at_, first. rewrite Hts.
    rewrite Z2Nat.inj_add, Nat2Z.id by nia.
    apply lookup_triangles_band; lia. }
  split.
  - intros i_lon Hj. cbv zeta.
    replace (first + 2 * (i_lon - 1) + 1)
      with (first + Z.of_nat (Z.to_nat (2 * (i_lon - 1)) + 1)) by lia.
    replace (first + 2 * (i_lon - 1))
      with (first + Z.of_nat (Z.to_nat (2 * (i_lon - 1)) + 0)) at 1 by lia.
    rewrite !Hat by lia. rewrite !lookup_band_quad by lia. split; reflexivity.
  - cbv zeta.
    replace (first + 2 * (L - 1) + 1)
      with (first + Z.of_nat (Z.to_nat (2 * (L - 1)) + 1)) by lia.
    replace (first + 2 * (L - 1))
      with (first + Z.of_nat (Z.to_nat (2 * (L - 1)) + 0)) at 1 by lia.
    rewrite !Hat by lia. rewrite !lookup_band_closing by lia. split; reflexivity.
Qed.

Lemma band_quads_witness :
  let ts := triples (set_indices 4 3 []) in
  let at_ (n : Z) := ts !! Z.to_nat n in
  let first := 4 + 2 * 4 * 0 in
  (forall i_lon, 1 <= i_lon < 4 ->
     let p0 := uadd i_lon (umul 0 4) in
     let p1 := uadd p0 1 in
     let p2 := uadd (uadd i_lon 4) (umul 0 4) in
     let p3 := uadd p2 1 in
     at_ (first + 2 * (i_lon - 1)) = Some (p0, p1, p2) /\
     at_ (first + 2 * (i_lon - 1) + 1) = Some (p1, p3, p2))
  /\
  (let q0 := uadd 4 (umul 0 4) in
   let q1 := uadd 1 (umul 0 4) in
   let q2 := uadd q0 4 in
   let q3 := uadd q1 4 in
   at_ (first + 2 * (4 - 1)) = Some (q1, q3, q0) /\
   at_ (first + 2 * (4 - 1) + 1) = Some (q0, q3, q2)).
Proof.
  apply (band_quads 4 3 0); unfold uint; lia.
Defined.

(** ** How many triangles reference a vertex *)

Lemma references_app (v : Z) (a b : list triangle) :
  references v (a ++ b) = references v a + references v b.
Proof.
  unfold references. induction a as [|t a IH]; cbn [foldr app]; [reflexivity|].
  rewrite IH. lia.
Qed.

Lemma references_bind (v : Z) (f : Z -> list triangle) (l : list Z) :
  references v (l ≫= f) = sumZ (fun i => references v (f i)) l.
Proof.
  induction l as [|i l IH]; [reflexivity|].
  cbn [mbind list_bind]. change (foldr _ _ ?l) with (l ≫= f).
  rewrite references_app, IH. reflexivity.
Qed.

Lemma references_fmap (v : Z) (f : Z -> triangle) (l : list Z) :
  references v (f <$> l) = sumZ (fun i => ind (has_vertex v (f i))) l.
Proof.
  unfold references, sumZ. induction l as [|i l IH]; [reflexivity|].
  cbn [fmap list_fmap foldr]. rewrite <- IH. reflexivity.
Qed.

Lemma sumZ_ext (g h : Z -> Z) (l : list Z) :
  (forall i, i ∈ l -> g i = h i) -> sumZ g l = sumZ h l.
Proof.
  unfold sumZ. induction l as [|i l IH]; intros H; [reflexivity|]. cbn [foldr].
  rewrite (H i) by left. rewrite IH; [reflexivity|].
  intros j Hj. apply H. right. exact Hj.
Qed.

Lemma sumZ_add (g h : Z -> Z) (l : list Z) :
  sumZ (fun i => g i + h i) l = sumZ g l + sumZ h l.
Proof.
  unfold sumZ. induction l as [|i l IH]; [reflexivity|]. cbn [foldr].
  rewrite IH. lia.
Qed.

Lemma sumZ_scale (c : Z) (g : Z -> Z) (l : list Z) :
  sumZ (fun i => c * g i) l = c * sumZ g l.
Proof.
  unfold sumZ. induction l as [|i l IH]; cbn [foldr]; [lia|]. rewrite IH. lia.
Qed.

Lemma sumZ_zero (l : list Z) : sumZ (fun _ => 0) l = 0.
Proof. unfold sumZ. induction l as [|i l IH]; cbn [foldr]; [reflexivity|]. lia. Qed.

(** Case analysis on every integer comparison left in the goal. *)
Ltac cases_Z :=
  unfold ind, has_vertex; cbn [fst snd];
  repeat (match goal with
          | |- context [?a =? ?b] => destruct (Z.eqb_spec a b)
          | |- context [?a <=? ?b] => destruct (Z.leb_spec a b)
          | |- context [?a <? ?b] => destruct (Z.ltb_spec a b)
          end; try lia);
  cbn [orb andb]; try lia.

(** The sum, over a range, of the indicator of one point. *)
Lemma sumZ_point (c lo n : Z) :
  sumZ (fun i => ind (i =? c)) (seqZ lo n) = ind ((lo <=? c) && (c <? lo + n)).
Proof.
  destruct (Z_le_gt_dec n 0) as [Hn|Hn].
  - rewrite seqZ_nil by lia. unfold sumZ. cbn [foldr]. cases_Z.
  - rewrite <- (Z2Nat.id n) by lia. generalize (Z.to_nat n) as k. clear n Hn.
    intros k. revert lo. unfold sumZ. induction k as [|k IH]; intros lo.
    + rewrite seqZ_nil by lia. cbn [foldr]. cases_Z.
    + rewrite Nat2Z.inj_succ, seqZ_cons by lia. cbn [foldr].
      replace (Z.pred (Z.succ (Z.of_nat k))) with (Z.of_nat k) by lia.
      rewrite IH. cases_Z.
Qed.

(** Remove the wrap-around of an operation whose exact result fits. *)
Ltac unwrap :=
  unfold uadd, usub, umul;
  repeat match goal with
    | |- context [wrap32 ?x] =>
        lazymatch x with
        | context [wrap32 _] => fail
        | _ => rewrite (wrap32_small x) by lia
        end
    end.

Section Counting.
Variables L lat : Z.
Hypothesis HL : uint L.
Hypothesis Hlat : uint lat.
Hypothesis H3 : 3 <= L.
Hypothesis H2 : 2 <= lat.
(** The index of the south pole fits in 32 bits. *)
Hypothesis Hfit : L * (lat - 1) + 1 < 2 ^ 32.

(** The ring vertex under study: ring [k] (1 is next to the north pole),
    place [j] in the ring. *)
Variables k j : Z.
Hypothesis Hk : 1 <= k <= lat - 1.
Hypothesis Hj : 0 <= j < L.

Lemma references_north_cap :
  references (1 + (k - 1) * L + j) (north_cap L) = if k =? 1 then 2 else 0.
Proof using HL H3 H2 Hfit Hk Hj.
  unfold uint in *. unfold north_cap.
  rewrite references_app, references_fmap.
  assert (Hkl : 0 <= (k - 1) * L) by nia.
  destruct (Z.eqb_spec k 1) as [->|Hk1].
  - rewrite (sumZ_ext _ (fun i => ind (i =? j) + ind (i =? j + 1))).
    2:{ intros i Hi%seqZ_bounds. unwrap. cases_Z. }
    rewrite sumZ_add, !sumZ_point. unfold references. cbn [foldr]. cases_Z.
  - assert (L <= (k - 1) * L) by nia.
    rewrite (sumZ_ext _ (fun _ => 0)).
    2:{ intros i Hi%seqZ_bounds. unwrap. cases_Z. }
    rewrite sumZ_zero. unfold references. cbn [foldr]. cases_Z.
Qed.

Lemma references_south_cap :
  references (1 + (k - 1) * L + j) (south_cap L lat) = if k =? lat - 1 then 2 else 0.
Proof using HL Hlat H3 H2 Hfit Hk Hj.
  unfold uint in *. unfold south_cap.
  assert (HV : L <= L * (lat - 1)) by nia.
  assert (Hlast : uadd (umul L (usub lat 1)) 1 = L * (lat - 1) + 1) by (unwrap; reflexivity).
  rewrite Hlast.
  rewrite references_app, references_fmap.
  destruct (Z.eqb_spec k (lat - 1)) as [->|Hk1].
  - rewrite (sumZ_ext _ (fun i => ind (i =? L - j - 1) + ind (i =? L - j))).
    2:{ intros i Hi%seqZ_bounds. unwrap. cases_Z. }
    rewrite sumZ_add, !sumZ_point. unfold references. cbn [foldr]. unwrap. cases_Z.
  - assert ((k - 1) * L + L <= (lat - 2) * L) by nia.
    rewrite (sumZ_ext _ (fun _ => 0)).
    2:{ intros i Hi%seqZ_bounds. unwrap. cases_Z. }
    rewrite sumZ_zero. unfold references. cbn [foldr]. unwrap. cases_Z.
Qed.

Lemma references_band (b : Z) :
  0 <= b < lat - 2 ->
  references (1 + (k - 1) * L + j) (band L b)
  = ind (b =? k - 1) * upper_references L j + ind (b =? k - 2) * lower_references L j.
Proof using HL Hlat H3 H2 Hfit Hk Hj.
  intros Hb. unfold uint in *. unfold band.
  assert (Hbl : 0 <= b * L <= (lat - 3) * L) by nia.
  rewrite references_app, references_bind.
  destruct (Z.eqb_spec b (k - 1)) as [Hup|Hup]; [|destruct (Z.eqb_spec b (k - 2)) as [Hlo|Hlo]].
  - (* the vertex is in the upper ring of the band *)
    assert (Hkl : (k - 1) * L = b * L) by (f_equal; lia).
    rewrite (sumZ_ext _ (fun i => ind (i =? j + 1) + 2 * ind (i =? j))).
    2:{ intros i Hi%seqZ_bounds. unfold quad, references. cbn [foldr]. unwrap. cases_Z. }
    rewrite sumZ_add, sumZ_scale, !sumZ_point.
    unfold closing_quad, references, upper_references. cbn [foldr]. unwrap. cases_Z.
  - (* the vertex is in the lower ring of the band *)
    assert (Hkl : (k - 1) * L = b * L + L) by (subst b; ring).
    rewrite (sumZ_ext _ (fun i => 2 * ind (i =? j + 1) + ind (i =? j))).
    2:{ intros i Hi%seqZ_bounds. unfold quad, references. cbn [foldr]. unwrap. cases_Z. }
    rewrite sumZ_add, sumZ_scale, !sumZ_point.
    unfold closing_quad, references, lower_references. cbn [foldr]. unwrap. cases_Z.
  - (* the vertex is in neither ring *)
    assert (Hfar : (k - 1) * L + L <= b * L \/ (b + 2) * L <= (k - 1) * L) by nia.
    rewrite (sumZ_ext _ (fun _ => 0)).
    2:{ intros i Hi%seqZ_bounds. unfold quad, references. cbn [foldr]. unwrap. cases_Z. }
    rewrite sumZ_zero.
    unfold closing_quad, references. cbn [foldr]. unwrap. cases_Z.
Qed.

Lemma references_body_bands :
  references (1 + (k - 1) * L + j) (body_bands L lat)
  = ind (k <=? lat - 2) * upper_references L j + ind (2 <=? k) * lower_references L j.
Proof using HL Hlat H3 H2 Hfit Hk Hj.
  unfold body_bands. unfold uint in *.
  assert (Hb : usub lat 2 = lat - 2) by (unwrap; reflexivity).
  rewrite Hb, references_bind.
  rewrite (sumZ_ext _ (fun b => upper_references L j * ind (b =? k - 1)
                                + lower_references L j * ind (b =? k - 2))).
  2:{ intros b Hbb%seqZ_bounds. rewrite references_band by lia. lia. }
  rewrite sumZ_add, !sumZ_scale, !sumZ_point.
  generalize (upper_references L j) (lower_references L j). intros U D. cases_Z.
Qed.
End Counting.

(** C8, as stated, fails: with 3 longitudes and 3 latitudes both rings are
    next to a cap, and vertex 2 (ring 1, second place) is referenced by 5
    triangles, neither 4 nor 6. *)
Lemma five_references :
  references 2 (triples (set_indices 3 3 [])) = 5.
Proof. vm_compute. reflexivity. Qed.

(** C8, amended.  When the vertex indices fit in 32 bits, the vertex at
    place [j] of ring [k] is referenced by
    - 4 triangles when there is a single ring ([latitudeCount = 2]: the ring
      is next to both caps);
    - otherwise, in the ring next to the north cap, 5 triangles, but 4 for
      the first vertex of the ring and 6 for the last one;
    - in the ring next to the south cap, 5 triangles, but 6 for the first
      vertex of the ring and 4 for the last one;
    - 6 triangles in every other ring. *)
Theorem ring_vertex_references (L lat k j : Z) :
  uint L -> uint lat -> 3 <= L -> 2 <= lat ->
  L * (lat - 1) + 1 < 2 ^ 32 ->
  1 <= k <= lat - 1 -> 0 <= j < L ->
  references (1 + (k - 1) * L + j) (triples (set_indices L lat []))
  = if lat =? 2 then 4
    else if k =? 1 then (if j =? 0 then 4 else if j =? L - 1 then 6 else 5)
    else if k =? lat - 1 then (if j =? 0 then 6 else if j =? L - 1 then 4 else 5)
    else 6.
Proof.
  intros HL Hlat H3 H2 Hfit Hk Hj.
  rewrite set_indices_triangles. cbn [app]. rewrite triples_flat3.
  unfold triangles. rewrite !references_app.
  rewrite (references_north_cap L lat), (references_body_bands L lat),
    (references_south_cap L lat) by assumption.
  unfold upper_references, lower_references. cases_Z.
Qed.

Lemma ring_vertex_references_witness :
  references (1 + (2 - 1) * 4 + 3) (triples (set_indices 4 4 []))
  = if 4 =? 2 then 4
    else if 2 =? 1 then (if 3 =? 0 then 4 else if 3 =? 4 - 1 then 6 else 5)
    else if 2 =? 4 - 1 then (if 3 =? 0 then 6 else if 3 =? 4 - 1 then 4 else 5)
    else 6.
Proof.
  apply (ring_vertex_references 4 4 2 3); unfold uint; lia.
Defined.

(** * The vertex buffer *)

(** ** Vector access lemmas *)

Section Vec.
Context {A : Type}.
Implicit Types (v : list A) (i : Z) (x : A).

Lemma vec_set_Some v i x :
  0 <= i < Z.of_nat (length v) -> vec_set v i x = Some (<[Z.to_nat i := x]> v).
Proof.
  intros Hi. unfold vec_set.
  destruct (Z.leb_spec 0 i), (Z.ltb_spec i (Z.of_nat (length v))); cbn; (reflexivity || lia).
Qed.

Lemma vec_set_inv v i x v' :
  vec_set v i x = Some v' ->
  0 <= i < Z.of_nat (length v) /\ v' = <[Z.to_nat i := x]> v.
Proof.
  unfold vec_set.
  destruct (Z.leb_spec 0 i), (Z.ltb_spec i (Z.of_nat (length v))); cbn;
    intros Heq; inversion Heq. split; [lia | reflexivity].
Qed.

Lemma vec_get_insert_eq v i x :
  0 <= i < Z.of_nat (length v) -> vec_get (<[Z.to_nat i := x]> v) i = Some x.
Proof.
  intros Hi. unfold vec_get. rewrite length_insert.
  destruct (Z.leb_spec 0 i), (Z.ltb_spec i (Z.of_nat (length v))); cbn; try lia.
  apply list_lookup_insert_eq. lia.
Qed.

Lemma vec_get_insert_ne v i m x :
  0 <= i -> i <> m -> vec_get (<[Z.to_nat i := x]> v) m = vec_get v m.
Proof.
  intros Hi Hne. unfold vec_get. rewrite length_insert.
  destruct (Z.leb_spec 0 m), (Z.ltb_spec m (Z.of_nat (length v))); cbn; try reflexivity.
  apply list_lookup_insert_ne. lia.
Qed.

Lemma vec_get_replicate (n : nat) x i :
  0 <= i < Z.of_nat n -> vec_get (replicate n x) i = Some x.
Proof.
  intros Hi. unfold vec_get. rewrite length_replicate.
  destruct (Z.leb_spec 0 i), (Z.ltb_spec i (Z.of_nat n)); cbn; try lia.
  apply lookup_replicate_2. lia.
Qed.

(** Three stores inside the vector succeed; they keep its size, hold the
    stored values and leave every other slot as it was. *)
Lemma vec_set3_Some v (i0 i1 i2 : Z) (p : A * A * A) :
  0 <= i0 < Z.of_nat (length v) ->
  0 <= i1 < Z.of_nat (length v) ->
  0 <= i2 < Z.of_nat (length v) ->
  i0 <> i1 -> i0 <> i2 -> i1 <> i2 ->
  exists v',
    vec_set3 v i0 i1 i2 p = Some v' /\
    length v' = length v /\
    vec_get3 v' i0 i1 i2 = Some p /\
    (forall m, m <> i0 -> m <> i1 -> m <> i2 -> vec_get v' m = vec_get v m).
Proof.
  intros H0 H1 H2 H01 H02 H12. destruct p as [[x y] z].
  exists (<[Z.to_nat i2 := z]> (<[Z.to_nat i1 := y]> (<[Z.to_nat i0 := x]> v))).
  unfold vec_set3, vec_get3. cbn [fst snd].
  rewrite vec_set_Some by lia. cbn [mbind option_bind].
  rewrite vec_set_Some by (rewrite length_insert; lia). cbn [mbind option_bind].
  rewrite vec_set_Some by (rewrite !length_insert; lia).
  split; [reflexivity|]. split; [rewrite !length_insert; reflexivity|]. split.
  - rewrite (vec_get_insert_ne _ i2 i0), (vec_get_insert_ne _ i1 i0) by lia.
    rewrite (vec_get_insert_eq v i0) by lia. cbn [mbind option_bind].
    rewrite (vec_get_insert_ne _ i2 i1) by lia.
    rewrite (vec_get_insert_eq _ i1) by (rewrite length_insert; lia).
    cbn [mbind option_bind].
    rewrite (vec_get_insert_eq _ i2) by (rewrite !length_insert; lia). reflexivity.
  - intros m Hm0 Hm1 Hm2. rewrite !vec_get_insert_ne by lia. reflexivity.
Qed.

(** Three stores that succeed were inside the vector. *)
Lemma vec_set3_inv v (i0 i1 i2 : Z) (p : A * A * A) v' :
  vec_set3 v i0 i1 i2 p = Some v' ->
  0 <= i0 < Z.of_nat (length v) /\
  0 <= i1 < Z.of_nat (length v) /\
  0 <= i2 < Z.of_nat (length v) /\
  length v' = length v.
Proof.
  unfold vec_set3. intros Hs.
  destruct (vec_set v i0 p.1.1) as [v0|] eqn:E0; [|discriminate].
  cbn [mbind option_bind] in Hs.
  destruct (vec_set v0 i1 p.1.2) as [v1|] eqn:E1; [|discriminate].
  cbn [mbind option_bind] in Hs.
  apply vec_set_inv in E0 as [H0 ->], E1 as [H1 ->], Hs as [H2 ->].
  rewrite !length_insert in *. auto.
Qed.

Lemma vec_get3_other v v' (i0 i1 i2 j0 j1 j2 : Z) :
  (forall m, m <> i0 -> m <> i1 -> m <> i2 -> vec_get v' m = vec_get v m) ->
  (j0 <> i0 /\ j0 <> i1 /\ j0 <> i2) ->
  (j1 <> i0 /\ j1 <> i1 /\ j1 <> i2) ->
  (j2 <> i0 /\ j2 <> i1 /\ j2 <> i2) ->
  vec_get3 v' j0 j1 j2 = vec_get3 v j0 j1 j2.
Proof.
  intros Hoth (?&?&?) (?&?&?) (?&?&?). unfold vec_get3.
  rewrite !Hoth by assumption. reflexivity.
Qed.

Lemma vec_get3_inv v (i0 i1 i2 : Z) (p : A * A * A) :
  vec_get3 v i0 i1 i2 = Some p ->
  vec_get v i0 = Some p.1.1 /\ vec_get v i1 = Some p.1.2 /\ vec_get v i2 = Some p.2.
Proof.
  unfold vec_get3. intros Hg.
  destruct (vec_get v i0) as [x|]; [|discriminate]. cbn [mbind option_bind] in Hg.
  destruct (vec_get v i1) as [y|]; [|discriminate]. cbn [mbind option_bind] in Hg.
  destruct (vec_get v i2) as [z|]; [|discriminate]. cbn [mbind option_bind] in Hg.
  injection Hg as <-. auto.
Qed.
End Vec.

(** ** Loops that may fail *)

(** Total correctness: an invariant the body keeps, without failing. *)
Lemma for_rangeM_total {S : Type} (P : Z -> S -> Prop) (lo hi : Z)
    (body : Z -> S -> option S) (s : S) :
  lo <= hi -> P lo s ->
  (forall i s, lo <= i < hi -> P i s -> exists s', body i s = Some s' /\ P (i + 1) s') ->
  exists s', for_rangeM lo hi body s = Some s' /\ P hi s'.
Proof.
  intros Hle H0 Hstep. unfold for_rangeM.
  remember (Z.to_nat (hi - lo)) as n eqn:Hn.
  revert lo s Hle H0 Hstep Hn. induction n as [|n IH]; intros lo s Hle H0 Hstep Hn.
  - exists s. split; [reflexivity|]. replace hi with lo by lia. exact H0.
  - cbn [for_iterM].
    destruct (Hstep lo s) as (s1 & Hb & H1); [lia|exact H0|].
    rewrite Hb. apply IH; [lia|exact H1| |lia].
    intros i s2 Hi. apply Hstep. lia.
Qed.

(** Partial correctness: what holds of the result when the loop succeeds. *)
Lemma for_rangeM_partial {S : Type} (P : Z -> S -> Prop) (lo hi : Z)
    (body : Z -> S -> option S) (s s' : S) :
  lo <= hi -> P lo s ->
  (forall i s s', lo <= i < hi -> P i s -> body i s = Some s' -> P (i + 1) s') ->
  for_rangeM lo hi body s = Some s' -> P hi s'.
Proof.
  intros Hle H0 Hstep. unfold for_rangeM.
  remember (Z.to_nat (hi - lo)) as n eqn:Hn.
  revert lo s Hle H0 Hstep Hn. induction n as [|n IH]; intros lo s Hle H0 Hstep Hn Hrun.
  - cbn in Hrun. injection Hrun as <-. replace hi with lo by lia. exact H0.
  - cbn [for_iterM] in Hrun.
    destruct (body lo s) as [s1|] eqn:Hb; [|discriminate].
    apply (IH (lo + 1) s1); [lia| | |lia|exact Hrun].
    + apply (Hstep lo s); [lia|exact H0|exact Hb].
    + intros i s2 s3 Hi. apply Hstep. lia.
Qed.

Lemma for_rangeM_empty {S : Type} (lo hi : Z) (body : Z -> S -> option S) (s : S) :
  hi <= lo -> for_rangeM lo hi body s = Some s.
Proof.
  intros Hle. unfold for_rangeM. replace (Z.to_nat (hi - lo)) with O by lia. reflexivity.
Qed.

(** ** The vertex buffer the constructor builds *)

Lemma ring_index_decode (L k j : Z) :
  0 <= j < L ->
  (1 + (k - 1) * L + j - 1) / L + 1 = k /\ (1 + (k - 1) * L + j - 1) mod L = j.
Proof.
  intros Hj. replace (1 + (k - 1) * L + j - 1) with (j + (k - 1) * L) by lia.
  split.
  - rewrite Z.div_add by lia. rewrite Z.div_small by lia. lia.
  - rewrite Z.mod_add by lia. apply Z.mod_small. lia.
Qed.

Lemma ring_index_range (L lat k j : Z) :
  1 <= k <= lat - 1 -> 0 <= j < L ->
  1 <= 1 + (k - 1) * L + j <= vertex_count L lat - 2.
Proof. intros Hk Hj. unfold vertex_count. nia. Qed.

Section Construction.
Context {F : Type} `{FloatOps F}.
Variables (radius : F) (L lat : Z).

Local Abbreviation V := (vertex_count L lat).

Lemma vertex_position_ring (k j : Z) :
  1 <= k <= lat - 1 -> 0 <= j < L ->
  vertex_position radius L lat (1 + (k - 1) * L + j) = ring_position radius L lat k j.
Proof.
  intros Hk Hj. pose proof (ring_index_range L lat k j Hk Hj) as Hr.
  destruct (ring_index_decode L k j Hj) as [Hd Hm].
  unfold vertex_position.
  destruct (Z.eqb_spec (1 + (k - 1) * L + j) 0); [lia|].
  destruct (Z.eqb_spec (1 + (k - 1) * L + j) (vertex_count L lat - 1)); [lia|].
  rewrite Hd, Hm. reflexivity.
Qed.

Hypothesis HL : uint L.
Hypothesis Hlat : uint lat.
Hypothesis H1 : 1 <= lat.
Hypothesis Hfit : fits L lat.

Lemma vertex_count_ge : 2 <= V.
Proof using HL H1. unfold vertex_count, uint in *. nia. Qed.

Lemma n_vertexes_exact :
  uadd (uadd 1 (umul L (usub lat 1))) 1 = V.
Proof using HL Hlat H1 Hfit.
  pose proof vertex_count_ge as HV. unfold fits, vertex_count, m_n_coords, uint in *.
  unwrap. lia.
Qed.

Lemma buffer_size_exact : umul m_n_coords V = 6 * V.
Proof using HL H1 Hfit.
  pose proof vertex_count_ge as HV. unfold fits, m_n_coords in *. unwrap. reflexivity.
Qed.

Lemma store_vertex (n : Z) (p : F * F * F) (i_coord : Z) (v : list F) :
  0 <= n < V -> stored radius L lat n (i_coord, v) ->
  vertex_position radius L lat n = p ->
  exists v',
    vec_set3 v i_coord (uadd i_coord 1) (uadd i_coord 2) p = Some v' /\
    stored radius L lat (n + 1) (uadd i_coord m_n_coords, v').
Proof using HL H1 Hfit.
  intros Hn (Hi & Hlen & Hpos) Hp. cbn [fst snd] in *. subst i_coord.
  pose proof vertex_count_ge as HV.
  unfold fits, m_n_coords in *.
  assert (E1 : uadd (6 * n) 1 = 6 * n + 1) by (unwrap; reflexivity).
  assert (E2 : uadd (6 * n) 2 = 6 * n + 2) by (unwrap; reflexivity).
  assert (E6 : uadd (6 * n) 6 = 6 * (n + 1)) by (unwrap; lia).
  rewrite E1, E2, E6.
  destruct (vec_set3_Some v (6 * n) (6 * n + 1) (6 * n + 2) p)
    as (v' & Hset & Hlen' & Hget & Hoth); try lia.
  exists v'. split; [exact Hset|]. split; [reflexivity|]. cbn [fst snd].
  split; [lia|]. intros m Hm.
  destruct (Z.eq_dec m n) as [->|Hne].
  - unfold position_at. rewrite Hget, Hp. reflexivity.
  - unfold position_at.
    rewrite (vec_get3_other v v' (6 * n) (6 * n + 1) (6 * n + 2)) by (exact Hoth || lia).
    apply Hpos. lia.
Qed.

(** [set_vertexes] on a buffer of [6 * V] floats succeeds and stores the
    position of every vertex at floats 0..2 of its record. *)
Lemma set_vertexes_stores (v0 : list F) :
  Z.of_nat (length v0) = 6 * V ->
  exists v1,
    set_vertexes radius L lat v0 = Some v1 /\
    Z.of_nat (length v1) = 6 * V /\
    forall n, 0 <= n < V ->
      position_at v1 n = Some (vertex_position radius L lat n).
Proof using HL Hlat H1 Hfit.
  intros Hlen. pose proof vertex_count_ge as HV. unfold uint in *.
  assert (HLV : 0 <= L * (lat - 1)) by nia.
  unfold set_vertexes.
  (* north pole *)
  destruct (store_vertex 0 (f_zero, radius, f_zero) 0 v0) as (va & Hva & Ha);
    [lia | split; [reflexivity | split; [exact Hlen | intros; lia]] | reflexivity |].
  change (uadd 0 1) with 1 in Hva. change (uadd 0 2) with 2 in Hva.
  change (uadd 0 m_n_coords) with m_n_coords in Ha. change (0 + 1) with 1 in Ha.
  rewrite Hva. cbn [mbind option_bind].
  (* rings *)
  destruct (for_rangeM_total
              (fun i_lat st => stored radius L lat (1 + (i_lat - 1) * L) st) 1 lat
              (fun i_lat st =>
                 for_rangeM 0 L
                   (fun i_lon st =>
                      let '(i_coord, v) := st in
                      v ← vec_set3 v i_coord (uadd i_coord 1) (uadd i_coord 2)
                            (ring_position radius L lat i_lat i_lon);
                      Some (uadd i_coord m_n_coords, v)) st)
              (m_n_coords, va)) as (st & Hst & Hrings).
  { lia. }
  { replace (1 + (1 - 1) * L) with 1 by lia. exact Ha. }
  { intros i_lat st Hi Hin.
    destruct (for_rangeM_total
                (fun i_lon st => stored radius L lat (1 + (i_lat - 1) * L + i_lon) st) 0 L
                (fun i_lon st =>
                   let '(i_coord, v) := st in
                   v ← vec_set3 v i_coord (uadd i_coord 1) (uadd i_coord 2)
                         (ring_position radius L lat i_lat i_lon);
                   Some (uadd i_coord m_n_coords, v)) st) as (st' & Hst' & Hring).
    - lia.
    - replace (1 + (i_lat - 1) * L + 0) with (1 + (i_lat - 1) * L) by lia. exact Hin.
    - intros i_lon [i_coord v] Hj Hs.
      pose proof (ring_index_range L lat i_lat i_lon ltac:(lia) Hj) as Hr.
      destruct (store_vertex (1 + (i_lat - 1) * L + i_lon)
                  (ring_position radius L lat i_lat i_lon) i_coord v)
        as (v' & Hv' & Hs'); [lia | exact Hs | apply vertex_position_ring; lia |].
      rewrite Hv'. cbn [mbind option_bind]. eexists. split; [reflexivity|].
      replace (1 + (i_lat - 1) * L + (i_lon + 1))
        with (1 + (i_lat - 1) * L + i_lon + 1) by lia. exact Hs'.
    - exists st'. split; [exact Hst'|].
      replace (1 + (i_lat + 1 - 1) * L) with (1 + (i_lat - 1) * L + L) by lia.
      exact Hring. }
  rewrite Hst. cbn [mbind option_bind]. destruct st as [i_coord v].
  (* south pole *)
  assert (Hlastn : 1 + (lat - 1) * L = V - 1) by (unfold vertex_count; lia).
  rewrite Hlastn in Hrings.
  destruct (store_vertex (V - 1) (f_zero, f_opp radius, f_zero) i_coord v)
    as (v1 & Hv1 & Hs1); [lia | exact Hrings | |].
  { unfold vertex_position.
    destruct (Z.eqb_spec (V - 1) 0); [lia|]. rewrite Z.eqb_refl. reflexivity. }
  exists v1. split; [exact Hv1|]. destruct Hs1 as (_ & Hl1 & Hp1). cbn [fst snd] in *.
  split; [exact Hl1|]. intros n Hn. apply Hp1. lia.
Qed.

Lemma set_normals_stores (v1 : list F) :
  Z.of_nat (length v1) = 6 * V ->
  (forall n, 0 <= n < V ->
     position_at v1 n = Some (vertex_position radius L lat n)) ->
  exists v2,
    set_normals V v1 = Some v2 /\ normals_stored radius L lat V v2.
Proof using HL H1 Hfit.
  intros Hlen Hpos. pose proof vertex_count_ge as HV.
  unfold fits, m_n_coords in Hfit.
  unfold set_normals. apply for_rangeM_total.
  - lia.
  - split; [exact Hlen|]. split; [exact Hpos|]. intros n Hn. lia.
  - intros i v Hi (Hl & Hp & Hn). unfold m_n_coords.
    rewrite (wrap32_small (6 * i)) by lia.
    assert (E1 : uadd (6 * i) 1 = 6 * i + 1) by (unwrap; reflexivity).
    assert (E2 : uadd (6 * i) 2 = 6 * i + 2) by (unwrap; reflexivity).
    assert (E3 : uadd (6 * i) 3 = 6 * i + 3) by (unwrap; reflexivity).
    assert (E4 : uadd (6 * i) 4 = 6 * i + 4) by (unwrap; reflexivity).
    assert (E5 : uadd (6 * i) 5 = 6 * i + 5) by (unwrap; reflexivity).
    rewrite E1, E2, E3, E4, E5.
    change (vec_get3 v (6 * i) (6 * i + 1) (6 * i + 2)) with (position_at v i).
    rewrite Hp by lia. cbn [mbind option_bind].
    destruct (vec_set3_Some v (6 * i + 3) (6 * i + 4) (6 * i + 5)
                (normalize (vertex_position radius L lat i)))
      as (v' & Hset & Hlen' & Hget & Hoth); try lia.
    exists v'. split; [exact Hset|]. split; [lia|]. split.
    + intros n Hn'. unfold position_at.
      rewrite (vec_get3_other v v' (6 * i + 3) (6 * i + 4) (6 * i + 5))
        by (exact Hoth || lia).
      apply Hp. exact Hn'.
    + intros n Hn'. destruct (Z.eq_dec n i) as [->|Hne].
      * exact Hget.
      * unfold normal_at.
        rewrite (vec_get3_other v v' (6 * i + 3) (6 * i + 4) (6 * i + 5))
          by (exact Hoth || lia).
        apply Hn. lia.
Qed.

(** When the buffer fits, the constructor performs every access inside the
    buffer and builds the mesh. *)
Lemma Sphere_new_total : exists s, Sphere_new radius L lat = Some s /\ built radius L lat s.
Proof using HL Hlat H1 Hfit.
  pose proof vertex_count_ge as HV.
  unfold Sphere_new. rewrite n_vertexes_exact, buffer_size_exact.
  unfold Sphere_set_vertexes. cbn [m_radius m_n_longitudes m_n_latitudes m_vertexes].
  destruct (set_vertexes_stores (replicate (Z.to_nat (6 * V)) f_zero))
    as (v1 & Hv1 & Hl1 & Hp1).
  { rewrite length_replicate. lia. }
  rewrite Hv1. cbn [mbind option_bind].
  unfold Sphere_set_normals, Sphere_set_indices.
  cbn [m_radius m_n_longitudes m_n_latitudes m_vertexes m_n_vertexes m_indices].
  destruct (set_normals_stores v1 Hl1 Hp1) as (v2 & Hv2 & Hl2 & Hp2 & Hn2).
  rewrite Hv2. cbn [mbind option_bind]. eexists. split; [reflexivity|].
  unfold built. cbn [m_radius m_n_longitudes m_n_latitudes m_vertexes m_n_vertexes m_indices].
  repeat split; try reflexivity; assumption.
Qed.
End Construction.

(** ** When the size computation wraps

    The constructor sizes the buffer with 32-bit arithmetic.  If it
    completes, no access left the buffer, and this forces the size to fit. *)

Section Overrun.
Context {F : Type} `{FloatOps F}.
Variables (radius : F) (L lat : Z).
Hypothesis HL : uint L.
Hypothesis Hlat : uint lat.
Hypothesis H1 : 1 <= lat.

Lemma buffer_size_wrapped :
  umul m_n_coords (uadd (uadd 1 (umul L (usub lat 1))) 1)
  = wrap32 (6 * vertex_count L lat).
Proof using HL Hlat H1.
  unfold uint in *. unfold usub. rewrite (wrap32_small (lat - 1)) by lia.
  unfold umul, uadd, wrap32, m_n_coords, vertex_count.
  rewrite Z.add_mod_idemp_r, Z.add_mod_idemp_l, Z.mul_mod_idemp_r by lia.
  f_equal. lia.
Qed.

Lemma wrap32_even (x : Z) : wrap32 (6 * x) <= 2 ^ 32 - 2.
Proof.
  unfold wrap32. replace (6 * x) with (2 * (3 * x)) by lia.
  change (2 ^ 32) with (2 * 2 ^ 31). rewrite Z.mul_mod_distr_l by lia.
  pose proof (Z.mod_pos_bound (3 * x) (2 ^ 31) ltac:(lia)). lia.
Qed.

Lemma store_sound (S n i_coord : Z) (v v' : list F) (p : F * F * F) :
  S <= 2 ^ 32 - 2 -> sound S n (i_coord, v) ->
  vec_set3 v i_coord (uadd i_coord 1) (uadd i_coord 2) p = Some v' ->
  sound S (n + 1) (uadd i_coord m_n_coords, v') /\ 6 * n + 2 < S.
Proof.
  intros HS (Hi & Hlen & Hn0 & Hn) Hset. cbn [fst snd] in *. subst i_coord.
  apply vec_set3_inv in Hset as (_ & _ & H2 & Hlen').
  assert (E2 : uadd (6 * n) 2 = 6 * n + 2) by (unwrap; reflexivity).
  rewrite E2 in H2. unfold m_n_coords.
  assert (E6 : uadd (6 * n) 6 = 6 * (n + 1)) by (unwrap; lia).
  rewrite E6. unfold sound. cbn [fst snd]. repeat split; lia.
Qed.

Lemma set_vertexes_inv (S : Z) (v0 v1 : list F) :
  S <= 2 ^ 32 - 2 -> Z.of_nat (length v0) = S ->
  set_vertexes radius L lat v0 = Some v1 ->
  6 * (vertex_count L lat - 1) + 2 < S /\ 6 * (vertex_count L lat - 1) <= 2 ^ 32 - 4.
Proof using HL Hlat H1.
  intros HS Hlen Hrun. unfold uint in *. unfold set_vertexes in Hrun.
  destruct (vec_set3 v0 0 1 2 (f_zero, radius, f_zero)) as [va|] eqn:Hva; [|discriminate].
  cbn [mbind option_bind] in Hrun.
  change 1 with (uadd 0 1) in Hva at 1. change 2 with (uadd 0 2) in Hva at 1.
  apply (store_sound S 0) in Hva as [Ha _];
    [|lia|unfold sound; cbn [fst snd]; repeat split; lia].
  change (uadd 0 m_n_coords) with m_n_coords in Ha.
  match type of Hrun with
  | context [for_rangeM 1 lat ?body ?st] =>
      destruct (for_rangeM 1 lat body st) as [[i_coord v]|] eqn:Hloop; [|discriminate]
  end.
  cbn [mbind option_bind] in Hrun.
  apply (for_rangeM_partial (fun i_lat st => sound S (1 + (i_lat - 1) * L) st)) in Hloop.
  - apply (store_sound S (1 + (lat - 1) * L)) in Hrun as [_ Hlast]; [| lia | exact Hloop].
    destruct Hloop as (_ & _ & _ & Hn). cbn [fst snd] in *.
    unfold vertex_count.
    replace (2 + L * (lat - 1) - 1) with (1 + (lat - 1) * L) by lia. lia.
  - lia.
  - replace (1 + (1 - 1) * L) with (0 + 1) by lia. exact Ha.
  - intros i_lat st st' Hi Hin Hinner.
    apply (for_rangeM_partial
             (fun i_lon st => sound S (1 + (i_lat - 1) * L + i_lon) st)) in Hinner.
    + replace (1 + (i_lat + 1 - 1) * L) with (1 + (i_lat - 1) * L + L) by lia.
      exact Hinner.
    + lia.
    + replace (1 + (i_lat - 1) * L + 0) with (1 + (i_lat - 1) * L) by lia. exact Hin.
    + intros i_lon [ic w] st2 Hj Hs Hbody.
      destruct (vec_set3 w ic (uadd ic 1) (uadd ic 2)
                  (ring_position radius L lat i_lat i_lon)) as [w'|] eqn:Hw;
        [|discriminate].
      cbn [mbind option_bind] in Hbody. injection Hbody as <-.
      apply (store_sound S (1 + (i_lat - 1) * L + i_lon)) in Hw as [Hw _];
        [| lia | exact Hs].
      replace (1 + (i_lat - 1) * L + (i_lon + 1))
        with (1 + (i_lat - 1) * L + i_lon + 1) by lia. exact Hw.
Qed.

(** A constructor that completes had a buffer that fits. *)
Lemma Sphere_new_fits (s : Sphere F) :
  Sphere_new radius L lat = Some s -> fits L lat.
Proof using HL Hlat H1.
  unfold Sphere_new, Sphere_set_vertexes.
  cbn [m_radius m_n_longitudes m_n_latitudes m_vertexes].
  rewrite buffer_size_wrapped. intros Hrun.
  match type of Hrun with
  | context [set_vertexes radius L lat ?v0] =>
      destruct (set_vertexes radius L lat v0) as [v1|] eqn:Hv; [|discriminate]
  end.
  pose proof (wrap32_even (vertex_count L lat)) as Heven.
  pose proof (wrap32_range (6 * vertex_count L lat)) as Hrange.
  apply (set_vertexes_inv (wrap32 (6 * vertex_count L lat))) in Hv as [Hlast Hn].
  - unfold fits, m_n_coords. unfold wrap32 in *.
    pose proof (Z_div_mod_eq_full (6 * vertex_count L lat) (2 ^ 32)) as Hdm.
    assert (Hq : 0 <= 6 * vertex_count L lat / 2 ^ 32).
    { apply Z.div_pos; unfold vertex_count, uint in *; nia. }
    lia.
  - exact Heven.
  - rewrite length_replicate. lia.
Qed.

(** Every mesh the constructor returns is the mesh [built] describes. *)
Lemma Sphere_new_built (s : Sphere F) :
  Sphere_new radius L lat = Some s -> built radius L lat s.
Proof using HL Hlat H1.
  intros Hs. pose proof (Sphere_new_fits s Hs) as Hfit.
  destruct (Sphere_new_total radius L lat HL Hlat H1 Hfit) as (s' & Hs' & Hb).
  rewrite Hs in Hs'. injection Hs' as <-. exact Hb.
Qed.
End Overrun.

(** A buffer size that does not fit makes the constructor overrun. *)
Lemma Sphere_new_overrun {F : Type} `{FloatOps F} (radius : F) (L lat : Z) :
  uint L -> uint lat -> 1 <= lat ->
  2 ^ 32 <= 6 * (2 + L * (lat - 1)) ->
  Sphere_new radius L lat = None.
Proof.
  intros HL Hlat H1 Hbig.
  destruct (Sphere_new radius L lat) as [s|] eqn:Hs; [|reflexivity].
  apply (Sphere_new_fits radius L lat HL Hlat H1) in Hs.
  unfold fits, vertex_count, m_n_coords in Hs. lia.
Qed.

(** ** The binary32 instance computes *)

Example lon_step_4 :
  f_lon_step (FloatOps := binary32_ops (fun x => x) (fun x => x)) 4
  = S754_finite false 13176795 (-23).
Proof. vm_compute. reflexivity. Qed.

(** * Counts, layout and bounds *)

Lemma trip_count_for_range {S : Type} (lo hi : Z) (body : Z -> S -> S) (s : S) :
  for_range lo hi body s = for_iter (Z.to_nat (trip_count lo hi)) lo body s.
Proof. unfold for_range, trip_count. f_equal. lia. Qed.

Lemma length_triangles (L lat : Z) :
  1 <= L ->
  Z.of_nat (length (triangles L lat)) = L + usub lat 2 * (2 * L) + L.
Proof.
  intros HL. pose proof (wrap32_range (lat - 2)) as Hr. fold (usub lat 2) in Hr.
  unfold triangles.
  rewrite !length_app, length_north_cap, length_body_bands, length_south_cap by lia.
  rewrite !Nat2Z.inj_add, !Nat2Z.inj_mul, !Z2Nat.id by lia.
  change (Z.of_nat 2) with 2. lia.
Qed.

Lemma length_set_indices (L lat : Z) :
  1 <= L ->
  Z.of_nat (length (set_indices L lat [])) = 3 * (L + usub lat 2 * (2 * L) + L).
Proof.
  intros HL. rewrite set_indices_triangles. cbn [app].
  rewrite length_flat3, Nat2Z.inj_mul, length_triangles by lia.
  change (Z.of_nat 3) with 3. reflexivity.
Qed.

(** C1, as stated, fails: the vertex count is computed on 32 bits.  For 4
    longitudes and [2^30 + 1] latitudes the count [2 + 4 * 2^30] wraps to 2:
    [m_n_vertexes] is 2, the buffer is sized for 12 floats, and the
    construction overruns it. *)
Lemma vertex_count_wraps :
  uint 4 /\ uint 1073741825 /\ 3 <= 4 /\ 2 <= 1073741825 /\
  2 + 4 * (1073741825 - 1) = 4294967298 /\
  uadd (uadd 1 (umul 4 (usub 1073741825 1))) 1 = 2 /\
  umul m_n_coords (uadd (uadd 1 (umul 4 (usub 1073741825 1))) 1) = 12 /\
  Sphere_new 1%R 4 1073741825 = None.
Proof.
  assert (HL : uint 4) by (unfold uint; lia).
  assert (Hlat : uint 1073741825) by (unfold uint; lia).
  repeat (split; [first [assumption | lia | vm_compute; reflexivity]|]).
  destruct (Sphere_new 1%R 4 1073741825) as [s|] eqn:Hs; [|reflexivity].
  apply (Sphere_new_fits 1%R 4 1073741825 HL Hlat ltac:(lia)) in Hs.
  unfold fits, vertex_count, m_n_coords in Hs. lia.
Qed.

(** C1, amended.  For [longitudeCount >= 3] and [latitudeCount >= 2] whose
    buffer size [6 * (2 + longitudeCount * (latitudeCount - 1))] is below
    [2^32], whatever the radius, the constructor returns a mesh with exactly
    [2 + longitudeCount * (latitudeCount - 1)] vertices, its buffer holding
    6 floats per vertex; the index list has exactly
    [6 * longitudeCount * (latitudeCount - 1)] entries, a multiple of 3; and
    [get_n_elements] returns that count. *)
Theorem sphere_counts {F : Type} `{FloatOps F} (radius : F) (L lat : Z) :
  uint L -> uint lat -> 3 <= L -> 2 <= lat ->
  6 * (2 + L * (lat - 1)) < 2 ^ 32 ->
  exists s,
    Sphere_new radius L lat = Some s /\
    m_n_vertexes s = 2 + L * (lat - 1) /\
    Z.of_nat (length (get_vertexes s)) = 6 * (2 + L * (lat - 1)) /\
    Z.of_nat (length (m_indices s)) = 6 * L * (lat - 1) /\
    (6 * L * (lat - 1)) mod 3 = 0 /\
    get_n_elements s = 6 * L * (lat - 1).
Proof.
  intros HL Hlat H3 H2 Hfit.
  destruct (Sphere_new_total radius L lat HL Hlat ltac:(lia) Hfit)
    as (s & Hs & _ & _ & _ & Hnv & Hidx & Hlen & _).
  exists s. split; [exact Hs|].
  unfold fits, vertex_count, m_n_coords, uint in *.
  assert (Hb : usub lat 2 = lat - 2) by (apply wrap32_small; lia).
  assert (Hcount : Z.of_nat (length (m_indices s)) = 6 * L * (lat - 1)).
  { rewrite Hidx, length_set_indices, Hb by lia. lia. }
  split; [exact Hnv|]. split; [exact Hlen|]. split; [exact Hcount|]. split.
  - replace (6 * L * (lat - 1)) with (2 * L * (lat - 1) * 3) by lia.
    apply Z.mod_mul. lia.
  - unfold get_n_elements. rewrite Hcount. apply wrap32_small. nia.
Qed.

Lemma sphere_counts_witness :
  exists s : Sphere R,
    Sphere_new 1%R 4 2 = Some s /\
    m_n_vertexes s = 2 + 4 * (2 - 1) /\
    Z.of_nat (length (get_vertexes s)) = 6 * (2 + 4 * (2 - 1)) /\
    Z.of_nat (length (m_indices s)) = 6 * 4 * (2 - 1) /\
    (6 * 4 * (2 - 1)) mod 3 = 0 /\
    get_n_elements s = 6 * 4 * (2 - 1).
Proof.
  apply (sphere_counts 1%R 4 2); unfold uint; lia.
Defined.

Example counts_4_2 :
  (fun s : Sphere R => (m_n_vertexes s, length (m_vertexes s), get_n_elements s))
    <$> Sphere_new 1%R 4 2
  = Some (6, 36%nat, 24).
Proof. reflexivity. Qed.

(** C2, as stated, fails: the layout needs a buffer that holds it.  For
    1024 longitudes and [2^22 + 1] latitudes the buffer is sized for 12
    floats, so the ring vertex [k = 1], [j = 1], of index 2, has no place in
    it, and the construction overruns the buffer. *)
Lemma ring_vertex_outside_buffer :
  uint 1024 /\ uint 4194305 /\ 3 <= 1024 /\ 2 <= 4194305 /\
  umul m_n_coords (uadd (uadd 1 (umul 1024 (usub 4194305 1))) 1) = 12 /\
  1 + (1 - 1) * 1024 + 1 = 2 /\
  position_at (replicate (Z.to_nat 12) 0%R) 2 = None /\
  Sphere_new 1%R 1024 4194305 = None.
Proof.
  assert (HL : uint 1024) by (unfold uint; lia).
  assert (Hlat : uint 4194305) by (unfold uint; lia).
  repeat (split; [first [assumption | lia | vm_compute; reflexivity]|]).
  destruct (Sphere_new 1%R 1024 4194305) as [s|] eqn:Hs; [|reflexivity].
  apply (Sphere_new_fits 1%R 1024 4194305 HL Hlat ltac:(lia)) in Hs.
  unfold fits, vertex_count, m_n_coords in Hs. lia.
Qed.

(** C2, amended.  For [longitudeCount >= 3] and [latitudeCount >= 2] whose
    buffer size [6 * (2 + longitudeCount * (latitudeCount - 1))] is below
    [2^32], the constructor returns a mesh in which vertex 0 is the north
    pole; ring [k] ([k = 1 .. latitudeCount - 1], polar angle
    [phi = k * lat_step]) follows ring [k - 1], and in it the vertex of
    azimuth [theta = j * lon_step] ([j = 0 .. longitudeCount - 1]) is vertex
    [1 + (k - 1) * longitudeCount + j], at
    [(radius * cos theta * sin phi, radius * cos phi, radius * sin theta * sin phi)];
    the south pole is the last vertex. *)
Theorem vertex_layout {F : Type} `{FloatOps F} (radius : F) (L lat : Z) :
  uint L -> uint lat -> 3 <= L -> 2 <= lat ->
  6 * (2 + L * (lat - 1)) < 2 ^ 32 ->
  exists s,
    Sphere_new radius L lat = Some s /\
    Z.of_nat (length (m_vertexes s)) = 6 * (2 + L * (lat - 1)) /\
    position_at (m_vertexes s) 0 = Some (f_zero, radius, f_zero) /\
    (forall k j, 1 <= k <= lat - 1 -> 0 <= j < L ->
       let phi := f_mul (f_of_size_t k) (f_lat_step lat) in
       let theta := f_mul (f_of_size_t j) (f_lon_step L) in
       position_at (m_vertexes s) (1 + (k - 1) * L + j)
       = Some (f_mul (f_mul radius (f_cos theta)) (f_sin phi),
               f_mul radius (f_cos phi),
               f_mul (f_mul radius (f_sin theta)) (f_sin phi))) /\
    position_at (m_vertexes s) (1 + L * (lat - 1)) = Some (f_zero, f_opp radius, f_zero).
Proof.
  intros HL Hlat H3 H2 Hfit.
  destruct (Sphere_new_total radius L lat HL Hlat ltac:(lia) Hfit)
    as (s & Hs & _ & _ & _ & _ & _ & Hlen & Hpos & _).
  exists s. split; [exact Hs|].
  assert (HV : 2 <= vertex_count L lat) by (unfold vertex_count, uint in *; nia).
  split; [exact Hlen|]. split; [|split].
  - rewrite Hpos by lia. reflexivity.
  - intros k j Hk Hj phi theta.
    pose proof (ring_index_range L lat k j Hk Hj) as Hr.
    rewrite Hpos by lia. rewrite vertex_position_ring by assumption. reflexivity.
  - rewrite Hpos by (unfold vertex_count in *; lia).
    unfold vertex_position, vertex_count.
    destruct (Z.eqb_spec (1 + L * (lat - 1)) 0); [unfold uint in *; nia|].
    destruct (Z.eqb_spec (1 + L * (lat - 1)) (2 + L * (lat - 1) - 1)); [reflexivity|lia].
Qed.

Lemma vertex_layout_witness :
  exists s : Sphere R,
    Sphere_new 2%R 4 3 = Some s /\
    Z.of_nat (length (m_vertexes s)) = 6 * (2 + 4 * (3 - 1)) /\
    position_at (m_vertexes s) 0 = Some (f_zero, 2%R, f_zero) /\
    (forall k j, 1 <= k <= 3 - 1 -> 0 <= j < 4 ->
       let phi := f_mul (f_of_size_t k) (f_lat_step 3) in
       let theta := f_mul (f_of_size_t j) (f_lon_step 4) in
       position_at (m_vertexes s) (1 + (k - 1) * 4 + j)
       = Some (f_mul (f_mul 2%R (f_cos theta)) (f_sin phi),
               f_mul 2%R (f_cos phi),
               f_mul (f_mul 2%R (f_sin theta)) (f_sin phi))) /\
    position_at (m_vertexes s) (1 + 4 * (3 - 1)) = Some (f_zero, f_opp 2%R, f_zero).
Proof.
  apply (vertex_layout 2%R 4 3); unfold uint; lia.
Defined.

(** C9, as stated, fails: the size of the buffer is computed on 32 bits.
    For 65536 longitudes and 65537 latitudes the vertex count
    [2 + 65536 * 65536] wraps to 2, the buffer has 12 floats, and
    [set_vertexes] stores the second ring vertex outside it. *)
Lemma construction_overruns :
  uint 65536 /\ uint 65537 /\ 3 <= 65536 /\ 2 <= 65537 /\
  uadd (uadd 1 (umul 65536 (usub 65537 1))) 1 = 2 /\
  umul m_n_coords (uadd (uadd 1 (umul 65536 (usub 65537 1))) 1) = 12 /\
  Sphere_new 1%R 65536 65537 = None.
Proof.
  assert (HL : uint 65536) by (unfold uint; lia).
  assert (Hlat : uint 65537) by (unfold uint; lia).
  repeat (split; [first [assumption | lia | vm_compute; reflexivity]|]).
  destruct (Sphere_new 1%R 65536 65537) as [s|] eqn:Hs; [|reflexivity].
  apply (Sphere_new_fits 1%R 65536 65537 HL Hlat ltac:(lia)) in Hs.
  unfold fits, vertex_count, m_n_coords in Hs. lia.
Qed.

(** C9, amended.  Under [longitudeCount >= 3] and [latitudeCount >= 2],
    every read and write of the construction is inside the buffer exactly
    when the buffer size [6 * (2 + longitudeCount * (latitudeCount - 1))]
    is below [2^32]; the buffer then has that many floats. *)
Theorem construction_in_bounds {F : Type} `{FloatOps F} (radius : F) (L lat : Z) :
  uint L -> uint lat -> 3 <= L -> 2 <= lat ->
  (6 * (2 + L * (lat - 1)) < 2 ^ 32 ->
   exists s, Sphere_new radius L lat = Some s /\
             Z.of_nat (length (m_vertexes s)) = 6 * (2 + L * (lat - 1))) /\
  (forall s, Sphere_new radius L lat = Some s -> 6 * (2 + L * (lat - 1)) < 2 ^ 32).
Proof.
  intros HL Hlat H3 H2. split.
  - intros Hfit.
    destruct (Sphere_new_total radius L lat HL Hlat ltac:(lia) Hfit) as (s & Hs & Hb).
    exists s. split; [exact Hs|]. apply Hb.
  - intros s Hs. apply (Sphere_new_fits radius L lat HL Hlat ltac:(lia) s Hs).
Qed.

Lemma construction_in_bounds_witness :
  (6 * (2 + 4 * (3 - 1)) < 2 ^ 32 ->
   exists s : Sphere R, Sphere_new 1%R 4 3 = Some s /\
             Z.of_nat (length (m_vertexes s)) = 6 * (2 + 4 * (3 - 1))) /\
  (forall s : Sphere R, Sphere_new 1%R 4 3 = Some s -> 6 * (2 + 4 * (3 - 1)) < 2 ^ 32).
Proof.
  apply (construction_in_bounds 1%R 4 3); unfold uint; lia.
Defined.

(** * Normals *)

(** Unfold the interface at an instance. *)
Ltac float_ops :=
  cbn [f_zero f_one f_opp f_add f_mul f_div f_sqrt f_cos f_sin f_of_size_t
       f_lon_step f_lat_step real_ops binary32_ops fst snd].

(** ** In exact arithmetic *)

Lemma real_cos2_sin2 (x : R) : (cos x * cos x + sin x * sin x = 1)%R.
Proof. pose proof (sin2_cos2 x) as Hx. unfold Rsqr in Hx. lra. Qed.

(** Every vertex is at distance [radius] from the centre. *)
Lemma real_position_radius (radius : R) (L lat n : Z) :
  let p := vertex_position radius L lat n in
  dot p p = (radius * radius)%R.
Proof.
  unfold vertex_position.
  destruct (n =? 0); [|destruct (n =? vertex_count L lat - 1)];
    unfold dot, ring_position; float_ops; try ring.
  set (phi := (IZR ((n - 1) / L + 1) * (PI / IZR lat))%R).
  set (theta := (IZR ((n - 1) mod L) * (2 * PI / IZR L))%R).
  pose proof (real_cos2_sin2 phi) as Hphi. pose proof (real_cos2_sin2 theta) as Hth.
  transitivity (radius * radius *
                (sin phi * sin phi * (cos theta * cos theta + sin theta * sin theta)
                 + cos phi * cos phi))%R; [ring|].
  rewrite Hth. replace (sin phi * sin phi * 1 + cos phi * cos phi)%R with 1%R by lra.
  ring.
Qed.


Lemma real_pole_normals (radius : R) :
  (0 < radius)%R ->
  normalize (0, radius, 0)%R = (0, 1, 0)%R /\
  normalize (0, - radius, 0)%R = (0, -1, 0)%R.
Proof.
  intros Hr. unfold normalize, inversesqrt, dot. float_ops.
  replace (0 * 0 + radius * radius + 0 * 0)%R with (radius * radius)%R by ring.
  replace (0 * 0 + - radius * - radius + 0 * 0)%R with (radius * radius)%R by ring.
  rewrite sqrt_square by lra.
  split; repeat f_equal; field; lra.
Qed.

(** ** In binary32 *)

Lemma b32_normalize_eq (cosf sinf : binary32 -> binary32) v :
  normalize (H := binary32_ops cosf sinf) v = b32_normalize v.
Proof. reflexivity. Qed.

Example pole_normals_radius_1 :
  b32_normalize (b32_zero, b32_one, b32_zero) = (b32_zero, b32_one, b32_zero) /\
  b32_normalize (b32_zero, SFopp b32_one, b32_zero) = (b32_zero, SFopp b32_one, b32_zero).
Proof. split; vm_compute; reflexivity. Qed.

(** The pole normals are exact for the radii [2^e] whose square is a normal
    number. *)
Lemma b32_pole_normals_pow2 (e : Z) :
  -63 <= e <= 63 ->
  b32_normalize (b32_zero, b32_pow2 e, b32_zero) = (b32_zero, b32_one, b32_zero) /\
  b32_normalize (b32_zero, SFopp (b32_pow2 e), b32_zero)
  = (b32_zero, SFopp b32_one, b32_zero).
Proof.
  intros He.
  assert (Hall : Forall (fun e =>
            b32_normalize (b32_zero, b32_pow2 e, b32_zero) = (b32_zero, b32_one, b32_zero) /\
            b32_normalize (b32_zero, SFopp (b32_pow2 e), b32_zero)
            = (b32_zero, SFopp b32_one, b32_zero)) (seqZ (-63) 127)).
  { apply (bool_decide_unpack _). vm_compute. exact I. }
  rewrite list.Forall_forall in Hall. apply Hall. apply elem_of_seqZ. lia.
Qed.

(** ** The stored normals *)

Lemma built_vertex {F : Type} `{FloatOps F} (radius : F) (L lat : Z) (s : Sphere F) (n : Z) :
  built radius L lat s -> 0 <= n < vertex_count L lat ->
  position_at (m_vertexes s) n = Some (vertex_position radius L lat n) /\
  normal_at (m_vertexes s) n = Some (normalize (vertex_position radius L lat n)).
Proof.
  intros (_ & _ & _ & _ & _ & _ & Hpos & Hnor) Hn. split; [apply Hpos | apply Hnor]; exact Hn.
Qed.





(** C4, as stated, fails in the arithmetic of the code.  With the radius
    41 the north pole is at (0, 41, 0) and [1 / sqrt (41 * 41)] rounds to a
    binary32 number whose product with 41 rounds to [1 - 2^-24]: the normal
    stored for the north pole is not (0, 1, 0).  With the radius [2^100]
    the square of the radius overflows to infinity, [inversesqrt] returns 0
    and the stored normal is (0, 0, 0).  And with 8 longitudes and
    [2^29 + 1] latitudes the buffer size wraps and the construction
    overruns the buffer: no pole is stored. *)
Lemma north_normal_not_exact :
  SFltb b32_zero (b32_of_Z 41) = true /\
  SFltb b32_zero (b32_pow2 100) = true /\
  S754_finite false 16777215 (-24) <> b32_one /\
  forall cosf sinf : binary32 -> binary32,
  (exists s : Sphere binary32,
     Sphere_new (H := binary32_ops cosf sinf) (b32_of_Z 41) 3 2 = Some s /\
     position_at (m_vertexes s) 0 = Some (b32_zero, b32_of_Z 41, b32_zero) /\
     normal_at (m_vertexes s) 0
     = Some (b32_zero, S754_finite false 16777215 (-24), b32_zero)) /\
  (exists s : Sphere binary32,
     Sphere_new (H := binary32_ops cosf sinf) (b32_pow2 100) 3 2 = Some s /\
     position_at (m_vertexes s) 0 = Some (b32_zero, b32_pow2 100, b32_zero) /\
     normal_at (m_vertexes s) 0 = Some (b32_zero, b32_zero, b32_zero)) /\
  Sphere_new (H := binary32_ops cosf sinf) b32_one 8 536870913 = None.
Proof.
  split; [vm_compute; reflexivity|]. split; [vm_compute; reflexivity|].
  split; [vm_compute; discriminate|].
  intros cosf sinf. split; [|split].
  - destruct (Sphere_new_total (H := binary32_ops cosf sinf) (b32_of_Z 41) 3 2)
      as (s & Hs & Hb); try (unfold uint, fits, vertex_count, m_n_coords; lia).
    exists s. split; [exact Hs|].
    destruct (built_vertex _ _ _ _ 0 Hb) as [Hp Hn]; [unfold vertex_count; lia|].
    split; [exact Hp|]. rewrite Hn. f_equal.
  - destruct (Sphere_new_total (H := binary32_ops cosf sinf) (b32_pow2 100) 3 2)
      as (s & Hs & Hb); try (unfold uint, fits, vertex_count, m_n_coords; lia).
    exists s. split; [exact Hs|].
    destruct (built_vertex _ _ _ _ 0 Hb) as [Hp Hn]; [unfold vertex_count; lia|].
    split; [exact Hp|]. rewrite Hn. f_equal.
  - apply Sphere_new_overrun; unfold uint; lia.
Qed.

(** C4, amended.  For [longitudeCount >= 3] and [latitudeCount >= 2] whose
    buffer size [6 * (2 + longitudeCount * (latitudeCount - 1))] is below
    [2^32], the constructor returns a mesh in which vertex 0 has position
    [(0, radius, 0)] and the last vertex, of index
    [longitudeCount * (latitudeCount - 1) + 1], has position
    [(0, -radius, 0)]; their normals are [glm::normalize] of these
    positions.  These normals are exactly (0, 1, 0) and (0, -1, 0) in exact
    arithmetic for every radius above 0, and in binary32 for the radii
    [2^e], [-63 <= e <= 63] (1 is one of them). *)
Theorem pole_vertices :
  (forall (F : Type) (ops : FloatOps F) (radius : F) (L lat : Z),
     uint L -> uint lat -> 3 <= L -> 2 <= lat ->
     6 * (2 + L * (lat - 1)) < 2 ^ 32 ->
     exists s,
       Sphere_new radius L lat = Some s /\
       position_at (m_vertexes s) 0 = Some (f_zero, radius, f_zero) /\
       normal_at (m_vertexes s) 0 = Some (normalize (f_zero, radius, f_zero)) /\
       position_at (m_vertexes s) (L * (lat - 1) + 1) = Some (f_zero, f_opp radius, f_zero) /\
       normal_at (m_vertexes s) (L * (lat - 1) + 1)
       = Some (normalize (f_zero, f_opp radius, f_zero)))
  /\
  (forall radius : R, (0 < radius)%R ->
     normalize (0, radius, 0)%R = (0, 1, 0)%R /\
     normalize (0, - radius, 0)%R = (0, -1, 0)%R)
  /\
  (forall (cosf sinf : binary32 -> binary32) (e : Z), -63 <= e <= 63 ->
     normalize (H := binary32_ops cosf sinf) (b32_zero, b32_pow2 e, b32_zero)
     = (b32_zero, b32_one, b32_zero) /\
     normalize (H := binary32_ops cosf sinf) (b32_zero, SFopp (b32_pow2 e), b32_zero)
     = (b32_zero, SFopp b32_one, b32_zero)).
Proof.
  split; [|split].
  - intros F ops radius L lat HL Hlat H3 H2 Hfit.
    destruct (Sphere_new_total radius L lat HL Hlat ltac:(lia) Hfit) as (s & Hs & Hb).
    exists s. split; [exact Hs|].
    assert (HLV : 0 <= L * (lat - 1)) by (unfold uint in *; nia).
    destruct (built_vertex radius L lat s 0 Hb) as [Hp0 Hn0]; [unfold vertex_count; lia|].
    destruct (built_vertex radius L lat s (L * (lat - 1) + 1) Hb) as [Hp1 Hn1];
      [unfold vertex_count; lia|].
    assert (Hsouth : vertex_position radius L lat (L * (lat - 1) + 1)
                     = (f_zero, f_opp radius, f_zero)).
    { unfold vertex_position, vertex_count.
      destruct (Z.eqb_spec (L * (lat - 1) + 1) 0); [lia|].
      destruct (Z.eqb_spec (L * (lat - 1) + 1) (2 + L * (lat - 1) - 1)); [reflexivity|lia]. }
    rewrite Hsouth in Hp1, Hn1. auto.
  - exact real_pole_normals.
  - intros cosf sinf e He. rewrite !b32_normalize_eq. apply b32_pole_normals_pow2. exact He.
Qed.

Lemma pole_vertices_witness :
  exists s : Sphere R,
    Sphere_new 2%R 4 3 = Some s /\
    position_at (m_vertexes s) 0 = Some (f_zero, 2%R, f_zero) /\
    normal_at (m_vertexes s) 0 = Some (normalize (f_zero, 2%R, f_zero)) /\
    position_at (m_vertexes s) (4 * (3 - 1) + 1) = Some (f_zero, f_opp 2%R, f_zero) /\
    normal_at (m_vertexes s) (4 * (3 - 1) + 1)
    = Some (normalize (f_zero, f_opp 2%R, f_zero)).
Proof.
  apply (proj1 pole_vertices R real_ops 2%R 4 3); unfold uint; lia.
Defined.

(** * Winding, in exact arithmetic *)

Section Winding.
Local Open Scope R_scope.

Lemma ring_position_sph (radius : R) (L lat k j : Z) :
  ring_position radius L lat k j = sph radius (azimuth L j) (polar lat k).
Proof. reflexivity. Qed.

Ltac outward_by_product e :=
  unfold outward, sph, dot, cross, vsub; float_ops;
  match goal with |- 0 < ?lhs => replace lhs with e by ring end;
  repeat apply Rmult_lt_0_compat; assumption.

Lemma outward_north (r tb tc p : R) :
  0 < r -> 0 < sin p -> 0 < sin tb * cos tc - cos tb * sin tc ->
  outward (0, r, 0) (sph r tb p) (sph r tc p).
Proof.
  intros Hr Hp Ht.
  outward_by_product (r * r * r * sin p * sin p * (sin tb * cos tc - cos tb * sin tc)).
Qed.

Lemma outward_south (r tb tc p : R) :
  0 < r -> 0 < sin p -> 0 < sin tc * cos tb - cos tc * sin tb ->
  outward (0, - r, 0) (sph r tb p) (sph r tc p).
Proof.
  intros Hr Hp Ht.
  outward_by_product (r * r * r * sin p * sin p * (sin tc * cos tb - cos tc * sin tb)).
Qed.

Lemma outward_quad_upper (r t1 t2 p1 p2 : R) :
  0 < r -> 0 < sin p1 ->
  0 < sin t2 * cos t1 - cos t2 * sin t1 ->
  0 < sin p2 * cos p1 - cos p2 * sin p1 ->
  outward (sph r t1 p1) (sph r t2 p1) (sph r t1 p2).
Proof.
  intros Hr Hp Ht Hd.
  outward_by_product (r * r * r * sin p1 * (sin t2 * cos t1 - cos t2 * sin t1)
                      * (sin p2 * cos p1 - cos p2 * sin p1)).
Qed.

Lemma outward_quad_lower (r t1 t2 p1 p2 : R) :
  0 < r -> 0 < sin p2 ->
  0 < sin t2 * cos t1 - cos t2 * sin t1 ->
  0 < sin p2 * cos p1 - cos p2 * sin p1 ->
  outward (sph r t2 p1) (sph r t2 p2) (sph r t1 p2).
Proof.
  intros Hr Hp Ht Hd.
  outward_by_product (r * r * r * sin p2 * (sin t2 * cos t1 - cos t2 * sin t1)
                      * (sin p2 * cos p1 - cos p2 * sin p1)).
Qed.

Lemma outward_closing_upper (r ta tb p1 p2 : R) :
  0 < r -> 0 < sin p1 ->
  0 < sin ta * cos tb - cos ta * sin tb ->
  0 < sin p2 * cos p1 - cos p2 * sin p1 ->
  outward (sph r ta p1) (sph r ta p2) (sph r tb p1).
Proof.
  intros Hr Hp Ht Hd.
  outward_by_product (r * r * r * sin p1 * (sin ta * cos tb - cos ta * sin tb)
                      * (sin p2 * cos p1 - cos p2 * sin p1)).
Qed.

Lemma outward_closing_lower (r ta tb p1 p2 : R) :
  0 < r -> 0 < sin p2 ->
  0 < sin ta * cos tb - cos ta * sin tb ->
  0 < sin p2 * cos p1 - cos p2 * sin p1 ->
  outward (sph r tb p1) (sph r ta p2) (sph r tb p2).
Proof.
  intros Hr Hp Ht Hd.
  outward_by_product (r * r * r * sin p2 * (sin ta * cos tb - cos ta * sin tb)
                      * (sin p2 * cos p1 - cos p2 * sin p1)).
Qed.
End Winding.

Section Angles.
Local Open Scope R_scope.

Lemma sin_difference (x y : R) : sin x * cos y - cos x * sin y = sin (x - y).
Proof. rewrite sin_minus. reflexivity. Qed.

Lemma IZR_ge_3 (L : Z) : (3 <= L)%Z -> 3 <= IZR L.
Proof. intros HL. apply IZR_le in HL. exact HL. Qed.

Lemma azimuth_step_pos (L : Z) : (3 <= L)%Z -> 0 < sin (2 * PI / IZR L).
Proof.
  intros HL%IZR_ge_3. pose proof PI_RGT_0 as Hpi.
  assert (Hinv : 0 < / IZR L) by (apply Rinv_0_lt_compat; lra).
  apply sin_gt_0.
  - unfold Rdiv. apply Rmult_lt_0_compat; lra.
  - replace PI with (PI * IZR L * / IZR L) at 2 by (field; lra).
    unfold Rdiv. apply Rmult_lt_compat_r; [exact Hinv|]. nra.
Qed.

Lemma polar_step_pos (lat : Z) : (2 <= lat)%Z -> 0 < sin (PI / IZR lat).
Proof.
  intros Hlat. apply IZR_le in Hlat. pose proof PI_RGT_0 as Hpi.
  assert (Hinv : 0 < / IZR lat) by (apply Rinv_0_lt_compat; lra).
  apply sin_gt_0.
  - unfold Rdiv. apply Rmult_lt_0_compat; lra.
  - replace PI with (PI * IZR lat * / IZR lat) at 2 by (field; lra).
    unfold Rdiv. apply Rmult_lt_compat_r; [exact Hinv|]. nra.
Qed.

(** From an azimuth to the next one. *)
Lemma azimuth_next (L j j' : Z) :
  (3 <= L)%Z -> j' = (j + 1)%Z ->
  0 < sin (azimuth L j') * cos (azimuth L j) - cos (azimuth L j') * sin (azimuth L j).
Proof.
  intros HL ->. pose proof (IZR_ge_3 L HL) as HL'.
  rewrite sin_difference.
  replace (azimuth L (j + 1) - azimuth L j) with (2 * PI / IZR L).
  - apply azimuth_step_pos. exact HL.
  - unfold azimuth. rewrite plus_IZR. field. lra.
Qed.

(** From the last azimuth of a ring round to the first. *)
Lemma azimuth_wrap (L : Z) :
  (3 <= L)%Z ->
  0 < sin (azimuth L 0) * cos (azimuth L (L - 1))
      - cos (azimuth L 0) * sin (azimuth L (L - 1)).
Proof.
  intros HL. pose proof (IZR_ge_3 L HL) as HL'.
  rewrite sin_difference.
  replace (azimuth L 0 - azimuth L (L - 1)) with (2 * PI / IZR L - 2 * PI).
  - rewrite sin_minus, cos_2PI, sin_2PI.
    replace (sin (2 * PI / IZR L) * 1 - cos (2 * PI / IZR L) * 0)
      with (sin (2 * PI / IZR L)) by ring.
    apply azimuth_step_pos. exact HL.
  - unfold azimuth. rewrite minus_IZR. field. lra.
Qed.

Lemma polar_next (lat k k' : Z) :
  (2 <= lat)%Z -> k' = (k + 1)%Z ->
  0 < sin (polar lat k') * cos (polar lat k) - cos (polar lat k') * sin (polar lat k).
Proof.
  intros Hlat ->. pose proof (IZR_le _ _ Hlat) as Hlat'.
  rewrite sin_difference.
  replace (polar lat (k + 1) - polar lat k) with (PI / IZR lat).
  - apply polar_step_pos. exact Hlat.
  - unfold polar. rewrite plus_IZR. field. lra.
Qed.

(** Rings are strictly between the poles. *)
Lemma polar_sin_pos (lat k : Z) :
  (1 <= k <= lat - 1)%Z -> 0 < sin (polar lat k).
Proof.
  intros [Hk1 Hk2]. pose proof PI_RGT_0 as Hpi.
  apply IZR_le in Hk1. assert (Hlt : IZR k < IZR lat) by (apply IZR_lt; lia).
  assert (Hinv : 0 < / IZR lat) by (apply Rinv_0_lt_compat; lra).
  assert (Hstep : 0 < PI / IZR lat) by (unfold Rdiv; apply Rmult_lt_0_compat; lra).
  unfold polar. apply sin_gt_0.
  - apply Rmult_lt_0_compat; lra.
  - replace PI with (IZR lat * (PI / IZR lat)) at 2 by (field; lra).
    apply Rmult_lt_compat_r; assumption.
Qed.
End Angles.

(** ** Every triangle of the mesh faces outward *)

Section Outward.
Variables (radius : R) (L lat : Z) (s : Sphere R).
Hypothesis Hr : (0 < radius)%R.
Hypothesis HL : uint L.
Hypothesis Hlat : uint lat.
Hypothesis H3 : 3 <= L.
Hypothesis H2 : 2 <= lat.
Hypothesis Hfit : fits L lat.
Hypothesis Hbuilt : built radius L lat s.

Lemma position_north : position_at (m_vertexes s) 0 = Some (0, radius, 0)%R.
Proof using All.
  destruct (built_vertex radius L lat s 0 Hbuilt) as [Hp _];
    [unfold vertex_count, uint in *; nia | exact Hp].
Qed.

Lemma position_south :
  position_at (m_vertexes s) (L * (lat - 1) + 1) = Some (0, - radius, 0)%R.
Proof using All.
  assert (HLV : 0 <= L * (lat - 1)) by (unfold uint in *; nia).
  destruct (built_vertex radius L lat s (L * (lat - 1) + 1) Hbuilt) as [Hp _];
    [unfold vertex_count; lia|].
  rewrite Hp. unfold vertex_position, vertex_count.
  destruct (Z.eqb_spec (L * (lat - 1) + 1) 0); [lia|].
  destruct (Z.eqb_spec (L * (lat - 1) + 1) (2 + L * (lat - 1) - 1)); [reflexivity|lia].
Qed.

Lemma position_ring (k j n : Z) :
  1 <= k <= lat - 1 -> 0 <= j < L -> n = 1 + (k - 1) * L + j ->
  position_at (m_vertexes s) n = Some (sph radius (azimuth L j) (polar lat k)).
Proof using All.
  intros Hk Hj ->. pose proof (ring_index_range L lat k j Hk Hj) as Hrange.
  destruct (built_vertex radius L lat s (1 + (k - 1) * L + j) Hbuilt) as [Hp _]; [lia|].
  rewrite Hp, vertex_position_ring by assumption. reflexivity.
Qed.

Lemma north_cap_outward (t : triangle) :
  t ∈ north_cap L -> wound_outward (m_vertexes s) t.
Proof using All.
  unfold north_cap, uint, fits, vertex_count, m_n_coords in *. intros Ht.
  apply elem_of_app in Ht as [Ht|Ht].
  - apply list_elem_of_fmap in Ht as (i & -> & Hi%seqZ_bounds). unfold wound_outward; cbn [fst snd].
    replace (uadd i 1) with (i + 1) by (unwrap; reflexivity).
    exists (0, radius, 0)%R, (sph radius (azimuth L i) (polar lat 1)),
      (sph radius (azimuth L (i - 1)) (polar lat 1)).
    split; [apply position_north|].
    split; [apply (position_ring 1 i); lia|].
    split; [apply (position_ring 1 (i - 1)); lia|].
    apply outward_north; [exact Hr | apply polar_sin_pos; lia | apply azimuth_next; lia].
  - apply list_elem_of_singleton in Ht as ->. unfold wound_outward; cbn [fst snd].
    exists (0, radius, 0)%R, (sph radius (azimuth L 0) (polar lat 1)),
      (sph radius (azimuth L (L - 1)) (polar lat 1)).
    split; [apply position_north|].
    split; [apply (position_ring 1 0); lia|].
    split; [apply (position_ring 1 (L - 1)); lia|].
    apply outward_north; [exact Hr | apply polar_sin_pos; lia | apply azimuth_wrap; lia].
Qed.

Lemma south_cap_outward (t : triangle) :
  t ∈ south_cap L lat -> wound_outward (m_vertexes s) t.
Proof using All.
  unfold south_cap, uint, fits, vertex_count, m_n_coords in *. intros Ht.
  assert (HV : L <= L * (lat - 1)) by nia.
  assert (Hlast : uadd (umul L (usub lat 1)) 1 = L * (lat - 1) + 1) by (unwrap; reflexivity).
  rewrite Hlast in Ht.
  apply elem_of_app in Ht as [Ht|Ht].
  - apply list_elem_of_fmap in Ht as (i & -> & Hi%seqZ_bounds). unfold wound_outward; cbn [fst snd].
    replace (usub (L * (lat - 1) + 1) (uadd i 1)) with (L * (lat - 1) + 1 - (i + 1))
      by (unwrap; reflexivity).
    replace (usub (L * (lat - 1) + 1) i) with (L * (lat - 1) + 1 - i)
      by (unwrap; reflexivity).
    exists (0, - radius, 0)%R, (sph radius (azimuth L (L - i - 1)) (polar lat (lat - 1))),
      (sph radius (azimuth L (L - i)) (polar lat (lat - 1))).
    split; [apply position_south|].
    split; [apply (position_ring (lat - 1) (L - i - 1)); lia|].
    split; [apply (position_ring (lat - 1) (L - i)); lia|].
    apply outward_south; [exact Hr | apply polar_sin_pos; lia | apply azimuth_next; lia].
  - apply list_elem_of_singleton in Ht as ->. unfold wound_outward; cbn [fst snd].
    replace (usub (L * (lat - 1) + 1) 1) with (L * (lat - 1) + 1 - 1)
      by (unwrap; reflexivity).
    replace (usub (L * (lat - 1) + 1) L) with (L * (lat - 1) + 1 - L)
      by (unwrap; reflexivity).
    exists (0, - radius, 0)%R, (sph radius (azimuth L (L - 1)) (polar lat (lat - 1))),
      (sph radius (azimuth L 0) (polar lat (lat - 1))).
    split; [apply position_south|].
    split; [apply (position_ring (lat - 1) (L - 1)); lia|].
    split; [apply (position_ring (lat - 1) 0); lia|].
    apply outward_south; [exact Hr | apply polar_sin_pos; lia | apply azimuth_wrap; lia].
Qed.

Lemma body_bands_outward (t : triangle) :
  t ∈ body_bands L lat -> wound_outward (m_vertexes s) t.
Proof using All.
  unfold body_bands, uint, fits, vertex_count, m_n_coords in *. intros Ht.
  assert (Hb : usub lat 2 = lat - 2) by (unwrap; reflexivity).
  rewrite Hb in Ht.
  apply list_elem_of_bind in Ht as (b & Ht & Hbb%seqZ_bounds).
  assert (Hbl : 0 <= b * L <= (lat - 3) * L) by nia.
  unfold band in Ht. apply elem_of_app in Ht as [Ht|Ht].
  - apply list_elem_of_bind in Ht as (i & Ht & Hi%seqZ_bounds).
    assert (E0 : uadd i (umul b L) = i + b * L) by (unwrap; reflexivity).
    assert (E2 : uadd (uadd i L) (umul b L) = i + L + b * L) by (unwrap; reflexivity).
    unfold quad in Ht. rewrite E0, E2 in Ht.
    replace (uadd (i + b * L) 1) with (i + b * L + 1) in Ht by (unwrap; reflexivity).
    replace (uadd (i + L + b * L) 1) with (i + L + b * L + 1) in Ht by (unwrap; reflexivity).
    apply elem_of_cons in Ht as [->|Ht]; [|apply list_elem_of_singleton in Ht as ->];
      unfold wound_outward; cbn [fst snd].
    + exists (sph radius (azimuth L (i - 1)) (polar lat (b + 1))),
        (sph radius (azimuth L i) (polar lat (b + 1))),
        (sph radius (azimuth L (i - 1)) (polar lat (b + 2))).
      split; [apply (position_ring (b + 1) (i - 1)); lia|].
      split; [apply (position_ring (b + 1) i); lia|].
      split; [apply (position_ring (b + 2) (i - 1)); lia|].
      apply outward_quad_upper;
        [exact Hr | apply polar_sin_pos; lia | apply azimuth_next; lia
        | apply polar_next; lia].
    + exists (sph radius (azimuth L i) (polar lat (b + 1))),
        (sph radius (azimuth L i) (polar lat (b + 2))),
        (sph radius (azimuth L (i - 1)) (polar lat (b + 2))).
      split; [apply (position_ring (b + 1) i); lia|].
      split; [apply (position_ring (b + 2) i); lia|].
      split; [apply (position_ring (b + 2) (i - 1)); lia|].
      apply outward_quad_lower;
        [exact Hr | apply polar_sin_pos; lia | apply azimuth_next; lia
        | apply polar_next; lia].
  - assert (E0 : uadd 1 (umul b L) = 1 + b * L) by (unwrap; reflexivity).
    assert (E1 : uadd L (umul b L) = L + b * L) by (unwrap; reflexivity).
    unfold closing_quad in Ht. rewrite E0, E1 in Ht.
    replace (uadd (1 + b * L) L) with (1 + b * L + L) in Ht by (unwrap; reflexivity).
    replace (uadd (L + b * L) L) with (L + b * L + L) in Ht by (unwrap; reflexivity).
    apply elem_of_cons in Ht as [->|Ht]; [|apply list_elem_of_singleton in Ht as ->];
      unfold wound_outward; cbn [fst snd].
    + exists (sph radius (azimuth L 0) (polar lat (b + 1))),
        (sph radius (azimuth L 0) (polar lat (b + 2))),
        (sph radius (azimuth L (L - 1)) (polar lat (b + 1))).
      split; [apply (position_ring (b + 1) 0); lia|].
      split; [apply (position_ring (b + 2) 0); lia|].
      split; [apply (position_ring (b + 1) (L - 1)); lia|].
      apply outward_closing_upper;
        [exact Hr | apply polar_sin_pos; lia | apply azimuth_wrap; lia
        | apply polar_next; lia].
    + exists (sph radius (azimuth L (L - 1)) (polar lat (b + 1))),
        (sph radius (azimuth L 0) (polar lat (b + 2))),
        (sph radius (azimuth L (L - 1)) (polar lat (b + 2))).
      split; [apply (position_ring (b + 1) (L - 1)); lia|].
      split; [apply (position_ring (b + 2) 0); lia|].
      split; [apply (position_ring (b + 2) (L - 1)); lia|].
      apply outward_closing_lower;
        [exact Hr | apply polar_sin_pos; lia | apply azimuth_wrap; lia
        | apply polar_next; lia].
Qed.
End Outward.




(** * Further properties of the index pass *)

(** ** What [set_indices] appends, on any input *)

(** X1.  [set_indices] only appends: on any index list it leaves the
    entries it finds and adds after them the entries it generates on the
    empty list, so a second call adds a second copy of the triangles. *)
Theorem set_indices_appends (L lat : Z) (v : list Z) :
  set_indices L lat v = v ++ set_indices L lat [] /\
  set_indices L lat (set_indices L lat v)
  = v ++ set_indices L lat [] ++ set_indices L lat [].
Proof.
  assert (Happ : forall w, set_indices L lat w = w ++ set_indices L lat []).
  { intros w. rewrite (set_indices_triangles L lat w), (set_indices_triangles L lat []).
    reflexivity. }
  split; [apply Happ|].
  rewrite (Happ (set_indices L lat v)), (Happ v), <- app_assoc. reflexivity.
Qed.

Lemma length_north_cap_any (L : Z) :
  Z.of_nat (length (north_cap L)) = Z.max L 1.
Proof.
  unfold north_cap. rewrite length_app, length_fmap, length_seqZ. cbn [length]. lia.
Qed.

Lemma length_band_any (L i_lat : Z) :
  Z.of_nat (length (band L i_lat)) = 2 * Z.max L 1.
Proof.
  unfold band. rewrite length_app.
  rewrite (length_bind_blocks _ 2) by reflexivity.
  rewrite length_seqZ. cbn [length closing_quad]. lia.
Qed.

Lemma length_south_cap_any (L lat : Z) :
  Z.of_nat (length (south_cap L lat)) = Z.max L 1.
Proof.
  unfold south_cap. cbv zeta. rewrite length_app, length_fmap, length_seqZ. cbn [length]. lia.
Qed.

Lemma length_body_bands_any (L lat : Z) :
  Z.of_nat (length (body_bands L lat)) = usub lat 2 * (2 * Z.max L 1).
Proof.
  pose proof (wrap32_range (lat - 2)) as Hr. fold (usub lat 2) in Hr.
  unfold body_bands.
  rewrite (length_bind_blocks _ (Z.to_nat (2 * Z.max L 1))).
  2:{ intros y. pose proof (length_band_any L y). lia. }
  rewrite length_seqZ. nia.
Qed.

Lemma length_set_indices_any (L lat : Z) :
  Z.of_nat (length (set_indices L lat [])) = 6 * Z.max L 1 * (1 + usub lat 2).
Proof.
  rewrite set_indices_triangles. cbn [app].
  rewrite length_flat3. unfold triangles. rewrite !length_app.
  pose proof (length_north_cap_any L). pose proof (length_body_bands_any L lat).
  pose proof (length_south_cap_any L lat). nia.
Qed.

(** ** When the vector cannot hold the index list *)

Lemma insert_all_app (room : Z) (a b : list triangle) (v : list Z) :
  insert_all room (a ++ b) v = insert_all room a v ≫= insert_all room b.
Proof.
  revert v. induction a as [|t a IH]; intros v; [reflexivity|].
  cbn [app insert_all]. destruct (insert3 room t.1.1 t.1.2 t.2 v) as [w|]; [|reflexivity].
  cbn [mbind option_bind]. apply IH.
Qed.

Lemma for_rangeM_ext {S : Type} (f g : Z -> S -> option S) (lo hi : Z) (s : S) :
  (forall i s, f i s = g i s) -> for_rangeM lo hi f s = for_rangeM lo hi g s.
Proof.
  intros Hfg. unfold for_rangeM. generalize (Z.to_nat (hi - lo)) as n. intros n.
  revert lo s. induction n as [|n IH]; intros lo s; [reflexivity|].
  cbn [for_iterM]. rewrite Hfg. destruct (g lo s); [apply IH|reflexivity].
Qed.

(** A loop that only inserts, inserts what its iterations insert, in
    order. *)
Lemma for_rangeM_insert_all (room : Z) (f : Z -> list triangle) (lo hi : Z) (v : list Z) :
  for_rangeM lo hi (fun i v => insert_all room (f i) v) v
  = insert_all room (seqZ lo (hi - lo) ≫= f) v.
Proof.
  unfold for_rangeM.
  destruct (Z_le_gt_dec (hi - lo) 0) as [Hle|Hgt].
  { replace (Z.to_nat (hi - lo)) with O by lia. rewrite seqZ_nil by lia. reflexivity. }
  rewrite <- (Z2Nat.id (hi - lo)) at 2 by lia.
  generalize (Z.to_nat (hi - lo)) as n. clear Hgt. intros n.
  revert lo v. induction n as [|n IH]; intros lo v; [reflexivity|].
  cbn [for_iterM]. rewrite Nat2Z.inj_succ, seqZ_cons by lia.
  cbn [mbind list_bind]. change (foldr _ _ ?l) with (l ≫= f).
  rewrite insert_all_app.
  destruct (insert_all room (f lo) v) as [w|]; [|reflexivity].
  cbn [mbind option_bind].
  replace (Z.pred (Z.succ (Z.of_nat n))) with (Z.of_nat n) by lia.
  replace (Z.succ lo) with (lo + 1) by lia. apply IH.
Qed.

Lemma fmap_as_bind {A B : Type} (f : A -> B) (l : list A) :
  l ≫= (fun x => [f x]) = f <$> l.
Proof. induction l as [|x l IH]; [reflexivity|]. cbn. rewrite <- IH. reflexivity. Qed.

Lemma set_indices_within_insert_all (room L lat : Z) (v : list Z) :
  set_indices_within room L lat v = insert_all room (triangles L lat) v.
Proof.
  unfold set_indices_within, triangles, north_cap, body_bands, south_cap.
  cbv zeta. set (last := uadd (umul L (usub lat 1)) 1).
  (* each loop inserts the triangles of its closed form *)
  rewrite (for_rangeM_ext _ (fun i_lon v =>
             insert_all room [(0, uadd i_lon 1, i_lon)] v)).
  2:{ intros i w. cbn [insert_all fst snd]. destruct (insert3 _ _ _ _ _); reflexivity. }
  rewrite for_rangeM_insert_all, (fmap_as_bind (fun i_lon => (0, uadd i_lon 1, i_lon))).
  rewrite !insert_all_app.
  destruct (insert_all room _ v) as [v1|]; [|reflexivity]. cbn [mbind option_bind].
  cbn [insert_all fst snd].
  destruct (insert3 room 0 1 L v1) as [v2|]; [|reflexivity]. cbn [mbind option_bind].
  rewrite (for_rangeM_ext _ (fun i_lat v => insert_all room (band L i_lat) v)).
  2:{ intros b w. unfold band. rewrite insert_all_app.
      rewrite (for_rangeM_ext _ (fun i_lon v => insert_all room (quad L b i_lon) v)).
      2:{ intros i u. unfold quad. cbn [insert_all fst snd].
          destruct (insert3 _ _ _ _ u) as [u1|]; [|reflexivity]. cbn [mbind option_bind].
          destruct (insert3 _ _ _ _ u1); reflexivity. }
      rewrite for_rangeM_insert_all.
      destruct (insert_all room _ w) as [w1|]; [|reflexivity]. cbn [mbind option_bind].
      unfold closing_quad. cbn [insert_all fst snd].
      destruct (insert3 _ _ _ _ w1) as [w2|]; [|reflexivity]. cbn [mbind option_bind].
      destruct (insert3 _ _ _ _ w2); reflexivity. }
  rewrite for_rangeM_insert_all.
  replace (usub lat 2 - 0) with (usub lat 2) by lia.
  rewrite !insert_all_app.
  destruct (insert_all room _ v2) as [v3|]; [|reflexivity]. cbn [mbind option_bind].
  rewrite (for_rangeM_ext _ (fun i_lon v =>
             insert_all room [(last, usub last (uadd i_lon 1), usub last i_lon)] v)).
  2:{ intros i w. cbn [insert_all fst snd]. destruct (insert3 _ _ _ _ _); reflexivity. }
  rewrite for_rangeM_insert_all,
    (fmap_as_bind (fun i_lon => (last, usub last (uadd i_lon 1), usub last i_lon))).
  rewrite !insert_all_app.
  destruct (insert_all room _ v3) as [v4|]; [|reflexivity]. cbn [mbind option_bind].
  cbn [insert_all fst snd].
  destruct (insert3 room last _ _ v4); reflexivity.
Qed.

(** Inserting succeeds exactly when the vector can hold the result; the
    result is the plain concatenation. *)
Lemma insert_all_room (room : Z) (ts : list triangle) (v : list Z) :
  Z.of_nat (length v) + 3 * Z.of_nat (length ts) <= Z.min room vector_max_size ->
  insert_all room ts v = Some (v ++ flat3 ts).
Proof.
  revert v. induction ts as [|[[a b] c] ts IH]; intros v Hroom.
  - cbn. rewrite app_nil_r. reflexivity.
  - cbn [insert_all fst snd]. cbn [length] in Hroom. unfold insert3.
    destruct (Z.leb_spec (Z.of_nat (length v) + 3) (Z.min room vector_max_size)); [|lia].
    cbn [mbind option_bind]. rewrite IH.
    + unfold push3. rewrite <- app_assoc. reflexivity.
    + unfold push3. rewrite length_app. cbn [length]. lia.
Qed.

Lemma insert_all_throws (room : Z) (ts : list triangle) (v : list Z) :
  Z.min room vector_max_size < Z.of_nat (length v) + 3 * Z.of_nat (length ts) ->
  ts <> [] ->
  insert_all room ts v = None.
Proof.
  revert v. induction ts as [|[[a b] c] ts IH]; intros v Hroom Hne; [congruence|].
  cbn [insert_all fst snd]. cbn [length] in Hroom. unfold insert3.
  destruct (Z.leb_spec (Z.of_nat (length v) + 3) (Z.min room vector_max_size));
    [|reflexivity].
  cbn [mbind option_bind]. destruct ts as [|t ts]; [cbn [length] in Hroom; lia|].
  apply IH; [|discriminate].
  unfold push3. rewrite length_app. cbn [length] in *. lia.
Qed.



Lemma length_triangles_any (L lat : Z) :
  3 * Z.of_nat (length (triangles L lat)) = 6 * Z.max L 1 * (1 + usub lat 2).
Proof.
  unfold triangles. rewrite !length_app.
  pose proof (length_north_cap_any L). pose proof (length_body_bands_any L lat).
  pose proof (length_south_cap_any L lat). nia.
Qed.

Lemma triangles_not_nil (L lat : Z) : triangles L lat <> [].
Proof.
  unfold triangles, north_cap. intros Hnil.
  apply app_eq_nil in Hnil as [Hnil _]. apply app_eq_nil in Hnil as [_ Hnil]. discriminate.
Qed.

(** When the vector can hold the index list, [set_indices] with the
    [insert] that may throw is [set_indices]; otherwise it throws. *)
Lemma set_indices_within_room (room L lat : Z) (v : list Z) :
  Z.of_nat (length v) + 6 * Z.max L 1 * (1 + usub lat 2) <= Z.min room vector_max_size ->
  set_indices_within room L lat v = Some (set_indices L lat v).
Proof.
  intros Hroom. rewrite set_indices_within_insert_all, set_indices_triangles.
  apply insert_all_room. rewrite length_triangles_any. exact Hroom.
Qed.

Lemma set_indices_within_throws (room L lat : Z) (v : list Z) :
  Z.min room vector_max_size < Z.of_nat (length v) + 6 * Z.max L 1 * (1 + usub lat 2) ->
  set_indices_within room L lat v = None.
Proof.
  intros Hroom. rewrite set_indices_within_insert_all.
  apply insert_all_throws; [|apply triangles_not_nil].
  rewrite length_triangles_any. exact Hroom.
Qed.

Section WithinNew.
Context {F : Type} `{FloatOps F}.

Lemma Sphere_new_within_room (room : Z) (radius : F) (L lat : Z) :
  6 * Z.max L 1 * (1 + usub lat 2) <= Z.min room vector_max_size ->
  Sphere_new_within room radius L lat = Sphere_new radius L lat.
Proof.
  intros Hroom. unfold Sphere_new_within, Sphere_new, Sphere_set_vertexes. cbv zeta.
  cbn [m_radius m_n_longitudes m_n_latitudes m_vertexes m_n_vertexes m_indices].
  destruct (set_vertexes _ _ _ _) as [v1|]; [|reflexivity]. cbn [mbind option_bind].
  unfold Sphere_set_indices_within, Sphere_set_indices.
  cbn [m_radius m_n_longitudes m_n_latitudes m_vertexes m_n_vertexes m_indices].
  rewrite set_indices_within_room by (cbn [length]; lia). reflexivity.
Qed.

Lemma Sphere_new_within_throws (room : Z) (radius : F) (L lat : Z) :
  Z.min room vector_max_size < 6 * Z.max L 1 * (1 + usub lat 2) ->
  Sphere_new_within room radius L lat = None.
Proof.
  intros Hroom. unfold Sphere_new_within, Sphere_set_vertexes. cbv zeta.
  cbn [m_radius m_n_longitudes m_n_latitudes m_vertexes m_n_vertexes m_indices].
  destruct (set_vertexes _ _ _ _) as [v1|]; [|reflexivity]. cbn [mbind option_bind].
  unfold Sphere_set_indices_within.
  cbn [m_radius m_n_longitudes m_n_latitudes m_vertexes m_n_vertexes m_indices].
  rewrite set_indices_within_throws by (cbn [length]; lia). reflexivity.
Qed.
End WithinNew.

(** C10, as stated, fails: the band loop cannot always run 4294967295 times.
    With 89478486 longitudes and 1 latitude the index list would have
    [6 * 89478486 * 2^32] entries, more than [max_size()]: whatever the
    memory, [insert] throws and the constructor does not complete.  With 3
    longitudes it throws as soon as the memory has no room for
    [6 * 3 * 2^32] entries, for instance with room for 402653184. *)
Lemma band_loop_throws :
  uint 89478486 /\ 3 <= 89478486 /\
  vector_max_size < 6 * 89478486 * 2 ^ 32 /\
  (forall room, Sphere_new_within room 1%R 89478486 1 = None) /\
  Sphere_new_within 402653184 1%R 3 1 = None.
Proof.
  split; [unfold uint; lia|]. split; [lia|]. split; [unfold vector_max_size; lia|].
  split; [intros room|]; apply Sphere_new_within_throws;
    change (usub 1 2) with 4294967295; unfold vector_max_size; lia.
Qed.

(** C10, amended.  With [latitudeCount = 1] the constructor rejects nothing:
    it sizes the buffer for 2 vertices and fills it; in [set_indices] the
    bound [m_n_latitudes - 2] of the band loop wraps to 4294967295, so the
    loop is set to run 4294967295 times instead of zero.  It runs them all,
    once per value of [i_lat], each run appending the [2 * longitudeCount]
    triangles of a band, and the constructor completes with
    [6 * longitudeCount * 2^32] indices, exactly when the vector can hold
    that many entries; otherwise [insert] throws, and it always does for
    [longitudeCount >= 89478486]. *)
Theorem one_latitude_wraps {F : Type} `{FloatOps F} (radius : F) (L room : Z) :
  uint L -> 3 <= L ->
  usub 1 2 = 4294967295 /\
  trip_count 0 (usub 1 2) = 4294967295 /\
  (exists v,
     set_vertexes radius L 1
       (replicate (Z.to_nat (umul m_n_coords (uadd (uadd 1 (umul L (usub 1 1))) 1))) f_zero)
     = Some v /\
     Z.of_nat (length v) = 6 * 2) /\
  (6 * L * 2 ^ 32 <= Z.min room vector_max_size ->
   exists s,
     Sphere_new_within room radius L 1 = Some s /\
     m_n_vertexes s = 2 /\
     Z.of_nat (length (m_vertexes s)) = 6 * 2 /\
     triples (m_indices s)
     = north_cap L ++ (seqZ 0 4294967295 ≫= band L) ++ south_cap L 1 /\
     Z.of_nat (length (m_indices s)) = 6 * L * 2 ^ 32) /\
  (Z.min room vector_max_size < 6 * L * 2 ^ 32 ->
   set_indices_within room L 1 [] = None /\
   Sphere_new_within room radius L 1 = None) /\
  (89478486 <= L -> Sphere_new_within room radius L 1 = None).
Proof.
  intros HL H3.
  assert (Hw : usub 1 2 = 4294967295) by (vm_compute; reflexivity).
  assert (Hcount : 6 * Z.max L 1 * (1 + usub 1 2) = 6 * L * 2 ^ 32) by (rewrite Hw; lia).
  assert (Hfit : fits L 1) by (unfold fits, vertex_count, m_n_coords; lia).
  assert (Hlat : uint 1) by (unfold uint; lia).
  split; [exact Hw|]. split; [rewrite Hw; vm_compute; reflexivity|].
  split; [|split; [|split]].
  - rewrite (n_vertexes_exact L 1 HL Hlat ltac:(lia) Hfit),
      (buffer_size_exact L 1 HL ltac:(lia) Hfit).
    destruct (set_vertexes_stores radius L 1 HL Hlat ltac:(lia) Hfit
                (replicate (Z.to_nat (6 * vertex_count L 1)) f_zero))
      as (v & Hv & Hlen & _).
    { rewrite length_replicate. unfold vertex_count. lia. }
    exists v. split; [exact Hv|]. unfold vertex_count in Hlen. lia.
  - intros Hroom.
    destruct (Sphere_new_total radius L 1 HL Hlat ltac:(lia) Hfit)
      as (s & Hs & _ & _ & _ & Hnv & Hidx & Hlen & _).
    exists s. rewrite Sphere_new_within_room by (rewrite Hcount; exact Hroom).
    unfold vertex_count in *.
    split; [exact Hs|]. split; [lia|]. split; [lia|]. split.
    + rewrite Hidx, set_indices_triangles. cbn [app]. rewrite triples_flat3.
      unfold triangles, body_bands. rewrite Hw. reflexivity.
    + rewrite Hidx, length_set_indices_any. exact Hcount.
  - intros Hroom. split.
    + apply set_indices_within_throws. cbn [length]. rewrite Hcount. lia.
    + apply Sphere_new_within_throws. rewrite Hcount. exact Hroom.
  - intros Hbig. apply Sphere_new_within_throws. rewrite Hcount.
    unfold vector_max_size. lia.
Qed.

Lemma one_latitude_wraps_witness :
  usub 1 2 = 4294967295 /\
  trip_count 0 (usub 1 2) = 4294967295 /\
  (exists v,
     set_vertexes 1%R 3 1
       (replicate (Z.to_nat (umul m_n_coords (uadd (uadd 1 (umul 3 (usub 1 1))) 1))) f_zero)
     = Some v /\
     Z.of_nat (length v) = 6 * 2) /\
  (exists s,
     Sphere_new_within (2 ^ 40) 1%R 3 1 = Some s /\
     m_n_vertexes s = 2 /\
     Z.of_nat (length (m_vertexes s)) = 6 * 2 /\
     triples (m_indices s)
     = north_cap 3 ++ (seqZ 0 4294967295 ≫= band 3) ++ south_cap 3 1 /\
     Z.of_nat (length (m_indices s)) = 6 * 3 * 2 ^ 32).
Proof.
  assert (HL : uint 3) by (unfold uint; lia).
  assert (H3 : 3 <= 3) by lia.
  pose proof (one_latitude_wraps 1%R 3 (2 ^ 40) HL H3) as (Hw & Ht & Hv & Hroom & _).
  split; [exact Hw|]. split; [exact Ht|]. split; [exact Hv|].
  apply Hroom. unfold vector_max_size. lia.
Defined.

(** X2.  Whatever the two counts, valid or not, [set_indices] on the empty
    list completes exactly when the vector can hold
    [6 * max(longitudeCount, 1) * (1 + ((latitudeCount - 2) mod 2^32))]
    entries, a number that is never 0; the list then has exactly that many
    entries, those of [set_indices].  Otherwise [insert] throws. *)
Theorem index_count_any_input (room L lat : Z) :
  0 < 6 * Z.max L 1 * (1 + usub lat 2) /\
  (6 * Z.max L 1 * (1 + usub lat 2) <= Z.min room vector_max_size ->
   exists l,
     set_indices_within room L lat [] = Some l /\
     l = set_indices L lat [] /\
     Z.of_nat (length l) = 6 * Z.max L 1 * (1 + usub lat 2)) /\
  (Z.min room vector_max_size < 6 * Z.max L 1 * (1 + usub lat 2) ->
   set_indices_within room L lat [] = None).
Proof.
  pose proof (wrap32_range (lat - 2)) as Hr. fold (usub lat 2) in Hr.
  split; [nia|]. split.
  - intros Hroom. exists (set_indices L lat []).
    split; [apply set_indices_within_room; cbn [length]; lia|].
    split; [reflexivity|apply length_set_indices_any].
  - intros Hroom. apply set_indices_within_throws. cbn [length]. lia.
Qed.

(** ** Proper and degenerate triangles *)

Lemma triangles_distinct (L lat : Z) :
  uint L -> uint lat -> 2 <= L -> 2 <= lat -> L * (lat - 1) + 1 < 2 ^ 32 ->
  Forall distinct3 (triangles L lat).
Proof.
  intros HL Hlat H2L H2 Hfit. unfold uint in *.
  assert (HV : L <= L * (lat - 1)) by nia.
  unfold triangles. rewrite !Forall_app. split; [|split].
  - unfold north_cap. apply Forall_app; split.
    + apply Forall_fmap, list.Forall_forall. intros i Hi%seqZ_bounds.
      unfold distinct3; cbn. unwrap. lia.
    + repeat constructor; cbn; lia.
  - unfold body_bands.
    assert (Hb : usub lat 2 = lat - 2) by (unwrap; reflexivity).
    rewrite Hb. apply list.Forall_forall. intros t Ht.
    apply list_elem_of_bind in Ht as (i_lat & Ht & Hi%seqZ_bounds).
    assert (Hm : 0 <= i_lat * L <= (lat - 3) * L) by nia.
    unfold band in Ht. apply elem_of_app in Ht as [Ht|Ht].
    + apply list_elem_of_bind in Ht as (i_lon & Ht & Hj%seqZ_bounds).
      unfold quad in Ht.
      repeat (apply elem_of_cons in Ht as [->|Ht]); [| |inversion Ht];
        unfold distinct3; cbn; unwrap; lia.
    + unfold closing_quad in Ht.
      repeat (apply elem_of_cons in Ht as [->|Ht]); [| |inversion Ht];
        unfold distinct3; cbn; unwrap; lia.
  - unfold south_cap.
    assert (Hlast : uadd (umul L (usub lat 1)) 1 = L * (lat - 1) + 1) by (unwrap; reflexivity).
    rewrite Hlast. apply Forall_app; split.
    + apply Forall_fmap, list.Forall_forall. intros i Hi%seqZ_bounds.
      unfold distinct3; cbn. unwrap. lia.
    + repeat constructor; cbn; unwrap; lia.
Qed.

(** X3.  With at least 2 longitudes and 2 latitudes, and vertex indices that
    fit in 32 bits, every triple of the index list names three different
    vertices. *)
Theorem triples_distinct_vertices (L lat : Z) :
  uint L -> uint lat -> 2 <= L -> 2 <= lat -> L * (lat - 1) + 1 < 2 ^ 32 ->
  Forall distinct3 (triples (set_indices L lat [])).
Proof.
  intros. rewrite set_indices_triangles. cbn [app]. rewrite triples_flat3.
  apply triangles_distinct; assumption.
Qed.

Lemma triples_distinct_vertices_witness :
  Forall distinct3 (triples (set_indices 2 3 [])).
Proof. apply triples_distinct_vertices; unfold uint; lia. Defined.

Lemma wrap32_idem (z : Z) : wrap32 (wrap32 z) = wrap32 z.
Proof. unfold wrap32. apply Z.mod_mod. lia. Qed.

(** X4.  With 0 or 1 longitude, every triple of the index list repeats a
    vertex: the mesh has no proper triangle, whatever [latitudeCount]. *)
Theorem triples_degenerate (L lat : Z) :
  0 <= L <= 1 ->
  Forall (fun t => ~ distinct3 t) (triples (set_indices L lat [])).
Proof.
  intros HL1. rewrite set_indices_triangles. cbn [app]. rewrite triples_flat3.
  assert (Hs : seqZ 1 (L - 1) = []) by (apply seqZ_nil; lia).
  assert (Hcases : L = 0 \/ L = 1) by lia.
  unfold triangles. rewrite !Forall_app. split; [|split].
  - unfold north_cap. rewrite Hs. cbn [fmap list_fmap app].
    repeat constructor. unfold distinct3; cbn. intros (? & ? & ?). lia.
  - unfold body_bands. apply list.Forall_forall. intros t Ht.
    apply list_elem_of_bind in Ht as (i_lat & Ht & _).
    unfold band in Ht. rewrite Hs in Ht. cbn [mbind list_bind foldr app] in Ht.
    unfold closing_quad in Ht.
    repeat (apply elem_of_cons in Ht as [->|Ht]); [| |inversion Ht];
      unfold distinct3; cbn; intros (H1 & H2 & H3);
      destruct Hcases as [-> | ->]; unfold uadd, umul in *;
      rewrite ?Z.mul_0_r, ?Z.add_0_r, ?Z.add_0_l, ?wrap32_idem in *; congruence.
  - unfold south_cap. cbv zeta. rewrite Hs. cbn [fmap list_fmap app].
    repeat constructor. unfold distinct3; cbn. intros (H1 & H2 & H3).
    destruct Hcases as [-> | ->]; unfold uadd, umul, usub in *;
      rewrite ?Z.sub_0_r in *.
    + apply H2. rewrite Z.mul_0_l. reflexivity.
    + apply H3. reflexivity.
Qed.

Lemma triples_degenerate_witness :
  Forall (fun t => ~ distinct3 t) (triples (set_indices 1 3 [])).
Proof. apply triples_degenerate. lia. Defined.

(** ** References to the poles, and to every vertex *)

Lemma sumZ_const (c lo n : Z) : 0 <= n -> sumZ (fun _ => c) (seqZ lo n) = c * n.
Proof.
  intros Hn. rewrite <- (Z2Nat.id n) by lia. generalize (Z.to_nat n) as k. clear n Hn.
  intros k. revert lo. unfold sumZ. induction k as [|k IH]; intros lo.
  - rewrite seqZ_nil by lia. cbn [foldr]. lia.
  - rewrite Nat2Z.inj_succ, seqZ_cons by lia. cbn [foldr].
    replace (Z.pred (Z.succ (Z.of_nat k))) with (Z.of_nat k) by lia.
    rewrite IH. lia.
Qed.

Section Poles.
Variables L lat : Z.
Hypothesis HL : uint L.
Hypothesis Hlat : uint lat.
Hypothesis H3 : 3 <= L.
Hypothesis H2 : 2 <= lat.
Hypothesis Hfit : L * (lat - 1) + 1 < 2 ^ 32.

Lemma references_pole_bands (v : Z) :
  v = 0 \/ v = L * (lat - 1) + 1 ->
  references v (body_bands L lat) = 0.
Proof using HL Hlat H3 H2 Hfit.
  intros Hv. unfold uint in *. unfold body_bands.
  assert (Hb : usub lat 2 = lat - 2) by (unwrap; reflexivity).
  rewrite Hb, references_bind.
  rewrite (sumZ_ext _ (fun _ => 0)); [apply sumZ_zero|].
  intros b Hbb%seqZ_bounds.
  assert (Hbl : 0 <= b * L <= (lat - 3) * L) by nia.
  unfold band. rewrite references_app, references_bind.
  rewrite (sumZ_ext _ (fun _ => 0)).
  2:{ intros i Hi%seqZ_bounds. unfold quad, references. cbn [foldr]. unwrap. cases_Z. }
  rewrite sumZ_zero. unfold closing_quad, references. cbn [foldr]. unwrap. cases_Z.
Qed.

Lemma references_north_pole :
  references 0 (triangles L lat) = L.
Proof using HL Hlat H3 H2 Hfit.
  unfold uint in *. assert (HV : L <= L * (lat - 1)) by nia.
  unfold triangles. rewrite !references_app, references_pole_bands by (left; reflexivity).
  assert (Hn : references 0 (north_cap L) = L).
  { unfold north_cap. rewrite references_app, references_fmap.
    rewrite (sumZ_ext _ (fun _ => 1)).
    2:{ intros i Hi%seqZ_bounds. unwrap. cases_Z. }
    rewrite sumZ_const by lia. unfold references. cbn [foldr]. cases_Z. }
  assert (Hs : references 0 (south_cap L lat) = 0).
  { unfold south_cap.
    assert (Hlast : uadd (umul L (usub lat 1)) 1 = L * (lat - 1) + 1) by (unwrap; reflexivity).
    rewrite Hlast, references_app, references_fmap.
    rewrite (sumZ_ext _ (fun _ => 0)).
    2:{ intros i Hi%seqZ_bounds. unwrap. cases_Z. }
    rewrite sumZ_zero. unfold references. cbn [foldr]. unwrap. cases_Z. }
  lia.
Qed.

Lemma references_south_pole :
  references (L * (lat - 1) + 1) (triangles L lat) = L.
Proof using HL Hlat H3 H2 Hfit.
  unfold uint in *. assert (HV : L <= L * (lat - 1)) by nia.
  unfold triangles. rewrite !references_app, references_pole_bands by (right; reflexivity).
  assert (Hn : references (L * (lat - 1) + 1) (north_cap L) = 0).
  { unfold north_cap. rewrite references_app, references_fmap.
    rewrite (sumZ_ext _ (fun _ => 0)).
    2:{ intros i Hi%seqZ_bounds. unwrap. cases_Z. }
    rewrite sumZ_zero. unfold references. cbn [foldr]. cases_Z. }
  assert (Hs : references (L * (lat - 1) + 1) (south_cap L lat) = L).
  { unfold south_cap.
    assert (Hlast : uadd (umul L (usub lat 1)) 1 = L * (lat - 1) + 1) by (unwrap; reflexivity).
    rewrite Hlast, references_app, references_fmap.
    rewrite (sumZ_ext _ (fun _ => 1)).
    2:{ intros i Hi%seqZ_bounds. unwrap. cases_Z. }
    rewrite sumZ_const by lia. unfold references. cbn [foldr]. unwrap. cases_Z. }
  lia.
Qed.
End Poles.

(** X5.  Each pole is referenced by exactly [longitudeCount] triples: the
    triangles of its fan, and no triangle of a body band. *)
Theorem pole_references (L lat : Z) :
  uint L -> uint lat -> 3 <= L -> 2 <= lat -> L * (lat - 1) + 1 < 2 ^ 32 ->
  references 0 (triples (set_indices L lat [])) = L /\
  references (L * (lat - 1) + 1) (triples (set_indices L lat [])) = L.
Proof.
  intros HL Hlat H3 H2 Hfit.
  rewrite set_indices_triangles. cbn [app]. rewrite triples_flat3.
  split; [apply references_north_pole | apply references_south_pole]; assumption.
Qed.

Lemma pole_references_witness :
  references 0 (triples (set_indices 4 3 [])) = 4 /\
  references (4 * (3 - 1) + 1) (triples (set_indices 4 3 [])) = 4.
Proof. apply (pole_references 4 3); unfold uint; lia. Defined.

Lemma references_elem (v : Z) (ts : list triangle) :
  0 < references v ts -> v ∈ flat3 ts.
Proof.
  unfold references. induction ts as [|[[a b] c] ts IH]; cbn [foldr]; [lia|].
  intros Hpos. change (flat3 ((a, b, c) :: ts)) with (a :: b :: c :: flat3 ts).
  destruct (has_vertex v (a, b, c)) eqn:Hv.
  - unfold has_vertex in Hv. cbn [fst snd] in Hv.
    destruct (Z.eqb_spec a v); [subst; left|].
    destruct (Z.eqb_spec b v); [subst; right; left|].
    destruct (Z.eqb_spec c v); [subst; do 2 right; left|discriminate].
  - cbn [ind] in Hpos. do 3 right. apply IH. lia.
Qed.

(** X6.  The index list names exactly the vertices of the mesh: a number
    occurs in it if and only if it is below the vertex count
    [2 + longitudeCount * (latitudeCount - 1)].  No vertex is left unused. *)
Theorem every_vertex_referenced (L lat n : Z) :
  uint L -> uint lat -> 3 <= L -> 2 <= lat -> L * (lat - 1) + 1 < 2 ^ 32 ->
  (n ∈ set_indices L lat [] <-> 0 <= n < 2 + L * (lat - 1)).
Proof.
  intros HL Hlat H3 H2 Hfit. split.
  - intros Hin.
    pose proof (flat3_below _ _ (triangles_below L lat HL Hlat H3 H2)) as Hb.
    rewrite set_indices_triangles in Hin. cbn [app] in Hin.
    rewrite list.Forall_forall in Hb. apply Hb. exact Hin.
  - intros Hn. rewrite set_indices_triangles. cbn [app]. apply references_elem.
    destruct (Z.eq_dec n 0) as [->|Hn0].
    { rewrite references_north_pole by assumption. lia. }
    destruct (Z.eq_dec n (L * (lat - 1) + 1)) as [->|Hn1].
    { rewrite references_south_pole by assumption. lia. }
    unfold uint in *.
    pose proof (Z_div_mod_eq_full (n - 1) L) as Hdm.
    pose proof (Z.mod_pos_bound (n - 1) L ltac:(lia)) as Hm.
    set (j := (n - 1) mod L) in *. set (q := (n - 1) / L) in *.
    assert (Hq : 0 <= q <= lat - 2) by nia.
    replace n with (1 + (q + 1 - 1) * L + j) by lia.
    unfold triangles. rewrite !references_app.
    rewrite (references_north_cap L lat), (references_body_bands L lat),
      (references_south_cap L lat) by (unfold uint; lia).
    unfold upper_references, lower_references. cases_Z.
Qed.

Lemma every_vertex_referenced_witness :
  (7 ∈ set_indices 4 3 [] <-> 0 <= 7 < 2 + 4 * (3 - 1)).
Proof. apply (every_vertex_referenced 4 3 7); unfold uint; lia. Defined.

(** ** Index bounds without a minimum of longitudes *)

Lemma north_cap_below_any (L lat : Z) :
  uint L -> 2 <= lat ->
  Forall (below (2 + L * (lat - 1))) (north_cap L).
Proof.
  intros HL H2. unfold north_cap, uint in *.
  apply Forall_app; split.
  - apply Forall_fmap, list.Forall_forall. intros i Hi%seqZ_bounds.
    unfold below, uadd; cbn. wrap_le. nia.
  - repeat constructor; cbn; nia.
Qed.

Lemma body_bands_below_any (L lat : Z) :
  uint L -> uint lat -> 2 <= lat ->
  Forall (below (2 + L * (lat - 1))) (body_bands L lat).
Proof.
  intros HL Hlat H2. unfold body_bands, uint in *.
  assert (Hb : usub lat 2 = lat - 2) by (apply wrap32_small; lia).
  rewrite Hb. apply list.Forall_forall. intros t Ht.
  apply list_elem_of_bind in Ht as (i_lat & Ht & Hi%seqZ_bounds).
  assert (Hm : 0 <= i_lat * L <= (lat - 3) * L) by nia.
  unfold band in Ht. apply elem_of_app in Ht as [Ht|Ht].
  - apply list_elem_of_bind in Ht as (i_lon & Ht & Hj%seqZ_bounds).
    unfold quad, uadd, umul in Ht.
    repeat (apply elem_of_cons in Ht as [->|Ht]); [| |inversion Ht];
      unfold below; cbn; wrap_le; nia.
  - unfold closing_quad, uadd, umul in Ht.
    repeat (apply elem_of_cons in Ht as [->|Ht]); [| |inversion Ht];
      unfold below; cbn; wrap_le; nia.
Qed.

Lemma south_cap_below_any (L lat : Z) :
  uint L -> uint lat -> 2 <= lat ->
  Forall (below (2 + L * (lat - 1))) (south_cap L lat).
Proof.
  intros HL Hlat H2. unfold uint in *.
  assert (Hl1 : usub lat 1 = lat - 1) by (apply wrap32_small; lia).
  assert (HV : 0 <= L * (lat - 1)) by nia.
  assert (HLV : L <= L * (lat - 1)) by nia.
  unfold south_cap. rewrite Hl1.
  destruct (Z_lt_ge_dec (L * (lat - 1) + 1) (2 ^ 32)) as [Hfit|Hbig].
  - assert (Hlast : uadd (umul L (lat - 1)) 1 = L * (lat - 1) + 1).
    { unfold uadd, umul. rewrite (wrap32_small (L * (lat - 1))) by lia.
      apply wrap32_small. lia. }
    rewrite Hlast. apply Forall_app; split.
    + apply Forall_fmap, list.Forall_forall. intros i Hi%seqZ_bounds.
      unfold below, usub, uadd; cbn.
      rewrite (wrap32_small (i + 1)) by lia.
      rewrite !wrap32_small by lia. lia.
    + repeat constructor; cbn; unfold usub; rewrite ?wrap32_small by lia; lia.
  - assert (Hany : forall z, 0 <= wrap32 z < 2 + L * (lat - 1)).
    { intros z. pose proof (wrap32_range z). lia. }
    apply Forall_app; split.
    + apply Forall_fmap, list.Forall_forall. intros i _.
      unfold below, usub, uadd; cbn. repeat split; apply Hany.
    + unfold usub, uadd. repeat constructor; cbn; apply Hany.
Qed.

(** X7.  The bound on the indices needs no minimum on [longitudeCount]:
    for every [longitudeCount], 0, 1 and 2 included, and
    [latitudeCount >= 2], every index is below the vertex count
    [2 + longitudeCount * (latitudeCount - 1)]. *)
Theorem indices_in_bounds_any_longitude (L lat : Z) :
  uint L -> uint lat -> 2 <= lat ->
  Forall (fun i => 0 <= i < 2 + L * (lat - 1)) (set_indices L lat []).
Proof.
  intros HL Hlat H2. rewrite set_indices_triangles. cbn [app].
  apply flat3_below. unfold triangles. rewrite !Forall_app.
  auto using north_cap_below_any, body_bands_below_any, south_cap_below_any.
Qed.

Lemma indices_in_bounds_any_longitude_witness :
  Forall (fun i => 0 <= i < 2 + 1 * (3 - 1)) (set_indices 1 3 []).
Proof. apply indices_in_bounds_any_longitude; unfold uint; lia. Defined.

(** ** Edges and their reverses *)

Section Edges.
Variables L lat : Z.
Hypothesis HL : uint L.
Hypothesis Hlat : uint lat.
Hypothesis H2L : 2 <= L.
Hypothesis H2 : 2 <= lat.
Hypothesis Hfit : L * (lat - 1) + 1 < 2 ^ 32.

Local Abbreviation south := (L * (lat - 1) + 1).

Ltac tuple_eq := repeat (apply (f_equal2 pair)); lia.

Ltac first_of_list :=
  rewrite ?elem_of_cons;
  first [ left; tuple_eq | right; left; tuple_eq | right; right; left; tuple_eq ].

Lemma in_north_regular (i : Z) (t : triangle) :
  1 <= i <= L - 1 -> t = (0, i + 1, i) -> t ∈ triangles L lat.
Proof using HL.
  intros Hi ->. unfold uint in *. unfold triangles, north_cap.
  apply elem_of_app; left. apply elem_of_app; left.
  apply list_elem_of_fmap. exists i. split; [|apply elem_of_seqZ; lia].
  unwrap. reflexivity.
Qed.

Lemma in_north_closing (t : triangle) :
  t = (0, 1, L) -> t ∈ triangles L lat.
Proof using Type.
  intros ->. unfold triangles, north_cap.
  apply elem_of_app; left. apply elem_of_app; right. left.
Qed.

Lemma in_band (b : Z) (t : triangle) :
  0 <= b <= lat - 3 -> t ∈ band L b -> t ∈ triangles L lat.
Proof using HL Hlat H2.
  intros Hb Ht. unfold uint in *. unfold triangles, body_bands.
  apply elem_of_app; right. apply elem_of_app; left.
  assert (Hu : usub lat 2 = lat - 2) by (unwrap; reflexivity). rewrite Hu.
  apply list_elem_of_bind. exists b. split; [exact Ht|apply elem_of_seqZ; lia].
Qed.

Lemma in_quad_upper (b i : Z) (t : triangle) :
  0 <= b <= lat - 3 -> 1 <= i <= L - 1 ->
  t = (i + b * L, i + b * L + 1, i + b * L + L) -> t ∈ triangles L lat.
Proof using HL Hlat H2L H2 Hfit.
  intros Hb Hi ->. apply (in_band b); [exact Hb|]. unfold uint in *.
  assert (Hbl : 0 <= b * L <= (lat - 3) * L) by nia.
  unfold band. apply elem_of_app; left.
  apply list_elem_of_bind. exists i. split; [|apply elem_of_seqZ; lia].
  unfold quad. unwrap. first_of_list.
Qed.

Lemma in_quad_lower (b i : Z) (t : triangle) :
  0 <= b <= lat - 3 -> 1 <= i <= L - 1 ->
  t = (i + b * L + 1, i + b * L + L + 1, i + b * L + L) -> t ∈ triangles L lat.
Proof using HL Hlat H2L H2 Hfit.
  intros Hb Hi ->. apply (in_band b); [exact Hb|]. unfold uint in *.
  assert (Hbl : 0 <= b * L <= (lat - 3) * L) by nia.
  unfold band. apply elem_of_app; left.
  apply list_elem_of_bind. exists i. split; [|apply elem_of_seqZ; lia].
  unfold quad. unwrap. first_of_list.
Qed.

Lemma in_closing_upper (b : Z) (t : triangle) :
  0 <= b <= lat - 3 ->
  t = (1 + b * L, 1 + b * L + L, L + b * L) -> t ∈ triangles L lat.
Proof using HL Hlat H2L H2 Hfit.
  intros Hb ->. apply (in_band b); [exact Hb|]. unfold uint in *.
  assert (Hbl : 0 <= b * L <= (lat - 3) * L) by nia.
  unfold band. apply elem_of_app; right.
  unfold closing_quad. unwrap. first_of_list.
Qed.

Lemma in_closing_lower (b : Z) (t : triangle) :
  0 <= b <= lat - 3 ->
  t = (L + b * L, 1 + b * L + L, L + b * L + L) -> t ∈ triangles L lat.
Proof using HL Hlat H2L H2 Hfit.
  intros Hb ->. apply (in_band b); [exact Hb|]. unfold uint in *.
  assert (Hbl : 0 <= b * L <= (lat - 3) * L) by nia.
  unfold band. apply elem_of_app; right.
  unfold closing_quad. unwrap. first_of_list.
Qed.

Lemma south_pole_index : uadd (umul L (usub lat 1)) 1 = south.
Proof using HL Hlat H2L H2 Hfit.
  unfold uint in *. assert (HV : L <= L * (lat - 1)) by nia. unwrap. reflexivity.
Qed.

Lemma in_south_regular (i : Z) (t : triangle) :
  1 <= i <= L - 1 -> t = (south, south - i - 1, south - i) -> t ∈ triangles L lat.
Proof using HL Hlat H2L H2 Hfit.
  intros Hi ->. unfold uint in *. assert (HV : L <= L * (lat - 1)) by nia.
  unfold triangles, south_cap. rewrite south_pole_index.
  apply elem_of_app; right. apply elem_of_app; right. apply elem_of_app; left.
  apply list_elem_of_fmap. exists i. split; [|apply elem_of_seqZ; lia].
  unwrap. tuple_eq.
Qed.

Lemma in_south_closing (t : triangle) :
  t = (south, south - 1, south - L) -> t ∈ triangles L lat.
Proof using HL Hlat H2L H2 Hfit.
  intros ->. unfold uint in *. assert (HV : L <= L * (lat - 1)) by nia.
  unfold triangles, south_cap. rewrite south_pole_index.
  apply elem_of_app; right. apply elem_of_app; right. apply elem_of_app; right.
  unwrap. first_of_list.
Qed.

(** The eight shapes of a triangle of the mesh. *)
Lemma triangles_shapes (t : triangle) :
  t ∈ triangles L lat ->
  (exists i, 1 <= i <= L - 1 /\ t = (0, i + 1, i)) \/
  t = (0, 1, L) \/
  (exists b i, 0 <= b <= lat - 3 /\ 1 <= i <= L - 1 /\
               t = (i + b * L, i + b * L + 1, i + b * L + L)) \/
  (exists b i, 0 <= b <= lat - 3 /\ 1 <= i <= L - 1 /\
               t = (i + b * L + 1, i + b * L + L + 1, i + b * L + L)) \/
  (exists b, 0 <= b <= lat - 3 /\ t = (1 + b * L, 1 + b * L + L, L + b * L)) \/
  (exists b, 0 <= b <= lat - 3 /\ t = (L + b * L, 1 + b * L + L, L + b * L + L)) \/
  (exists i, 1 <= i <= L - 1 /\ t = (south, south - i - 1, south - i)) \/
  t = (south, south - 1, south - L).
Proof using HL Hlat H2L H2 Hfit.
  unfold uint in *. assert (HV : L <= L * (lat - 1)) by nia.
  unfold triangles. rewrite !elem_of_app. intros [Ht|[Ht|Ht]].
  - unfold north_cap in Ht. apply elem_of_app in Ht as [Ht|Ht].
    + apply list_elem_of_fmap in Ht as (i & -> & Hi%seqZ_bounds).
      left. exists i. split; [lia|]. unwrap. reflexivity.
    + apply list_elem_of_singleton in Ht as ->. right; left. reflexivity.
  - unfold body_bands in Ht.
    assert (Hu : usub lat 2 = lat - 2) by (unwrap; reflexivity). rewrite Hu in Ht.
    apply list_elem_of_bind in Ht as (b & Ht & Hb%seqZ_bounds).
    assert (Hbl : 0 <= b * L <= (lat - 3) * L) by nia.
    unfold band in Ht. apply elem_of_app in Ht as [Ht|Ht].
    + apply list_elem_of_bind in Ht as (i & Ht & Hi%seqZ_bounds).
      unfold quad in Ht.
      apply elem_of_cons in Ht as [->|Ht]; [|apply list_elem_of_singleton in Ht as ->].
      * do 2 right; left. exists b, i. split; [lia|]. split; [lia|]. unwrap. tuple_eq.
      * do 3 right; left. exists b, i. split; [lia|]. split; [lia|]. unwrap. tuple_eq.
    + unfold closing_quad in Ht.
      apply elem_of_cons in Ht as [->|Ht]; [|apply list_elem_of_singleton in Ht as ->].
      * do 4 right; left. exists b. split; [lia|]. unwrap. tuple_eq.
      * do 5 right; left. exists b. split; [lia|]. unwrap. tuple_eq.
  - unfold south_cap in Ht. rewrite south_pole_index in Ht.
    apply elem_of_app in Ht as [Ht|Ht].
    + apply list_elem_of_fmap in Ht as (i & -> & Hi%seqZ_bounds).
      do 6 right; left. exists i. split; [lia|]. unwrap. tuple_eq.
    + apply list_elem_of_singleton in Ht as ->. do 7 right. unwrap. tuple_eq.
Qed.

Ltac use H :=
  eexists; split; [exact H|]; unfold edges; cbn [fst snd]; first_of_list.

(** Every directed edge of a triangle is, reversed, an edge of a triangle. *)
Lemma edge_partner (t : triangle) (e : Z * Z) :
  t ∈ triangles L lat -> e ∈ edges t ->
  exists t', t' ∈ triangles L lat /\ (e.2, e.1) ∈ edges t'.
Proof using HL Hlat H2L H2 Hfit.
  intros Ht He. apply triangles_shapes in Ht.
  assert (HV : L <= L * (lat - 1)) by (unfold uint in *; nia).
  destruct Ht as [(i & Hi & ->)|[->|[(b & i & Hb & Hi & ->)|[(b & i & Hb & Hi & ->)|
                 [(b & Hb & ->)|[(b & Hb & ->)|[(i & Hi & ->)| ->]]]]]]];
    unfold edges in He; cbn [fst snd] in He;
    repeat (apply elem_of_cons in He as [->|He]); try (inversion He; fail);
    cbn [fst snd].
  - (* north fan, 0 -> i + 1 *)
    destruct (Z.eq_dec i (L - 1));
      first [ use (in_north_regular (i + 1) _ ltac:(lia) eq_refl)
            | use (in_north_closing _ eq_refl) ].
  - (* north fan, i + 1 -> i *)
    destruct (Z.eq_dec lat 2);
      first [ use (in_quad_upper 0 i _ ltac:(lia) ltac:(lia) eq_refl)
            | use (in_south_regular (L - i) _ ltac:(lia) eq_refl) ].
  - (* north fan, i -> 0 *)
    destruct (Z.eq_dec i 1);
      first [ use (in_north_regular (i - 1) _ ltac:(lia) eq_refl)
            | use (in_north_closing _ eq_refl) ].
  - use (in_north_regular 1 _ ltac:(lia) eq_refl).
  - destruct (Z.eq_dec lat 2);
      first [ use (in_closing_upper 0 _ ltac:(lia) eq_refl)
            | use (in_south_closing _ eq_refl) ].
  - use (in_north_regular (L - 1) _ ltac:(lia) eq_refl).
  - (* upper triangle of a quad *)
    destruct (Z.eq_dec b 0);
      first [ use (in_north_regular i _ ltac:(lia) eq_refl)
            | use (in_quad_lower (b - 1) i _ ltac:(lia) ltac:(lia) eq_refl) ].
  - use (in_quad_lower b i _ ltac:(lia) ltac:(lia) eq_refl).
  - destruct (Z.eq_dec i 1);
      first [ use (in_quad_lower b (i - 1) _ ltac:(lia) ltac:(lia) eq_refl)
            | use (in_closing_upper b _ ltac:(lia) eq_refl) ].
  - (* lower triangle of a quad *)
    destruct (Z.eq_dec i (L - 1));
      first [ use (in_quad_upper b (i + 1) _ ltac:(lia) ltac:(lia) eq_refl)
            | use (in_closing_lower b _ ltac:(lia) eq_refl) ].
  - destruct (Z.eq_dec b (lat - 3));
      first [ use (in_quad_upper (b + 1) i _ ltac:(lia) ltac:(lia) eq_refl)
            | use (in_south_regular (L - i) _ ltac:(lia) eq_refl) ].
  - use (in_quad_upper b i _ ltac:(lia) ltac:(lia) eq_refl).
  - (* upper triangle of the closing quad *)
    use (in_quad_upper b 1 _ ltac:(lia) ltac:(lia) eq_refl).
  - use (in_closing_lower b _ ltac:(lia) eq_refl).
  - destruct (Z.eq_dec b 0);
      first [ use (in_north_closing _ eq_refl)
            | use (in_closing_lower (b - 1) _ ltac:(lia) eq_refl) ].
  - (* lower triangle of the closing quad *)
    use (in_closing_upper b _ ltac:(lia) eq_refl).
  - destruct (Z.eq_dec b (lat - 3));
      first [ use (in_closing_upper (b + 1) _ ltac:(lia) eq_refl)
            | use (in_south_closing _ eq_refl) ].
  - use (in_quad_lower b (L - 1) _ ltac:(lia) ltac:(lia) eq_refl).
  - (* south fan *)
    destruct (Z.eq_dec i (L - 1));
      first [ use (in_south_regular (i + 1) _ ltac:(lia) eq_refl)
            | use (in_south_closing _ eq_refl) ].
  - destruct (Z.eq_dec lat 2);
      first [ use (in_north_regular (L - i) _ ltac:(lia) eq_refl)
            | use (in_quad_lower (lat - 3) (L - i) _ ltac:(lia) ltac:(lia) eq_refl) ].
  - destruct (Z.eq_dec i 1);
      first [ use (in_south_regular (i - 1) _ ltac:(lia) eq_refl)
            | use (in_south_closing _ eq_refl) ].
  - use (in_south_regular 1 _ ltac:(lia) eq_refl).
  - destruct (Z.eq_dec lat 2);
      first [ use (in_north_closing _ eq_refl)
            | use (in_closing_lower (lat - 3) _ ltac:(lia) eq_refl) ].
  - use (in_south_regular (L - 1) _ ltac:(lia) eq_refl).
Qed.
End Edges.

(** X8.  Every directed edge has its reverse: when [a -> b] is an edge of a
    triple of the index list, taken in its winding order, [b -> a] is an
    edge of a triple of the index list. *)
Theorem edges_paired (L lat a b : Z) :
  uint L -> uint lat -> 2 <= L -> 2 <= lat -> L * (lat - 1) + 1 < 2 ^ 32 ->
  (a, b) ∈ triples (set_indices L lat []) ≫= edges ->
  (b, a) ∈ triples (set_indices L lat []) ≫= edges.
Proof.
  intros HL Hlat H2L H2 Hfit. rewrite set_indices_triangles. cbn [app].
  rewrite triples_flat3. intros Hin.
  apply list_elem_of_bind in Hin as (t & He & Ht).
  destruct (edge_partner L lat HL Hlat H2L H2 Hfit t (a, b) Ht He) as (t' & Ht' & He').
  apply list_elem_of_bind. exists t'. split; assumption.
Qed.

Lemma edges_paired_witness :
  (2, 1) ∈ triples (set_indices 3 3 []) ≫= edges.
Proof.
  apply (edges_paired 3 3 1 2); try (unfold uint; lia).
  vm_compute. repeat first [apply list_elem_of_here | apply list_elem_of_further].
Defined.

(** * Further properties of the vertex passes *)

(** ** More on vector accesses *)

Section VecMore.
Context {A : Type}.

Lemma vec_get_lookup (v : list A) (i : nat) : vec_get v (Z.of_nat i) = v !! i.
Proof.
  unfold vec_get.
  destruct (Z.leb_spec 0 (Z.of_nat i)); [|lia].
  destruct (Z.ltb_spec (Z.of_nat i) (Z.of_nat (length v))); cbn.
  - rewrite Nat2Z.id. reflexivity.
  - symmetry. apply lookup_ge_None. lia.
Qed.

(** Two vectors that answer every read alike are the same vector. *)
Lemma vec_ext (v w : list A) :
  (forall m, vec_get v m = vec_get w m) -> v = w.
Proof.
  intros Hvw. apply list_eq. intros i. rewrite <- !vec_get_lookup. apply Hvw.
Qed.

Lemma vec_get_Some (v : list A) (i : Z) :
  0 <= i < Z.of_nat (length v) -> exists x, vec_get v i = Some x.
Proof.
  intros Hi. unfold vec_get.
  destruct (Z.leb_spec 0 i), (Z.ltb_spec i (Z.of_nat (length v))); cbn; try lia.
  apply lookup_lt_is_Some. lia.
Qed.

Lemma vec_get_None (v : list A) (i : Z) :
  ~ 0 <= i < Z.of_nat (length v) -> vec_get v i = None.
Proof.
  intros Hi. unfold vec_get.
  destruct (Z.leb_spec 0 i), (Z.ltb_spec i (Z.of_nat (length v))); cbn; try lia; reflexivity.
Qed.

Lemma vec_get3_Some (v : list A) (i0 i1 i2 : Z) :
  0 <= i0 < Z.of_nat (length v) ->
  0 <= i1 < Z.of_nat (length v) ->
  0 <= i2 < Z.of_nat (length v) ->
  exists p, vec_get3 v i0 i1 i2 = Some p.
Proof.
  intros H0 H1 H2. unfold vec_get3.
  destruct (vec_get_Some v i0 H0) as [x ->], (vec_get_Some v i1 H1) as [y ->],
    (vec_get_Some v i2 H2) as [z ->].
  cbn. eexists. reflexivity.
Qed.
End VecMore.

Section Normals.
Context {F : Type} `{FloatOps F}.

Lemma set_normals_run (n : Z) (v : list F) :
  0 <= n -> 6 * n <= Z.of_nat (length v) -> 6 * n < 2 ^ 32 ->
  exists w, set_normals n v = Some w /\ normals_done v n w.
Proof.
  intros Hn0 Hlen Hfit. unfold set_normals. apply for_rangeM_total.
  - lia.
  - split; [reflexivity|]. split; [reflexivity|]. intros k Hk. lia.
  - intros i w Hi (Hl & Hfr & Hdone). unfold m_n_coords.
    rewrite (wrap32_small (6 * i)) by lia.
    assert (E1 : uadd (6 * i) 1 = 6 * i + 1) by (unwrap; reflexivity).
    assert (E2 : uadd (6 * i) 2 = 6 * i + 2) by (unwrap; reflexivity).
    assert (E3 : uadd (6 * i) 3 = 6 * i + 3) by (unwrap; reflexivity).
    assert (E4 : uadd (6 * i) 4 = 6 * i + 4) by (unwrap; reflexivity).
    assert (E5 : uadd (6 * i) 5 = 6 * i + 5) by (unwrap; reflexivity).
    rewrite E1, E2, E3, E4, E5.
    destruct (vec_get3_Some v (6 * i) (6 * i + 1) (6 * i + 2)) as [p Hp]; try lia.
    assert (Hpw : vec_get3 w (6 * i) (6 * i + 1) (6 * i + 2) = Some p).
    { rewrite <- Hp. unfold vec_get3.
      rewrite !Hfr by (right; right; unfold normal_slot; Z.div_mod_to_equations; lia).
      reflexivity. }
    rewrite Hpw. cbn [mbind option_bind].
    destruct (vec_set3_Some w (6 * i + 3) (6 * i + 4) (6 * i + 5) (normalize p))
      as (w' & Hset & Hlen' & Hget & Hoth); try lia.
    exists w'. split; [exact Hset|]. split; [lia|]. split.
    + intros m Hm. rewrite Hoth.
      * apply Hfr. destruct Hm as [Hm|[Hm|Hm]]; auto. right; left; lia.
      * destruct Hm as [Hm|[Hm|Hm]]; try lia.
        unfold normal_slot in Hm. Z.div_mod_to_equations; lia.
      * destruct Hm as [Hm|[Hm|Hm]]; try lia.
        unfold normal_slot in Hm. Z.div_mod_to_equations; lia.
      * destruct Hm as [Hm|[Hm|Hm]]; try lia.
        unfold normal_slot in Hm. Z.div_mod_to_equations; lia.
    + intros k Hk. destruct (Z.eq_dec k i) as [->|Hne].
      * exists p. split; [exact Hp|exact Hget].
      * destruct (Hdone k ltac:(lia)) as (q & Hq & Hnq). exists q. split; [exact Hq|].
        unfold normal_at.
        rewrite (vec_get3_other w w' (6 * i + 3) (6 * i + 4) (6 * i + 5))
          by (exact Hoth || lia).
        exact Hnq.
Qed.

Lemma normals_done_positions (v w : list F) (n k : Z) :
  normals_done v n w -> position_at w k = position_at v k.
Proof.
  intros (_ & Hfr & _). unfold position_at, vec_get3.
  rewrite !Hfr by (right; right; unfold normal_slot; Z.div_mod_to_equations; lia).
  reflexivity.
Qed.

(** [set_normals] that completes stayed inside the buffer. *)
Lemma set_normals_inv (n : Z) (v w : list F) :
  0 <= n -> 6 * n < 2 ^ 32 ->
  set_normals n v = Some w -> n = 0 \/ 6 * n <= Z.of_nat (length v).
Proof.
  intros Hn0 Hfit Hrun. unfold set_normals in Hrun.
  apply (for_rangeM_partial
           (fun i u => length u = length v /\ (i = 0 \/ 6 * i <= Z.of_nat (length v))))
    in Hrun.
  - destruct Hrun as [_ Hr]. exact Hr.
  - lia.
  - split; [reflexivity|left; reflexivity].
  - intros i u u' Hi [Hl _] Hbody. unfold m_n_coords in Hbody.
    rewrite (wrap32_small (6 * i)) in Hbody by lia.
    destruct (vec_get3 u (6 * i) (uadd (6 * i) 1) (uadd (6 * i) 2)) as [p|];
      [|discriminate].
    cbn [mbind option_bind] in Hbody.
    apply vec_set3_inv in Hbody as (_ & _ & H5 & Hl').
    assert (E5 : uadd (6 * i) 5 = 6 * i + 5) by (unwrap; reflexivity).
    rewrite E5 in H5. split; [congruence|]. right. lia.
Qed.
End Normals.

Section NormalsThms.
Context {F : Type} `{FloatOps F}.

(** X9.  On any buffer with room for [n] records, whatever it holds,
    [set_normals] stores in floats 3..5 of each record the normalization
    of the position it finds in floats 0..2; it keeps every position, the
    size of the buffer and every float after the [n] records. *)
Theorem set_normals_any_buffer (n : Z) (v : list F) :
  0 <= n -> 6 * n <= Z.of_nat (length v) -> 6 * n < 2 ^ 32 ->
  exists w,
    set_normals n v = Some w /\
    length w = length v /\
    (forall k, 0 <= k < n ->
       exists p, position_at v k = Some p /\
                 position_at w k = Some p /\
                 normal_at w k = Some (normalize p)) /\
    (forall m, m < 0 \/ 6 * n <= m \/ ~ normal_slot m -> vec_get w m = vec_get v m).
Proof.
  intros Hn0 Hlen Hfit.
  destruct (set_normals_run n v Hn0 Hlen Hfit) as (w & Hw & Hdone).
  exists w. split; [exact Hw|].
  pose proof (normals_done_positions v w n) as Hpos.
  destruct Hdone as (Hl & Hfr & Hnor).
  split; [exact Hl|]. split; [|exact Hfr].
  intros k Hk. destruct (Hnor k Hk) as (p & Hp & Hq).
  exists p. split; [exact Hp|]. split; [|exact Hq].
  rewrite Hpos; [exact Hp|]. repeat split; assumption.
Qed.

(** X10.  [set_normals] reads only positions and writes only normals: a
    second run on the buffer of the first gives that buffer again. *)
Theorem set_normals_idempotent (n : Z) (v : list F) :
  0 <= n -> 6 * n <= Z.of_nat (length v) -> 6 * n < 2 ^ 32 ->
  exists w, set_normals n v = Some w /\ set_normals n w = Some w.
Proof.
  intros Hn0 Hlen Hfit.
  destruct (set_normals_run n v Hn0 Hlen Hfit) as (w & Hw & Hdone).
  exists w. split; [exact Hw|].
  pose proof (normals_done_positions v w n) as Hpos.
  destruct (Hdone) as (Hl & Hfr & Hnor).
  destruct (set_normals_run n w Hn0 ltac:(lia) Hfit) as (w' & Hw' & (Hl' & Hfr' & Hnor')).
  rewrite Hw'. f_equal. apply vec_ext. intros m.
  destruct (Z_lt_ge_dec m 0) as [Hneg|Hpos0]; [apply Hfr'; lia|].
  destruct (Z_le_gt_dec (6 * n) m) as [Hbig|Hsmall]; [apply Hfr'; lia|].
  destruct (Z_lt_ge_dec (m mod 6) 3) as [Hp|Hns].
  { apply Hfr'. right; right. unfold normal_slot. lia. }
  (* a coordinate of the normal of vertex [m / 6] *)
  assert (Hk : 0 <= m / 6 < n) by (Z.div_mod_to_equations; lia).
  assert (Hm : m = 6 * (m / 6) + 3 \/ m = 6 * (m / 6) + 4 \/ m = 6 * (m / 6) + 5)
    by (Z.div_mod_to_equations; lia).
  remember (m / 6) as k eqn:Ek. clear Ek.
  destruct (Hnor k Hk) as (p & Hp & Hq).
  destruct (Hnor' k Hk) as (p' & Hp' & Hq').
  rewrite Hpos in Hp' by (repeat split; assumption). rewrite Hp in Hp'. injection Hp' as <-.
  unfold normal_at in Hq, Hq'.
  apply vec_get3_inv in Hq as (Ha & Hb & Hc), Hq' as (Ha' & Hb' & Hc').
  destruct Hm as [-> | [-> | ->]]; congruence.
Qed.

(** X11.  For at least one vertex, [set_normals] leaves the buffer exactly
    when the buffer has fewer than [6 * n] floats. *)
Theorem set_normals_bounds (n : Z) (v : list F) :
  1 <= n -> 6 * n < 2 ^ 32 ->
  (set_normals n v = None <-> Z.of_nat (length v) < 6 * n).
Proof.
  intros Hn Hfit. split.
  - intros Hnone. destruct (Z_lt_ge_dec (Z.of_nat (length v)) (6 * n)) as [Hlt|Hge];
      [exact Hlt|].
    destruct (set_normals_run n v ltac:(lia) ltac:(lia) Hfit) as (w & Hw & _). congruence.
  - intros Hlt. destruct (set_normals n v) as [w|] eqn:Hrun; [|reflexivity].
    apply set_normals_inv in Hrun; lia.
Qed.
End NormalsThms.

Lemma set_normals_any_buffer_witness :
  exists w,
    set_normals 2 [3; 0; 4; 9; 9; 9; 0; 2; 0; 9; 9; 9]%R = Some w /\
    length w = length [3; 0; 4; 9; 9; 9; 0; 2; 0; 9; 9; 9]%R /\
    (forall k, 0 <= k < 2 ->
       exists p, position_at [3; 0; 4; 9; 9; 9; 0; 2; 0; 9; 9; 9]%R k = Some p /\
                 position_at w k = Some p /\
                 normal_at w k = Some (normalize p)) /\
    (forall m, m < 0 \/ 6 * 2 <= m \/ ~ normal_slot m ->
       vec_get w m = vec_get [3; 0; 4; 9; 9; 9; 0; 2; 0; 9; 9; 9]%R m).
Proof. apply set_normals_any_buffer; cbn [length]; lia. Defined.

Lemma set_normals_idempotent_witness :
  exists w, set_normals 2 [3; 0; 4; 9; 9; 9; 0; 2; 0; 9; 9; 9]%R = Some w /\
            set_normals 2 w = Some w.
Proof. apply set_normals_idempotent; cbn [length]; lia. Defined.

Lemma set_normals_bounds_witness :
  set_normals 2 [3; 0; 4; 9; 9; 9; 0; 2; 0; 9; 9]%R = None
  <-> Z.of_nat (length [3; 0; 4; 9; 9; 9; 0; 2; 0; 9; 9]%R) < 6 * 2.
Proof. apply set_normals_bounds; lia. Defined.

Section Vertexes.
Context {F : Type} `{FloatOps F}.
Variables (radius : F) (L lat : Z).
Hypothesis HL : uint L.
Hypothesis Hlat : uint lat.
Hypothesis H1 : 1 <= lat.
Hypothesis Hfit : fits L lat.

Lemma store_vertex_any (v0 : list F) (n : Z) (p : F * F * F) (i_coord : Z) (v : list F) :
  6 * vertex_count L lat - 3 <= Z.of_nat (length v0) ->
  0 <= n < vertex_count L lat -> positions_done radius L lat v0 n (i_coord, v) ->
  vertex_position radius L lat n = p ->
  exists v',
    vec_set3 v i_coord (uadd i_coord 1) (uadd i_coord 2) p = Some v' /\
    positions_done radius L lat v0 (n + 1) (uadd i_coord m_n_coords, v').
Proof using Hfit.
  intros Hroom Hn (Hi & Hlen & Hpos & Hfr) Hp. cbn [fst snd] in *. subst i_coord.
  unfold fits, m_n_coords in *.
  assert (E1 : uadd (6 * n) 1 = 6 * n + 1) by (unwrap; reflexivity).
  assert (E2 : uadd (6 * n) 2 = 6 * n + 2) by (unwrap; reflexivity).
  assert (E6 : uadd (6 * n) 6 = 6 * (n + 1)) by (unwrap; lia).
  rewrite E1, E2, E6.
  destruct (vec_set3_Some v (6 * n) (6 * n + 1) (6 * n + 2) p)
    as (v' & Hset & Hlen' & Hget & Hoth); try lia.
  exists v'. split; [exact Hset|]. split; [reflexivity|]. cbn [fst snd].
  split; [lia|]. split.
  - intros m Hm. destruct (Z.eq_dec m n) as [->|Hne].
    + unfold position_at. rewrite Hget, Hp. reflexivity.
    + unfold position_at.
      rewrite (vec_get3_other v v' (6 * n) (6 * n + 1) (6 * n + 2)) by (exact Hoth || lia).
      apply Hpos. lia.
  - intros m Hm. rewrite Hoth.
    + apply Hfr. destruct Hm as [Hm|[Hm|Hm]]; auto. right; left; lia.
    + destruct Hm as [Hm|[Hm|Hm]]; try lia.
      unfold normal_slot in Hm. Z.div_mod_to_equations; lia.
    + destruct Hm as [Hm|[Hm|Hm]]; try lia.
      unfold normal_slot in Hm. Z.div_mod_to_equations; lia.
    + destruct Hm as [Hm|[Hm|Hm]]; try lia.
      unfold normal_slot in Hm. Z.div_mod_to_equations; lia.
Qed.

Lemma set_vertexes_run (v0 : list F) :
  6 * vertex_count L lat - 3 <= Z.of_nat (length v0) ->
  exists v1,
    set_vertexes radius L lat v0 = Some v1 /\
    length v1 = length v0 /\
    (forall n, 0 <= n < vertex_count L lat ->
       position_at v1 n = Some (vertex_position radius L lat n)) /\
    (forall m, m < 0 \/ 6 * vertex_count L lat - 3 <= m \/ normal_slot m ->
       vec_get v1 m = vec_get v0 m).
Proof using HL Hlat H1 Hfit.
  intros Hroom. pose proof (vertex_count_ge L lat HL H1) as HV. unfold uint in *.
  assert (HLV : 0 <= L * (lat - 1)) by nia.
  unfold set_vertexes.
  (* north pole *)
  destruct (store_vertex_any v0 0 (f_zero, radius, f_zero) 0 v0) as (va & Hva & Ha);
    [exact Hroom | lia
    | split; [reflexivity | split; [reflexivity | split; [intros; lia | reflexivity]]]
    | reflexivity |].
  change (uadd 0 1) with 1 in Hva. change (uadd 0 2) with 2 in Hva.
  change (uadd 0 m_n_coords) with m_n_coords in Ha. change (0 + 1) with 1 in Ha.
  rewrite Hva. cbn [mbind option_bind].
  (* rings *)
  destruct (for_rangeM_total
              (fun i_lat st => positions_done radius L lat v0 (1 + (i_lat - 1) * L) st) 1 lat
              (fun i_lat st =>
                 for_rangeM 0 L
                   (fun i_lon st =>
                      let '(i_coord, v) := st in
                      v ← vec_set3 v i_coord (uadd i_coord 1) (uadd i_coord 2)
                            (ring_position radius L lat i_lat i_lon);
                      Some (uadd i_coord m_n_coords, v)) st)
              (m_n_coords, va)) as (st & Hst & Hrings).
  { lia. }
  { replace (1 + (1 - 1) * L) with 1 by lia. exact Ha. }
  { intros i_lat st Hi Hin.
    destruct (for_rangeM_total
                (fun i_lon st => positions_done radius L lat v0 (1 + (i_lat - 1) * L + i_lon) st) 0 L
                (fun i_lon st =>
                   let '(i_coord, v) := st in
                   v ← vec_set3 v i_coord (uadd i_coord 1) (uadd i_coord 2)
                         (ring_position radius L lat i_lat i_lon);
                   Some (uadd i_coord m_n_coords, v)) st) as (st' & Hst' & Hring).
    - lia.
    - replace (1 + (i_lat - 1) * L + 0) with (1 + (i_lat - 1) * L) by lia. exact Hin.
    - intros i_lon [i_coord v] Hj Hs.
      pose proof (ring_index_range L lat i_lat i_lon ltac:(lia) Hj) as Hr.
      destruct (store_vertex_any v0 (1 + (i_lat - 1) * L + i_lon)
                  (ring_position radius L lat i_lat i_lon) i_coord v)
        as (v' & Hv' & Hs'); [exact Hroom | lia | exact Hs | apply vertex_position_ring; lia |].
      rewrite Hv'. cbn [mbind option_bind]. eexists. split; [reflexivity|].
      replace (1 + (i_lat - 1) * L + (i_lon + 1))
        with (1 + (i_lat - 1) * L + i_lon + 1) by lia. exact Hs'.
    - exists st'. split; [exact Hst'|].
      replace (1 + (i_lat + 1 - 1) * L) with (1 + (i_lat - 1) * L + L) by lia.
      exact Hring. }
  rewrite Hst. cbn [mbind option_bind]. destruct st as [i_coord v].
  (* south pole *)
  assert (Hlastn : 1 + (lat - 1) * L = vertex_count L lat - 1) by (unfold vertex_count; lia).
  rewrite Hlastn in Hrings.
  destruct (store_vertex_any v0 (vertex_count L lat - 1) (f_zero, f_opp radius, f_zero) i_coord v)
    as (v1 & Hv1 & Hs1); [exact Hroom | lia | exact Hrings | |].
  { unfold vertex_position.
    destruct (Z.eqb_spec (vertex_count L lat - 1) 0); [lia|]. rewrite Z.eqb_refl. reflexivity. }
  exists v1. split; [exact Hv1|]. destruct Hs1 as (_ & Hl1 & Hp1 & Hf1). cbn [fst snd] in *.
  split; [exact Hl1|]. split.
  - intros n Hn. apply Hp1. lia.
  - intros m Hm. apply Hf1. destruct Hm as [Hm|[Hm|Hm]]; auto.
    destruct (Z_le_gt_dec (6 * (vertex_count L lat - 1 + 1)) m); [auto|].
    right; right. unfold normal_slot. Z.div_mod_to_equations; lia.
Qed.
End Vertexes.

(** X12.  On any buffer with room for the vertices, [set_vertexes] keeps
    the size of the buffer, stores the position of every vertex in floats
    0..2 of its record, and changes nothing else: the normal of every
    record and every float after the records are as before. *)
Theorem set_vertexes_keeps_normals {F : Type} `{FloatOps F} (radius : F) (L lat : Z)
    (v0 : list F) :
  uint L -> uint lat -> 1 <= lat ->
  6 * (2 + L * (lat - 1)) < 2 ^ 32 ->
  6 * (2 + L * (lat - 1)) - 3 <= Z.of_nat (length v0) ->
  exists v1,
    set_vertexes radius L lat v0 = Some v1 /\
    length v1 = length v0 /\
    (forall n, 0 <= n < 2 + L * (lat - 1) ->
       position_at v1 n = Some (vertex_position radius L lat n)) /\
    (forall n, normal_at v1 n = normal_at v0 n) /\
    (forall m, 6 * (2 + L * (lat - 1)) - 3 <= m -> vec_get v1 m = vec_get v0 m).
Proof.
  intros HL Hlat H1 Hfit Hroom.
  destruct (set_vertexes_run radius L lat HL Hlat H1 Hfit v0 Hroom)
    as (v1 & Hv1 & Hlen & Hpos & Hfr).
  exists v1. split; [exact Hv1|]. split; [exact Hlen|]. split; [exact Hpos|]. split.
  - intros n. unfold normal_at, vec_get3.
    rewrite !Hfr by (right; right; unfold normal_slot; Z.div_mod_to_equations; lia).
    reflexivity.
  - intros m Hm. apply Hfr. right; left. exact Hm.
Qed.

(** X13.  [set_vertexes] leaves the buffer exactly when the buffer has fewer
    than [6 * vertexCount - 3] floats: its last store is the third
    coordinate of the south pole, and it needs nothing after it. *)
Theorem set_vertexes_room {F : Type} `{FloatOps F} (radius : F) (L lat : Z) (v0 : list F) :
  uint L -> uint lat -> 1 <= lat ->
  6 * (2 + L * (lat - 1)) < 2 ^ 32 ->
  (set_vertexes radius L lat v0 = None
   <-> Z.of_nat (length v0) < 6 * (2 + L * (lat - 1)) - 3).
Proof.
  intros HL Hlat H1 Hfit. split.
  - intros Hnone.
    destruct (Z_lt_ge_dec (Z.of_nat (length v0)) (6 * (2 + L * (lat - 1)) - 3)) as [Hlt|Hge];
      [exact Hlt|].
    destruct (set_vertexes_run radius L lat HL Hlat H1 Hfit v0 ltac:(unfold vertex_count; lia))
      as (v1 & Hv1 & _). congruence.
  - intros Hlt. destruct (set_vertexes radius L lat v0) as [v1|] eqn:Hrun; [|reflexivity].
    apply (set_vertexes_inv radius L lat HL Hlat H1 (Z.of_nat (length v0))) in Hrun;
      unfold vertex_count in *; lia.
Qed.

(** X14.  [set_vertexes] overwrites what it wrote with the same values: a
    second run on the buffer of the first gives that buffer again. *)
Theorem set_vertexes_idempotent {F : Type} `{FloatOps F} (radius : F) (L lat : Z)
    (v0 : list F) :
  uint L -> uint lat -> 1 <= lat ->
  6 * (2 + L * (lat - 1)) < 2 ^ 32 ->
  6 * (2 + L * (lat - 1)) - 3 <= Z.of_nat (length v0) ->
  exists v1,
    set_vertexes radius L lat v0 = Some v1 /\ set_vertexes radius L lat v1 = Some v1.
Proof.
  intros HL Hlat H1 Hfit Hroom.
  destruct (set_vertexes_run radius L lat HL Hlat H1 Hfit v0 Hroom)
    as (v1 & Hv1 & Hlen & Hpos & Hfr).
  exists v1. split; [exact Hv1|].
  destruct (set_vertexes_run radius L lat HL Hlat H1 Hfit v1
              ltac:(unfold vertex_count; lia))
    as (v2 & Hv2 & Hlen2 & Hpos2 & Hfr2).
  rewrite Hv2. f_equal. apply vec_ext. intros m.
  destruct (Z_lt_ge_dec m 0) as [Hneg|Hpos0]; [apply Hfr2; lia|].
  destruct (Z_le_gt_dec (6 * vertex_count L lat - 3) m) as [Hbig|Hsmall];
    [apply Hfr2; lia|].
  destruct (Z_le_gt_dec 3 (m mod 6)) as [Hns|Hp]; [apply Hfr2; auto|].
  assert (Hk : 0 <= m / 6 < vertex_count L lat) by (Z.div_mod_to_equations; lia).
  assert (Hm : m = 6 * (m / 6) \/ m = 6 * (m / 6) + 1 \/ m = 6 * (m / 6) + 2)
    by (Z.div_mod_to_equations; lia).
  remember (m / 6) as k eqn:Ek. clear Ek.
  pose proof (Hpos k Hk) as Hq. pose proof (Hpos2 k Hk) as Hq2.
  unfold position_at in Hq, Hq2.
  apply vec_get3_inv in Hq as (Ha & Hb & Hc), Hq2 as (Ha' & Hb' & Hc').
  destruct Hm as [-> | [-> | ->]]; congruence.
Qed.

Lemma set_vertexes_keeps_normals_witness :
  exists v1,
    set_vertexes 2%R 3 2 (replicate 30 7%R) = Some v1 /\
    length v1 = length (replicate 30 7%R) /\
    (forall n, 0 <= n < 2 + 3 * (2 - 1) ->
       position_at v1 n = Some (vertex_position 2%R 3 2 n)) /\
    (forall n, normal_at v1 n = normal_at (replicate 30 7%R) n) /\
    (forall m, 6 * (2 + 3 * (2 - 1)) - 3 <= m ->
       vec_get v1 m = vec_get (replicate 30 7%R) m).
Proof. apply set_vertexes_keeps_normals; rewrite ?length_replicate; unfold uint; lia. Defined.

Lemma set_vertexes_room_witness :
  set_vertexes 2%R 3 2 (replicate 26 0%R) = None
  <-> Z.of_nat (length (replicate 26 0%R)) < 6 * (2 + 3 * (2 - 1)) - 3.
Proof. apply set_vertexes_room; unfold uint; lia. Defined.

Lemma set_vertexes_idempotent_witness :
  exists v1,
    set_vertexes 2%R 3 2 (replicate 30 7%R) = Some v1 /\ set_vertexes 2%R 3 2 v1 = Some v1.
Proof. apply set_vertexes_idempotent; rewrite ?length_replicate; unfold uint; lia. Defined.

(** * The constructor on inputs of [main] and on edge inputs *)

(** X15.  With [latitudeCount = 1] the constructor completes exactly when
    the vector can hold [6 * max(longitudeCount, 1) * 2^32] indices, and
    whenever it completes the index list has that many entries, a multiple
    of [2^32]: [get_n_elements], which returns the size as an
    [unsigned int], returns 0. *)
Theorem one_latitude_no_elements {F : Type} `{FloatOps F} (radius : F) (L room : Z) :
  uint L ->
  (6 * Z.max L 1 * 2 ^ 32 <= Z.min room vector_max_size ->
   exists s, Sphere_new_within room radius L 1 = Some s) /\
  (forall s, Sphere_new_within room radius L 1 = Some s ->
     Z.of_nat (length (m_indices s)) = 6 * Z.max L 1 * 2 ^ 32 /\
     get_n_elements s = 0) /\
  (Z.min room vector_max_size < 6 * Z.max L 1 * 2 ^ 32 ->
   Sphere_new_within room radius L 1 = None).
Proof.
  intros HL.
  assert (Hcount : 6 * Z.max L 1 * (1 + usub 1 2) = 6 * Z.max L 1 * 2 ^ 32)
    by (change (usub 1 2) with 4294967295; lia).
  assert (Hfit : fits L 1) by (unfold fits, vertex_count, m_n_coords; lia).
  destruct (Sphere_new_total radius L 1 HL ltac:(unfold uint; lia) ltac:(lia) Hfit)
    as (s0 & Hs0 & _ & _ & _ & _ & Hidx & _).
  split; [|split].
  - intros Hroom. exists s0.
    rewrite Sphere_new_within_room by (rewrite Hcount; exact Hroom). exact Hs0.
  - intros s Hs.
    destruct (Z_le_gt_dec (6 * Z.max L 1 * 2 ^ 32) (Z.min room vector_max_size))
      as [Hroom|Hroom].
    + rewrite Sphere_new_within_room in Hs by (rewrite Hcount; exact Hroom).
      rewrite Hs0 in Hs. injection Hs as <-.
      assert (Hlen : Z.of_nat (length (m_indices s0)) = 6 * Z.max L 1 * 2 ^ 32)
        by (rewrite Hidx, length_set_indices_any; exact Hcount).
      split; [exact Hlen|].
      unfold get_n_elements, wrap32. rewrite Hlen. apply Z.mod_mul. lia.
    + rewrite Sphere_new_within_throws in Hs by (rewrite Hcount; lia). discriminate.
  - intros Hroom. apply Sphere_new_within_throws. rewrite Hcount. exact Hroom.
Qed.

Lemma one_latitude_no_elements_witness :
  exists s,
    Sphere_new_within (2 ^ 40) 1%R 1 1 = Some s /\
    Z.of_nat (length (m_indices s)) = 6 * Z.max 1 1 * 2 ^ 32 /\
    get_n_elements s = 0.
Proof.
  assert (HL : uint 1) by (unfold uint; lia).
  pose proof (one_latitude_no_elements 1%R 1 (2 ^ 40) HL) as (Hroom & Hall & _).
  destruct Hroom as (s & Hs); [unfold vector_max_size; lia|].
  exists s. split; [exact Hs|]. apply Hall. exact Hs.
Defined.

(** X16.  The sphere [main] builds, [Sphere(1.0, 32, 32)], is built inside
    its buffer, whatever the C library computes for [cos] and [sin]: 994
    vertices, 5964 floats, 5952 indices, all below 994; the poles are at
    (0, 1, 0) and (0, -1, 0) and these are their normals, exactly. *)
Theorem demo_sphere (cosf sinf : binary32 -> binary32) :
  exists s,
    Sphere_new (H := binary32_ops cosf sinf) b32_one 32 32 = Some s /\
    m_n_vertexes s = 994 /\
    Z.of_nat (length (get_vertexes s)) = 5964 /\
    get_n_elements s = 5952 /\
    Forall (fun i => 0 <= i < 994) (m_indices s) /\
    position_at (m_vertexes s) 0 = Some (b32_zero, b32_one, b32_zero) /\
    normal_at (m_vertexes s) 0 = Some (b32_zero, b32_one, b32_zero) /\
    position_at (m_vertexes s) 993 = Some (b32_zero, SFopp b32_one, b32_zero) /\
    normal_at (m_vertexes s) 993 = Some (b32_zero, SFopp b32_one, b32_zero).
Proof.
  assert (HL : uint 32) by (unfold uint; lia).
  destruct (Sphere_new_total (H := binary32_ops cosf sinf) b32_one 32 32 HL HL)
    as (s & Hs & Hb); [lia | unfold fits, vertex_count, m_n_coords; lia |].
  exists s. split; [exact Hs|].
  destruct (built_vertex _ _ _ _ 0 Hb) as [Hp0 Hn0]; [unfold vertex_count; lia|].
  destruct (built_vertex _ _ _ _ 993 Hb) as [Hp1 Hn1]; [unfold vertex_count; lia|].
  destruct Hb as (_ & _ & _ & Hnv & Hidx & Hlen & _).
  destruct pole_normals_radius_1 as [Hnorth Hsouth].
  split; [exact Hnv|]. split; [unfold get_vertexes, vertex_count in *; lia|].
  split; [unfold get_n_elements; rewrite Hidx, length_set_indices by lia; reflexivity|].
  split.
  { rewrite Hidx, set_indices_triangles. cbn [app].
    apply (flat3_below (2 + 32 * (32 - 1))), triangles_below; (assumption || lia). }
  split; [exact Hp0|]. split.
  { rewrite Hn0. apply (f_equal Some). exact Hnorth. }
  split; [exact Hp1|].
  rewrite Hn1. apply (f_equal Some). exact Hsouth.
Qed.



(** * Further geometry, in exact arithmetic *)

(** X18.  In exact arithmetic every vertex the constructor stores is on the
    sphere of the given radius around the origin, whatever the sign of the
    radius: [x^2 + y^2 + z^2 = radius^2]. *)
Theorem vertices_on_sphere (radius : R) (L lat : Z) :
  uint L -> uint lat -> 1 <= lat ->
  6 * (2 + L * (lat - 1)) < 2 ^ 32 ->
  exists s,
    Sphere_new radius L lat = Some s /\
    forall n, 0 <= n < 2 + L * (lat - 1) ->
    exists p, position_at (m_vertexes s) n = Some p /\
              (p.1.1 * p.1.1 + p.1.2 * p.1.2 + p.2 * p.2 = radius * radius)%R.
Proof.
  intros HL Hlat H1 Hfit.
  destruct (Sphere_new_total radius L lat HL Hlat H1 Hfit) as (s & Hs & Hb).
  exists s. split; [exact Hs|]. intros n Hn.
  destruct (built_vertex radius L lat s n Hb Hn) as [Hp _].
  exists (vertex_position radius L lat n). split; [exact Hp|].
  exact (real_position_radius radius L lat n).
Qed.

Lemma vertices_on_sphere_witness :
  exists s,
    Sphere_new (-3)%R 4 3 = Some s /\
    forall n, 0 <= n < 2 + 4 * (3 - 1) ->
    exists p, position_at (m_vertexes s) n = Some p /\
              (p.1.1 * p.1.1 + p.1.2 * p.1.2 + p.2 * p.2 = -3 * -3)%R.
Proof. apply (vertices_on_sphere (-3)%R 4 3); unfold uint; lia. Defined.

Section Heights.
Local Open Scope R_scope.

Lemma polar_range (lat k : Z) :
  (0 <= k <= lat)%Z -> (1 <= lat)%Z -> 0 <= polar lat k <= PI.
Proof.
  intros [Hk0 Hk1] Hlat. pose proof PI_RGT_0 as Hpi.
  apply IZR_le in Hk0, Hk1, Hlat.
  assert (Hinv : 0 < / IZR lat) by (apply Rinv_0_lt_compat; lra).
  assert (Hstep : 0 < PI / IZR lat) by (unfold Rdiv; apply Rmult_lt_0_compat; lra).
  unfold polar. split.
  - apply Rmult_le_pos; lra.
  - replace PI with (IZR lat * (PI / IZR lat)) at 2 by (field; lra).
    apply Rmult_le_compat_r; lra.
Qed.

Lemma polar_lt (lat k k' : Z) :
  (1 <= lat)%Z -> (k < k')%Z -> polar lat k < polar lat k'.
Proof.
  intros Hlat Hk. pose proof PI_RGT_0 as Hpi.
  apply IZR_le in Hlat. apply IZR_lt in Hk.
  assert (Hinv : 0 < / IZR lat) by (apply Rinv_0_lt_compat; lra).
  assert (Hstep : 0 < PI / IZR lat) by (unfold Rdiv; apply Rmult_lt_0_compat; lra).
  unfold polar. apply Rmult_lt_compat_r; assumption.
Qed.

(** The heights of the rings, poles included as rings 0 and
    [latitudeCount]: strictly decreasing. *)
Lemma height_decreasing (lat k k' : Z) :
  (1 <= lat)%Z -> (0 <= k)%Z -> (k < k')%Z -> (k' <= lat)%Z ->
  cos (polar lat k') < cos (polar lat k).
Proof.
  intros Hlat Hk0 Hkk Hk'.
  pose proof (polar_range lat k ltac:(lia) Hlat) as [? ?].
  pose proof (polar_range lat k' ltac:(lia) Hlat) as [? ?].
  apply cos_decreasing_1; try assumption. apply polar_lt; assumption.
Qed.
End Heights.

(** X19.  In exact arithmetic, for a radius above 0, the rings go down: the
    vertices of a ring are strictly below the north pole, strictly above
    the south pole, and strictly above every vertex of every later ring. *)
Theorem rings_descend (radius : R) (L lat : Z) :
  (0 < radius)%R -> uint L -> uint lat -> 1 <= lat ->
  6 * (2 + L * (lat - 1)) < 2 ^ 32 ->
  exists s,
    Sphere_new radius L lat = Some s /\
    forall k j, 1 <= k <= lat - 1 -> 0 <= j < L ->
    exists p,
      position_at (m_vertexes s) (1 + (k - 1) * L + j) = Some p /\
      (- radius < p.1.2 < radius)%R /\
      forall k' j', k < k' <= lat - 1 -> 0 <= j' < L ->
      exists p',
        position_at (m_vertexes s) (1 + (k' - 1) * L + j') = Some p' /\
        (p'.1.2 < p.1.2)%R.
Proof.
  intros Hr HL Hlat H1 Hfit.
  destruct (Sphere_new_total radius L lat HL Hlat H1 Hfit) as (s & Hs & Hb).
  exists s. split; [exact Hs|].
  assert (Hring : forall k j, 1 <= k <= lat - 1 -> 0 <= j < L ->
            position_at (m_vertexes s) (1 + (k - 1) * L + j)
            = Some (sph radius (azimuth L j) (polar lat k))).
  { intros k j Hk Hj. pose proof (ring_index_range L lat k j Hk Hj) as Hrange.
    destruct (built_vertex radius L lat s (1 + (k - 1) * L + j) Hb) as [Hp _]; [lia|].
    rewrite Hp, vertex_position_ring by assumption. reflexivity. }
  intros k j Hk Hj. eexists. split; [apply Hring; assumption|].
  unfold sph; cbn [fst snd]. split.
  - pose proof (height_decreasing lat 0 k ltac:(lia) ltac:(lia) ltac:(lia) ltac:(lia)) as Hn.
    pose proof (height_decreasing lat k lat ltac:(lia) ltac:(lia) ltac:(lia) ltac:(lia)) as Hso.
    assert (E0 : polar lat 0 = 0%R) by (unfold polar; lra).
    assert (E1 : polar lat lat = PI).
    { unfold polar. field. apply not_0_IZR. lia. }
    rewrite E0, cos_0 in Hn. rewrite E1, cos_PI in Hso. nra.
  - intros k' j' Hk' Hj'. eexists. split; [apply Hring; lia|].
    unfold sph; cbn [fst snd].
    apply Rmult_lt_compat_l; [exact Hr|].
    apply height_decreasing; lia.
Qed.

Lemma rings_descend_witness :
  exists s,
    Sphere_new 2%R 4 4 = Some s /\
    forall k j, 1 <= k <= 4 - 1 -> 0 <= j < 4 ->
    exists p,
      position_at (m_vertexes s) (1 + (k - 1) * 4 + j) = Some p /\
      (- 2 < p.1.2 < 2)%R /\
      forall k' j', k < k' <= 4 - 1 -> 0 <= j' < 4 ->
      exists p',
        position_at (m_vertexes s) (1 + (k' - 1) * 4 + j') = Some p' /\
        (p'.1.2 < p.1.2)%R.
Proof. apply (rings_descend 2%R 4 4); [lra | unfold uint; lia ..]. Defined.

(** ** A radius below 0 *)

Lemma vertex_position_opp (radius : R) (L lat n : Z) :
  vertex_position (- radius)%R L lat n = vneg (vertex_position radius L lat n).
Proof.
  unfold vertex_position.
  destruct (n =? 0); [|destruct (n =? vertex_count L lat - 1)];
    unfold vneg, ring_position; float_ops; repeat f_equal; ring.
Qed.

Lemma inward_vneg (a b c : R * R * R) :
  outward a b c ->
  (dot (cross (vsub (vneg b) (vneg a)) (vsub (vneg c) (vneg a))) (vneg a) < 0)%R.
Proof.
  unfold outward, dot, cross, vsub, vneg. float_ops. intros Ho.
  match goal with |- (?l < 0)%R =>
    match type of Ho with (0 < ?r)%R => replace l with (- r)%R by ring end
  end.
  lra.
Qed.

(** X20.  A radius below 0 is not refused, and it turns the mesh inside
    out: in exact arithmetic every triple of the index list then names
    three vertices that turn clockwise when seen from outside. *)
Theorem negative_radius_inside_out (radius : R) (L lat : Z) :
  (radius < 0)%R -> uint L -> uint lat -> 3 <= L -> 2 <= lat ->
  6 * (2 + L * (lat - 1)) < 2 ^ 32 ->
  exists s,
    Sphere_new radius L lat = Some s /\
    Forall (wound_inward (m_vertexes s)) (triples (m_indices s)).
Proof.
  intros Hr HL Hlat H3 H2 Hfit.
  destruct (Sphere_new_total radius L lat HL Hlat ltac:(lia) Hfit) as (s & Hs & Hb).
  destruct (Sphere_new_total (- radius)%R L lat HL Hlat ltac:(lia) Hfit) as (s' & _ & Hb').
  exists s. split; [exact Hs|].
  assert (Hr' : (0 < - radius)%R) by lra.
  assert (Hts : triples (m_indices s) = triangles L lat).
  { destruct Hb as (_ & _ & _ & _ & Hidx & _).
    rewrite Hidx, set_indices_triangles. cbn [app]. apply triples_flat3. }
  rewrite Hts. pose proof (triangles_below L lat HL Hlat H3 H2) as Hbelow.
  rewrite list.Forall_forall in Hbelow |- *. intros t Ht.
  assert (Ho : wound_outward (m_vertexes s') t).
  { unfold triangles in Ht. rewrite !elem_of_app in Ht. destruct Ht as [Ht|[Ht|Ht]].
    - apply (north_cap_outward (- radius)%R L lat s' Hr' HL Hlat H3 H2 Hfit Hb'); exact Ht.
    - apply (body_bands_outward (- radius)%R L lat s' Hr' HL Hlat H3 H2 Hfit Hb'); exact Ht.
    - apply (south_cap_outward (- radius)%R L lat s' Hr' HL Hlat H3 H2 Hfit Hb'); exact Ht. }
  destruct (Hbelow t Ht) as (Ha & Hbb & Hc).
  destruct Ho as (a & b & c & Hpa & Hpb & Hpc & Hout).
  assert (Hflip : forall n p, 0 <= n < 2 + L * (lat - 1) ->
            position_at (m_vertexes s') n = Some p ->
            position_at (m_vertexes s) n = Some (vneg p)).
  { intros n p Hn Hp.
    destruct (built_vertex radius L lat s n Hb Hn) as [Hq _].
    destruct (built_vertex (- radius)%R L lat s' n Hb' Hn) as [Hq' _].
    rewrite Hq' in Hp. injection Hp as <-.
    rewrite Hq, vertex_position_opp. f_equal.
    unfold vneg. cbn [fst snd].
    destruct (vertex_position radius L lat n) as [[x y] z]. cbn [fst snd].
    repeat f_equal; ring. }
  exists (vneg a), (vneg b), (vneg c).
  split; [apply Hflip; assumption|]. split; [apply Hflip; assumption|].
  split; [apply Hflip; assumption|]. apply inward_vneg. exact Hout.
Qed.

Lemma negative_radius_inside_out_witness :
  exists s,
    Sphere_new (-1)%R 4 3 = Some s /\
    Forall (wound_inward (m_vertexes s)) (triples (m_indices s)).
Proof. apply (negative_radius_inside_out (-1)%R 4 3); [lra | unfold uint; lia ..]. Defined.

(** ** No two vertices coincide *)

Section Distinct.
Local Open Scope R_scope.

Lemma polar_cos_inj (lat k k' : Z) :
  (1 <= lat)%Z -> (0 <= k <= lat)%Z -> (0 <= k' <= lat)%Z ->
  cos (polar lat k) = cos (polar lat k') -> k = k'.
Proof.
  intros Hlat Hk Hk' Hcos.
  destruct (Z.lt_trichotomy k k') as [Hlt|[Heq|Hgt]]; [|exact Heq|].
  - pose proof (height_decreasing lat k k' Hlat ltac:(lia) Hlt ltac:(lia)). lra.
  - pose proof (height_decreasing lat k' k Hlat ltac:(lia) Hgt ltac:(lia)). lra.
Qed.

Lemma azimuth_range (L j : Z) :
  (0 <= j < L)%Z -> 0 <= azimuth L j < 2 * PI.
Proof.
  intros [Hj0 Hj1]. pose proof PI_RGT_0 as Hpi.
  assert (HL : 0 < IZR L) by (apply IZR_lt; lia).
  apply IZR_le in Hj0. apply IZR_lt in Hj1.
  assert (Hinv : 0 < / IZR L) by (apply Rinv_0_lt_compat; lra).
  assert (Hstep : 0 < 2 * PI / IZR L) by (unfold Rdiv; apply Rmult_lt_0_compat; lra).
  unfold azimuth. split.
  - apply Rmult_le_pos; lra.
  - replace (2 * PI) with (IZR L * (2 * PI / IZR L)) at 2 by (field; lra).
    apply Rmult_lt_compat_r; assumption.
Qed.

Lemma azimuth_lt (L j j' : Z) :
  (1 <= L)%Z -> (j < j')%Z -> azimuth L j < azimuth L j'.
Proof.
  intros HL Hj. pose proof PI_RGT_0 as Hpi.
  apply IZR_le in HL. apply IZR_lt in Hj.
  assert (Hinv : 0 < / IZR L) by (apply Rinv_0_lt_compat; lra).
  assert (Hstep : 0 < 2 * PI / IZR L) by (unfold Rdiv; apply Rmult_lt_0_compat; lra).
  unfold azimuth. apply Rmult_lt_compat_r; assumption.
Qed.

(** Two angles of [0, 2 pi) with the same cosine and sine are one angle. *)
Lemma angle_inj_lt (x y : R) :
  0 <= x -> x < y -> y < 2 * PI -> cos x = cos y -> sin x = sin y -> False.
Proof.
  intros Hx Hxy Hy Hc Hs. pose proof PI_RGT_0 as Hpi.
  assert (Hsd : sin (y - x) = 0).
  { rewrite sin_minus, Hc, Hs. ring. }
  assert (Hcd : cos (y - x) = 1).
  { rewrite cos_minus, Hc, Hs. pose proof (sin2_cos2 y) as H2. unfold Rsqr in H2. lra. }
  destruct (sin_eq_O_2PI_0 (y - x)) as [H0|[H1|H2]]; try lra.
  rewrite H1, cos_PI in Hcd. lra.
Qed.

Lemma azimuth_inj (L j j' : Z) :
  (0 <= j < L)%Z -> (0 <= j' < L)%Z ->
  cos (azimuth L j) = cos (azimuth L j') ->
  sin (azimuth L j) = sin (azimuth L j') -> j = j'.
Proof.
  intros Hj Hj' Hc Hs.
  pose proof (azimuth_range L j Hj) as [? ?].
  pose proof (azimuth_range L j' Hj') as [? ?].
  destruct (Z.lt_trichotomy j j') as [Hlt|[Heq|Hgt]]; [|exact Heq|]; exfalso.
  - apply (angle_inj_lt (azimuth L j) (azimuth L j')); try assumption.
    apply azimuth_lt; lia.
  - apply (angle_inj_lt (azimuth L j') (azimuth L j)); try (assumption || symmetry; assumption).
    apply azimuth_lt; lia.
Qed.

Lemma sph_inj (radius : R) (L lat k j k' j' : Z) :
  radius <> 0 -> (1 <= lat)%Z ->
  (1 <= k <= lat - 1)%Z -> (0 <= j < L)%Z ->
  (1 <= k' <= lat - 1)%Z -> (0 <= j' < L)%Z ->
  sph radius (azimuth L j) (polar lat k) = sph radius (azimuth L j') (polar lat k') ->
  k = k' /\ j = j'.
Proof.
  intros Hr Hlat Hk Hj Hk' Hj' Heq. unfold sph in Heq.
  injection Heq as Hx Hy Hz.
  assert (Hkk : k = k').
  { apply (polar_cos_inj lat); try lia. apply (Rmult_eq_reg_l radius); assumption. }
  subst k'. split; [reflexivity|].
  pose proof (polar_sin_pos lat k Hk) as Hsin.
  apply (azimuth_inj L); try assumption.
  - apply (Rmult_eq_reg_l radius); [|exact Hr].
    apply (Rmult_eq_reg_r (sin (polar lat k))); [|lra]. exact Hx.
  - apply (Rmult_eq_reg_l radius); [|exact Hr].
    apply (Rmult_eq_reg_r (sin (polar lat k))); [|lra]. exact Hz.
Qed.

Lemma sph_not_pole (radius : R) (L lat k j : Z) :
  radius <> 0 -> (1 <= lat)%Z -> (1 <= k <= lat - 1)%Z ->
  sph radius (azimuth L j) (polar lat k) <> (0, radius, 0) /\
  sph radius (azimuth L j) (polar lat k) <> (0, - radius, 0).
Proof.
  intros Hr Hlat Hk.
  pose proof (height_decreasing lat 0 k ltac:(lia) ltac:(lia) ltac:(lia) ltac:(lia)) as Hn.
  pose proof (height_decreasing lat k lat ltac:(lia) ltac:(lia) ltac:(lia) ltac:(lia)) as Hso.
  assert (E0 : polar lat 0 = 0%R) by (unfold polar; lra).
  assert (E1 : polar lat lat = PI).
  { unfold polar. field. apply not_0_IZR. lia. }
  rewrite E0, cos_0 in Hn. rewrite E1, cos_PI in Hso.
  unfold sph. split; intros Heq; injection Heq as _ Hy _.
  - assert (cos (polar lat k) = 1) by (apply (Rmult_eq_reg_l radius); lra). lra.
  - assert (cos (polar lat k) = -1) by (apply (Rmult_eq_reg_l radius); lra). lra.
Qed.
End Distinct.

Lemma vertex_position_inj (radius : R) (L lat n n' : Z) :
  radius <> 0%R -> 0 <= L -> 1 <= lat ->
  0 <= n < 2 + L * (lat - 1) -> 0 <= n' < 2 + L * (lat - 1) ->
  vertex_position radius L lat n = vertex_position radius L lat n' -> n = n'.
Proof.
  intros Hr HL Hlat Hn Hn'.
  assert (Hring : forall m, 1 <= m <= L * (lat - 1) ->
            exists k j, 1 <= k <= lat - 1 /\ 0 <= j < L /\ m = 1 + (k - 1) * L + j /\
                        vertex_position radius L lat m
                        = sph radius (azimuth L j) (polar lat k)).
  { intros m Hm. assert (HLpos : 0 < L) by nia.
    pose proof (Z_div_mod_eq_full (m - 1) L) as Hdm.
    pose proof (Z.mod_pos_bound (m - 1) L HLpos) as Hmod.
    exists ((m - 1) / L + 1), ((m - 1) mod L).
    assert (Hq : 0 <= (m - 1) / L <= lat - 2) by nia.
    split; [lia|]. split; [lia|]. split; [lia|].
    unfold vertex_position, vertex_count.
    destruct (Z.eqb_spec m 0); [lia|].
    destruct (Z.eqb_spec m (2 + L * (lat - 1) - 1)); [lia|]. reflexivity. }
  assert (Hnorth : vertex_position radius L lat 0 = (0, radius, 0)%R) by reflexivity.
  assert (Hsouth : vertex_position radius L lat (1 + L * (lat - 1)) = (0, - radius, 0)%R).
  { unfold vertex_position, vertex_count.
    destruct (Z.eqb_spec (1 + L * (lat - 1)) 0); [nia|].
    destruct (Z.eqb_spec (1 + L * (lat - 1)) (2 + L * (lat - 1) - 1)); [reflexivity|lia]. }
  assert (Hcase : forall m, 0 <= m < 2 + L * (lat - 1) ->
            m = 0 \/ m = 1 + L * (lat - 1) \/ 1 <= m <= L * (lat - 1)) by (intros; lia).
  intros Heq.
  destruct (Hcase n Hn) as [->|[->|Hrn]], (Hcase n' Hn') as [->|[->|Hrn']];
    try reflexivity.
  - exfalso. rewrite Hnorth, Hsouth in Heq. injection Heq as Hy. lra.
  - exfalso. destruct (Hring n' Hrn') as (k & j & Hk & Hj & _ & Hp).
    rewrite Hnorth, Hp in Heq.
    destruct (sph_not_pole radius L lat k j Hr Hlat Hk) as [H0 _]. apply H0. symmetry. exact Heq.
  - exfalso. rewrite Hnorth, Hsouth in Heq. injection Heq as Hy. lra.
  - exfalso. destruct (Hring n' Hrn') as (k & j & Hk & Hj & _ & Hp).
    rewrite Hsouth, Hp in Heq.
    destruct (sph_not_pole radius L lat k j Hr Hlat Hk) as [_ H1]. apply H1. symmetry. exact Heq.
  - exfalso. destruct (Hring n Hrn) as (k & j & Hk & Hj & _ & Hp). rewrite Hnorth, Hp in Heq.
    destruct (sph_not_pole radius L lat k j Hr Hlat Hk) as [H0 _]. apply H0. exact Heq.
  - exfalso. destruct (Hring n Hrn) as (k & j & Hk & Hj & _ & Hp). rewrite Hsouth, Hp in Heq.
    destruct (sph_not_pole radius L lat k j Hr Hlat Hk) as [_ H1]. apply H1. exact Heq.
  - destruct (Hring n Hrn) as (k & j & Hk & Hj & En & Hp).
    destruct (Hring n' Hrn') as (k' & j' & Hk' & Hj' & En' & Hp').
    rewrite Hp, Hp' in Heq.
    destruct (sph_inj radius L lat k j k' j' Hr Hlat Hk Hj Hk' Hj' Heq) as [-> ->].
    congruence.
Qed.

(** X21.  In exact arithmetic, for a radius other than 0, no two vertices
    of the mesh are at the same place: the rings do not repeat their first
    vertex to close, and no ring vertex is at a pole. *)
Theorem vertices_distinct (radius : R) (L lat : Z) :
  radius <> 0%R -> uint L -> uint lat -> 1 <= lat ->
  6 * (2 + L * (lat - 1)) < 2 ^ 32 ->
  exists s,
    Sphere_new radius L lat = Some s /\
    forall n n', 0 <= n < 2 + L * (lat - 1) -> 0 <= n' < 2 + L * (lat - 1) ->
      n <> n' ->
      exists p p', position_at (m_vertexes s) n = Some p /\
                   position_at (m_vertexes s) n' = Some p' /\
                   p <> p'.
Proof.
  intros Hr HL Hlat H1 Hfit.
  destruct (Sphere_new_total radius L lat HL Hlat H1 Hfit) as (s & Hs & Hb).
  exists s. split; [exact Hs|]. intros n n' Hn Hn' Hne.
  destruct (built_vertex radius L lat s n Hb Hn) as [Hp _].
  destruct (built_vertex radius L lat s n' Hb Hn') as [Hp' _].
  exists (vertex_position radius L lat n), (vertex_position radius L lat n').
  split; [exact Hp|]. split; [exact Hp'|]. intros Heq. apply Hne.
  apply (vertex_position_inj radius L lat); (assumption || unfold uint in *; lia).
Qed.

Lemma vertices_distinct_witness :
  exists s,
    Sphere_new 2%R 4 3 = Some s /\
    forall n n', 0 <= n < 2 + 4 * (3 - 1) -> 0 <= n' < 2 + 4 * (3 - 1) ->
      n <> n' ->
      exists p p', position_at (m_vertexes s) n = Some p /\
                   position_at (m_vertexes s) n' = Some p' /\
                   p <> p'.
Proof. apply (vertices_distinct 2%R 4 3); [lra | unfold uint; lia ..]. Defined.

(** * The pendulum, in exact arithmetic *)

Section PendulumR.
Local Open Scope R_scope.

(** X22.  In exact arithmetic, for a pivot in the plane [z = 0] (the pivot
    of [main] is (0, 5, 0)), the bob is, after any number of frames and
    from any state, at the distance [length] from the pivot. *)
Theorem bob_on_circle (pivot : R * R * R) (length gravity : R) (p : Pendulum R) (n : nat) :
  pivot.2 = 0 ->
  dot (vsub (position_sphere pivot length (angle (pendulum_frames n gravity length p))) pivot)
      (vsub (position_sphere pivot length (angle (pendulum_frames n gravity length p))) pivot)
  = length * length.
Proof.
  intros Hz. generalize (angle (pendulum_frames n gravity length p)) as a.
  intros a. destruct pivot as [[px py] pz]. cbn [fst snd] in Hz. subst pz.
  unfold position_sphere, f_sub, dot, vsub. float_ops.
  pose proof (real_cos2_sin2 a) as Ha.
  transitivity (length * length * (cos a * cos a + sin a * sin a)); [ring|].
  rewrite Ha. ring.
Qed.

(** X23.  In exact arithmetic the pendulum at rest stays at rest: the state
    of angle 0 and velocity 0 is kept by every frame (so is the upright
    state of angle pi), and the bob then hangs at [length] under the
    pivot. *)
Theorem pendulum_equilibria (gravity length : R) (pivot : R * R * R) :
  length <> 0 ->
  pendulum_step gravity length (mkPendulum 0 0) = mkPendulum 0 0 /\
  pendulum_step gravity length (mkPendulum PI 0) = mkPendulum PI 0 /\
  (forall n, pendulum_frames n gravity length (mkPendulum 0 0) = mkPendulum 0 0) /\
  position_sphere pivot length 0 = (pivot.1.1, pivot.1.2 - length, 0).
Proof.
  intros Hl.
  assert (H0 : pendulum_step gravity length (mkPendulum 0 0) = mkPendulum 0 0).
  { unfold pendulum_step. float_ops. cbn [angle velocity_ang]. rewrite sin_0.
    f_equal; field; exact Hl. }
  split; [exact H0|]. split; [|split].
  - unfold pendulum_step. float_ops. cbn [angle velocity_ang]. rewrite sin_PI.
    f_equal; field; exact Hl.
  - intros n. induction n as [|n IH]; [reflexivity|]. cbn [pendulum_frames].
    rewrite H0. exact IH.
  - unfold position_sphere, f_sub. float_ops. rewrite sin_0, cos_0.
    repeat f_equal; ring.
Qed.

(** X24.  In exact arithmetic, with gravity and length above 0, a frame
    moves a pendulum released without velocity towards its rest position:
    from an angle in (0, pi) the velocity becomes negative and the angle
    decreases; from the opposite angle the velocity becomes positive and
    the angle increases. *)
Theorem pendulum_restoring (gravity length a : R) :
  0 < gravity -> 0 < length -> 0 < a < PI ->
  velocity_ang (pendulum_step gravity length (mkPendulum a 0)) < 0 /\
  angle (pendulum_step gravity length (mkPendulum a 0)) < a /\
  0 < velocity_ang (pendulum_step gravity length (mkPendulum (- a) 0)) /\
  - a < angle (pendulum_step gravity length (mkPendulum (- a) 0)).
Proof.
  intros Hg Hl [Ha0 Ha1].
  unfold pendulum_step. float_ops. cbn [angle velocity_ang].
  rewrite sin_neg.
  pose proof (sin_gt_0 a Ha0 Ha1) as Hs.
  assert (Hq : 0 < gravity * sin a / length).
  { unfold Rdiv. apply Rmult_lt_0_compat; [apply Rmult_lt_0_compat; assumption|].
    apply Rinv_0_lt_compat. exact Hl. }
  replace (- gravity * sin a / length) with (- (gravity * sin a / length)) by (field; lra).
  replace (- gravity * - sin a / length) with (gravity * sin a / length) by (field; lra).
  lra.
Qed.

(** X25.  In exact arithmetic the motion is symmetric: from the opposite
    angle and velocity, every frame gives the opposite angle and
    velocity. *)
Theorem pendulum_mirror (gravity length : R) (p : Pendulum R) (n : nat) :
  pendulum_frames n gravity length (mirror p) = mirror (pendulum_frames n gravity length p).
Proof.
  revert p.
  assert (Hstep : forall p, pendulum_step gravity length (mirror p)
                            = mirror (pendulum_step gravity length p)).
  { intros p. unfold pendulum_step, mirror. float_ops. cbn [angle velocity_ang].
    rewrite sin_neg. f_equal; unfold Rdiv; ring. }
  induction n as [|n IH]; intros p; [reflexivity|].
  cbn [pendulum_frames]. rewrite Hstep. apply IH.
Qed.
End PendulumR.

Lemma bob_on_circle_witness :
  dot (vsub (position_sphere (0, 5, 0)%R 5%R
               (angle (pendulum_frames 3 (3 / 200)%R 5%R (mkPendulum (PI / 3)%R 0%R))))
            (0, 5, 0)%R)
      (vsub (position_sphere (0, 5, 0)%R 5%R
               (angle (pendulum_frames 3 (3 / 200)%R 5%R (mkPendulum (PI / 3)%R 0%R))))
            (0, 5, 0)%R)
  = (5 * 5)%R.
Proof. apply (bob_on_circle (0, 5, 0)%R). reflexivity. Defined.

Lemma pendulum_equilibria_witness :
  pendulum_step (3 / 200)%R 5%R (mkPendulum 0 0)%R = mkPendulum 0%R 0%R /\
  pendulum_step (3 / 200)%R 5%R (mkPendulum PI 0%R) = mkPendulum PI 0%R /\
  (forall n, pendulum_frames n (3 / 200)%R 5%R (mkPendulum 0 0)%R = mkPendulum 0%R 0%R) /\
  position_sphere (0, 5, 0)%R 5%R 0%R = (0, 5 - 5, 0)%R.
Proof. apply (pendulum_equilibria (3 / 200)%R 5%R (0, 5, 0)%R). lra. Defined.

Lemma pendulum_restoring_witness :
  (velocity_ang (pendulum_step (3 / 200) 5 (mkPendulum 1 0)) < 0 /\
   angle (pendulum_step (3 / 200) 5 (mkPendulum 1 0)) < 1 /\
   0 < velocity_ang (pendulum_step (3 / 200) 5 (mkPendulum (- 1) 0)) /\
   - 1 < angle (pendulum_step (3 / 200) 5 (mkPendulum (- 1) 0)))%R.
Proof.
  apply (pendulum_restoring (3 / 200)%R 5%R 1%R); try lra.
  pose proof PI2_1. unfold PI2 in *. lra.
Defined.
